(** * QErase: the erasure engine of [src/main.py]

    A shallow embedding of the module-level helpers ([is_valid_file_path],
    [is_file_in_use], [get_processes_using_file], [terminate_process],
    [truncate_middle]) and of [EraseThread] ([should_update_progress],
    [get_passes], [generate_pattern], [run]).

    The engine talks to the operating system all the time (files, processes,
    the clock, the random generator).  Those calls are the fields of the
    [Platform] class; the engine is written once, over any platform, in a
    state-and-exception monad that records every call and every Qt signal in
    a log.  [Sim] at the end of the definitions is a small in-memory platform
    on which the engine can be run. *)

From Stdlib Require Import ZArith QArith String Ascii List Lia DecimalString.
From Stdlib Require Import Floats Uint63.
From Stdlib.Strings Require Import Byte.
From stdpp Require Import base gmap strings list.

Local Open Scope string_scope.
Local Open Scope list_scope.

(** ** Data *)

Definition path := string.

(** Python exception classes that the code distinguishes, and [str(e)]. *)
Inductive exn_class :=
| OSError            (* IOError is an alias of OSError *)
| NoSuchProcess      (* psutil.NoSuchProcess *)
| AccessDenied       (* psutil.AccessDenied *)
| TimeoutExpired     (* psutil.TimeoutExpired *)
| ZeroDivisionError
| OtherException.    (* any other subclass of Exception *)

Record exn := Exn { exn_class_of : exn_class; exn_str : string }.

(** The three modes [open] is called with. *)
Inductive open_mode := ModeA (* 'a' *) | ModeWB (* 'wb' *) | ModeRPlusB (* 'r+b' *).

(** A [psutil.Process] handle. *)
Record process := Process { pid : Z }.

(** Calls that change the world and return nothing. *)
Inductive syscall :=
| SysOpen (p : path) (m : open_mode)          (* open(p, m) *)
| SysWrite (p : path) (data : list byte)      (* f.write(data) *)
| SysClose (p : path)                         (* leaving the with block *)
| SysRemove (p : path)                        (* os.remove *)
| SysRmdir (p : path)                         (* os.rmdir *)
| SysRename (src dst : path)                  (* os.rename *)
| SysMove (src dst : path)                    (* shutil.move *)
| SysRmtree (p : path)                        (* shutil.rmtree(p, ignore_errors=True) *)
| SysTerminate (pr : process)                 (* process.terminate() *)
| SysWait (pr : process) (timeout : Z)        (* process.wait(timeout=...) *)
| SysKill (pr : process).                     (* process.kill() *)

(** The Qt signals of [EraseThread]. *)
Inductive signal :=
| Progress (percent : Z)
| Finished
| Error (msg : string)
| FileStatus (msg : string)
| FolderDeleted (folder : path).

(** What an observer of a run sees, in order. *)
Inductive action :=
| Emit (s : signal)
| Poll (running : bool)                       (* a read of self._is_running *)
| Sys (c : syscall) (raised : option exn)
| Shell (cmd : string) (r : exn + Z)          (* subprocess.run(cmd, shell=True) *)
| Clock (t : Q)                               (* time.time() *)
| Rand (b : byte)                             (* random.randint(0, 255) *)
| RandIdx (n i : nat).                        (* one pick of random.choices *)

(** ** The platform *)

Class Platform (W : Type) := {
  (* os.path, str *)
  os_path_join : path -> string -> path;
  os_path_dirname : path -> path;
  str_lower : string -> string;
  os_name_is_nt : bool;
  (* queries; os.path.isfile, isdir, exists and os.access do not raise *)
  os_path_isfile : path -> W -> bool;
  os_path_isdir : path -> W -> bool;
  os_path_exists : path -> W -> bool;
  os_access_rw : path -> W -> bool;           (* os.access(p, os.R_OK | os.W_OK) *)
  os_path_getsize : path -> W -> exn + Z;
  (* os.walk(top, topdown): the triples (root, dirs, files) it yields *)
  os_walk : bool -> path -> W -> list (path * list string * list string);
  psutil_process_iter : W -> exn + list process;
  proc_open_files : process -> W -> exn + list path;
  proc_is_running : process -> W -> bool;
  proc_name : process -> W -> exn + string;
  (* effects *)
  exec : syscall -> W -> option exn * W;
  subprocess_run : string -> W -> (exn + Z) * W;
  time_time : W -> Q * W;
  random_randint_byte : W -> byte * W;        (* random.randint(0, 255) *)
  random_below : nat -> W -> nat * W          (* floor(random() * n), below n *)
}.

(** ** Pure helpers of the module *)

(** A Python [str] is held as its UTF-8 encoding.  [len] and the slices of a
    [str] count characters (code points), so the bytes [10xxxxxx], which
    continue a character, are not counted and stay with their character. *)
Definition is_continuation (c : ascii) : bool :=
  match c with
  | Ascii _ _ _ _ _ _ b6 b7 => b7 && negb b6
  end.

(** [len(text)] *)
Fixpoint str_len (s : string) : nat :=
  match s with
  | EmptyString => 0%nat
  | String c rest => if is_continuation c then str_len rest else S (str_len rest)
  end.

(** [text[:n]] *)
Fixpoint str_take (n : nat) (s : string) : string :=
  match s with
  | EmptyString => EmptyString
  | String c rest =>
      if is_continuation c then String c (str_take n rest)
      else match n with
           | O => EmptyString
           | S n' => String c (str_take n' rest)
           end
  end.

(** [text[n:]] *)
Fixpoint str_drop (n : nat) (s : string) : string :=
  match s with
  | EmptyString => EmptyString
  | String c rest =>
      if is_continuation c then str_drop n rest
      else match n with
           | O => s
           | S n' => str_drop n' rest
           end
  end.

(** [text[-n:]]; [text[-0:]] is the whole text, and so is [text[-n:]] for an
    [n] above the length. *)
Definition str_suffix (n : nat) (s : string) : string :=
  if (n =? 0)%nat then s
  else str_drop (str_len s - n) s.

Definition truncate_middle (text : string) : string :=
  let max_length := 40%nat in
  if (str_len text <=? max_length)%nat then text
  else
    let part_length := ((max_length - 3) / 2)%nat in
    str_take part_length text ++ "..." ++ str_suffix part_length text.

Definition CHUNK_SIZE : Z := 64 * 1024.
Definition update_interval : Q := 1 # 2.

(** [pattern[:size]], negative [size] included. *)
Definition generate_pattern (pattern : list byte) (size : Z) : list byte :=
  if (size <? 0)%Z then take (length pattern - Z.to_nat (- size)) pattern
  else take (Z.to_nat size) pattern.

(** [int((processed / total) * 100)] for [total <> 0]: true division and the
    product are binary64 operations, [int] truncates.  Exact for sizes below
    2^53, where the quotient and the product are finite. *)
Definition float_of_size (z : Z) : float := PrimFloat.of_uint63 (Uint63.of_Z z).

Definition int_of_float (f : float) : Z :=
  match Prim2SF f with
  | S754_finite s m e =>
      let v := if (0 <=? e)%Z then (Z.pos m * 2 ^ e)%Z else (Z.pos m / 2 ^ (- e))%Z in
      if s then (- v)%Z else v
  | _ => 0%Z
  end.

Definition percent_of (processed total : Z) : Z :=
  int_of_float (PrimFloat.mul (PrimFloat.div (float_of_size processed) (float_of_size total))
                              (float_of_size 100)).

(** The method names offered by the window; [get_passes] compares against four. *)
Definition METHOD_SIMPLE : string := "[覆写1次] 简单覆盖".
Definition METHOD_DOD3 : string := "[覆写3次] DoD 5220.22-M".
Definition METHOD_DOD7 : string := "[覆写7次] DoD 5220.22-M ECE".
Definition METHOD_GUTMANN : string := "[覆写35次] Gutmann".
Definition METHOD_VSITR : string := "[覆写7次] German VSITR".

Definition special_patterns : list byte :=
  [ x92; x49; x24; x92; x49; x24; x92; x49;
    x49; x24; x92; x49; x24; x92; x49; x24;
    x24; x92; x49; x24; x92; x49; x24; x92;
    x00; x00; x00; x00; x00; x00; x00; x00;
    x11; x11; x11; x11; x11; x11; x11; x11;
    x22; x22; x22; x22; x22; x22; x22; x22;
    x33; x33; x33; x33; x33; x33; x33; x33;
    x44; x44; x44; x44; x44; x44; x44; x44;
    x55; x55; x55; x55; x55; x55; x55; x55;
    x66; x66; x66; x66; x66; x66; x66; x66;
    x77; x77; x77; x77; x77; x77; x77; x77;
    x88; x88; x88; x88; x88; x88; x88; x88;
    x99; x99; x99; x99; x99; x99; x99; x99;
    xaa; xaa; xaa; xaa; xaa; xaa; xaa; xaa;
    xbb; xbb; xbb; xbb; xbb; xbb; xbb; xbb ].

(** [string.ascii_letters + string.digits] *)
Definition ALNUM : string :=
  "abcdefghijklmnopqrstuvwxyzABCDEFGHIJKLMNOPQRSTUVWXYZ0123456789".

Definition str_of_int (z : Z) : string := NilZero.string_of_int (Z.to_int z).

(** ** Control flow: values, exceptions and the [return] statements of [run] *)

Inductive outcome (A : Type) :=
| Val (a : A)
| Exc (e : exn)
| Returned.
Arguments Val {A} a.
Arguments Exc {A} e.
Arguments Returned {A}.

Section Monad.
Variable S : Type.

Definition comp (A : Type) : Type := S -> outcome A * S.

Definition ret {A} (a : A) : comp A := fun s => (Val a, s).

Definition bind {A B} (m : comp A) (f : A -> comp B) : comp B :=
  fun s =>
    match m s with
    | (Val a, s') => f a s'
    | (Exc e, s') => (Exc e, s')
    | (Returned, s') => (Returned, s')
    end.

Definition raise {A} (e : exn) : comp A := fun s => (Exc e, s).

Definition return_ {A} : comp A := fun s => (Returned, s).

(** [try: m except Exception as e: h e]; a [return] inside [m] is not caught. *)
Definition try_except {A} (m : comp A) (h : exn -> comp A) : comp A :=
  fun s =>
    match m s with
    | (Exc e, s') => h e s'
    | r => r
    end.

(** [m] followed by [c] however [m] ends (the exit of a with block). *)
Definition finally {A} (m : comp A) (c : comp unit) : comp A :=
  fun s =>
    let (o, s1) := m s in
    match c s1 with
    | (Val _, s2) => (o, s2)
    | (Exc e, s2) => (Exc e, s2)
    | (Returned, s2) => (Returned, s2)
    end.
End Monad.

Arguments ret {S A} a.
Arguments bind {S A B} m f.
Arguments raise {S A} e.
Arguments return_ {S A}.
Arguments try_except {S A} m h.
Arguments finally {S A} m c.

Notation "'let*' x := m 'in' k" := (bind m (fun x => k))
  (at level 10, x name, m at level 100, k at level 200).
Notation "m ;; k" := (bind m (fun _ => k))
  (at level 100, k at level 200, right associativity).

(** ** The engine *)

Section Engine.
Context {W : Type} `{Platform W}.

(** [self.method], and the moment [stop()] is called from the window thread:
    [Some n] when the [n]-th read of [_is_running] (counting from 0) is the
    first to find it [False], [None] when no read does.  [stop] is the only
    writer after [__init__], so the flag never goes back to [True]. *)
Variable method : string.
Variable stop_at : option nat.

Record state := State {
  world : W;
  log : list action;                 (* newest first *)
  polls : nat;                       (* reads of _is_running so far *)
  last_progress_update : Q;
  processed_size : Z;
  total_size : Z;
  current_file_index : nat }.

Definition initial (w : W) : state := State w [] 0 0%Q 0 0 0.

Definition history (st : state) : list action := rev (log st).

Definition record (a : action) (st : state) : state :=
  State (world st) (a :: log st) (polls st) (last_progress_update st)
        (processed_size st) (total_size st) (current_file_index st).

Definition with_world (w : W) (st : state) : state :=
  State w (log st) (polls st) (last_progress_update st)
        (processed_size st) (total_size st) (current_file_index st).

Definition bump_polls (st : state) : state :=
  State (world st) (log st) (Datatypes.S (polls st)) (last_progress_update st)
        (processed_size st) (total_size st) (current_file_index st).

Definition with_last_progress_update (t : Q) (st : state) : state :=
  State (world st) (log st) (polls st) t
        (processed_size st) (total_size st) (current_file_index st).

Definition with_processed_size (z : Z) (st : state) : state :=
  State (world st) (log st) (polls st) (last_progress_update st)
        z (total_size st) (current_file_index st).

Definition with_total_size (z : Z) (st : state) : state :=
  State (world st) (log st) (polls st) (last_progress_update st)
        (processed_size st) z (current_file_index st).

Definition with_current_file_index (i : nat) (st : state) : state :=
  State (world st) (log st) (polls st) (last_progress_update st)
        (processed_size st) (total_size st) i.

Local Abbreviation M := (comp state).

(** *** Primitive steps *)

Definition modify (f : state -> state) : M unit := fun st => (Val tt, f st).

Definition emit (s : signal) : M unit := modify (record (Emit s)).

Definition running_at (k : nat) : bool :=
  match stop_at with
  | None => true
  | Some n => (k <? n)%nat
  end.

(** One read of [self._is_running]. *)
Definition poll : M bool :=
  fun st =>
    let b := running_at (polls st) in
    (Val b, record (Poll b) (bump_polls st)).

Definition query {A} (f : W -> A) : M A := fun st => (Val (f (world st)), st).

Definition query_exn {A} (f : W -> exn + A) : M A :=
  fun st =>
    match f (world st) with
    | inl e => (Exc e, st)
    | inr a => (Val a, st)
    end.

Definition sys (c : syscall) : M unit :=
  fun st =>
    let (r, w) := exec c (world st) in
    let st' := record (Sys c r) (with_world w st) in
    match r with
    | None => (Val tt, st')
    | Some e => (Exc e, st')
    end.

Definition shell (cmd : string) : M Z :=
  fun st =>
    let (r, w) := subprocess_run cmd (world st) in
    let st' := record (Shell cmd r) (with_world w st) in
    match r with
    | inl e => (Exc e, st')
    | inr rc => (Val rc, st')
    end.

Definition time : M Q :=
  fun st =>
    let (t, w) := time_time (world st) in
    (Val t, record (Clock t) (with_world w st)).

Definition randint_byte : M byte :=
  fun st =>
    let (b, w) := random_randint_byte (world st) in
    (Val b, record (Rand b) (with_world w st)).

Definition rand_below (n : nat) : M nat :=
  fun st =>
    let (i, w) := random_below n (world st) in
    (Val i, record (RandIdx n i) (with_world w st)).

(** *** Module-level helpers *)

Definition is_valid_file_path (file_path : path) : M bool :=
  query (fun w =>
    if os_path_isfile file_path w then os_access_rw file_path w
    else if os_path_isdir file_path w then os_access_rw file_path w
    else false).

(** [with open(file_path, 'a'): return False], any exception giving [True]. *)
Definition is_file_in_use (file_path : path) : M bool :=
  try_except
    (sys (SysOpen file_path ModeA) ;; sys (SysClose file_path) ;; ret false)
    (fun _ => ret true).

Definition matches_of (proc : process) (files : list path) (file_path : path)
  : list process :=
  flat_map (fun f => if String.eqb (str_lower f) (str_lower file_path)
                     then [proc] else []) files.

Fixpoint scan_processes (procs : list process) (file_path : path)
         (processes : list process) : M (list process) :=
  match procs with
  | [] => ret processes
  | proc :: rest =>
      fun st =>
        match proc_open_files proc (world st) with
        | inr files =>
            scan_processes rest file_path
                           (processes ++ matches_of proc files file_path) st
        | inl e =>
            match exn_class_of e with
            | NoSuchProcess | AccessDenied =>
                scan_processes rest file_path processes st
            | _ => (Exc e, st)
            end
        end
  end.

Definition get_processes_using_file (file_path : path) : M (list process) :=
  try_except
    (let* procs := query_exn psutil_process_iter in
     scan_processes procs file_path [])
    (fun _ => ret []).

Definition terminate_process (proc : process) : M bool :=
  try_except
    (let* running := query (proc_is_running proc) in
     if running then
       sys (SysTerminate proc) ;;
       sys (SysWait proc 3) ;;
       let* still := query (proc_is_running proc) in
       (if still then sys (SysKill proc) else ret tt) ;;
       ret true
     else ret false)
    (fun _ => ret false).

(** *** EraseThread *)

Definition should_update_progress (current_time : Q) : M bool :=
  fun st =>
    if Qle_bool update_interval (current_time - last_progress_update st)
    then (Val true, with_last_progress_update current_time st)
    else (Val false, st).

Fixpoint random_bytes (n : nat) : M (list byte) :=
  match n with
  | O => ret []
  | Datatypes.S n' =>
      let* b := randint_byte in
      let* rest := random_bytes n' in
      ret (b :: rest)
  end.

(** [b'\x..' * 1024] and [bytes([random.randint(0, 255) for _ in range(1024)])] *)
Definition fixed (b : byte) : list byte := replicate 1024 b.
Definition random_pattern : M (list byte) := random_bytes 1024.

Fixpoint times {A} (n : nat) (m : M A) : M (list A) :=
  match n with
  | O => ret []
  | Datatypes.S n' =>
      let* a := m in
      let* rest := times n' m in
      ret (a :: rest)
  end.

Definition get_passes : M (list (list byte)) :=
  if String.eqb method METHOD_DOD3 then
    let* r := random_pattern in
    ret [fixed x00; fixed x01; fixed x00; fixed x01; fixed x00; fixed x01; r]
  else if String.eqb method METHOD_DOD7 then
    let* r1 := random_pattern in
    let* r2 := random_pattern in
    ret [fixed x00; fixed xff; r1; fixed x00; fixed xff; r2; fixed x00]
  else if String.eqb method METHOD_GUTMANN then
    let patterns := replicate 4 (fixed x00) in
    let patterns := patterns ++ [fixed x55] in
    let patterns := patterns ++ [fixed xaa] in
    let* rs := times 4 random_pattern in
    let patterns := patterns ++ rs in
    let patterns := patterns ++ map fixed special_patterns in
    let* rs' := times 6 random_pattern in
    let patterns := patterns ++ rs' in
    let patterns := patterns ++ replicate 4 (fixed x00) in
    ret patterns
  else if String.eqb method METHOD_VSITR then
    let* r1 := random_pattern in
    let* r2 := random_pattern in
    ret [fixed x00; fixed xff; r1; fixed x00; fixed xff; r2; fixed x00]
  else ret [fixed x00].

(** [int((self.processed_size / self.total_size) * 100)] *)
Definition total_percent : M Z :=
  fun st =>
    if (total_size st =? 0)%Z
    then (Exc (Exn ZeroDivisionError "division by zero"), st)
    else (Val (percent_of (processed_size st) (total_size st)), st).

Definition with_open {A} (p : path) (m : open_mode) (body : M A) : M A :=
  sys (SysOpen p m) ;;
  finally body (sys (SysClose p)).

(** [while written < file_size: ...]; every turn adds at least one byte to
    [written], so [fuel] turns are enough when [file_size - written] is at
    most [fuel * CHUNK_SIZE] ([write_chunks_fuel]). *)
Fixpoint write_chunks (fuel : nat) (f : path) (pattern : list byte)
         (file_size written : Z) : M unit :=
  if (written <? file_size)%Z then
    match fuel with
    | O => ret tt
    | Datatypes.S fuel' =>
        let* running := poll in
        if negb running then return_
        else
          let chunk_size := Z.min CHUNK_SIZE (file_size - written) in
          let chunk := generate_pattern pattern chunk_size in
          sys (SysWrite f chunk) ;;
          let written := (written + chunk_size)%Z in
          modify (fun st => with_processed_size (processed_size st + chunk_size) st) ;;
          let* current_time := time in
          let* due := should_update_progress current_time in
          (if due then
             let* total_percent := total_percent in
             emit (Progress total_percent)
           else ret tt) ;;
          write_chunks fuel' f pattern file_size written
    end
  else ret tt.

Definition chunks_fuel (file_size : Z) : nat :=
  Datatypes.S (Z.to_nat (file_size / CHUNK_SIZE)).

(** [for i, pattern in enumerate(passes): ...] *)
Fixpoint write_passes (f : path) (file_size : Z) (i : nat)
         (passes : list (list byte)) : M unit :=
  match passes with
  | [] => ret tt
  | pattern :: rest =>
      let* running := poll in
      if negb running then return_
      else
        with_open f (if (0 <? i)%nat then ModeRPlusB else ModeWB)
          (write_chunks (chunks_fuel file_size) f pattern file_size 0) ;;
        let* total_percent := total_percent in
        emit (Progress total_percent) ;;
        write_passes f file_size (Datatypes.S i) rest
  end.

(** The [try] block that overwrites and removes one file; [run] has it
    twice, word for word, for nested and for directly selected files. *)
Definition shred_file (f : path) : M unit :=
  try_except
    (let* file_size := query_exn (os_path_getsize f) in
     let* passes := get_passes in
     write_passes f file_size 0 passes ;;
     try_except
       (sys (SysRemove f))
       (fun _ => emit (Error ("删除文件失败: " ++ truncate_middle f))))
    (fun _ => emit (Error ("处理文件失败: " ++ truncate_middle f))).

(** Lines 254-264: the check for a holder and the termination of holders. *)
Fixpoint terminate_all (processes : list process) : M unit :=
  match processes with
  | [] => ret tt
  | proc :: rest =>
      let* _stopped := terminate_process proc in
      (* both branches only log; the log line evaluates proc.name() *)
      let* _name := query_exn (proc_name proc) in
      terminate_all rest
  end.

Definition resolve_locks (file_path : path) : M unit :=
  let* in_use := is_file_in_use file_path in
  if in_use then
    emit (FileStatus ("文件 " ++ truncate_middle file_path
                      ++ " 正在被占用，尝试终止占用进程...")) ;;
    let* processes := get_processes_using_file file_path in
    terminate_all processes
  else ret tt.

(** Lines 199-239: the files of one triple of the bottom-up walk. *)
Fixpoint shred_files_in (root : path) (files : list string) : M unit :=
  match files with
  | [] => ret tt
  | file :: rest =>
      let full_path := os_path_join root file in
      let* valid := is_valid_file_path full_path in
      (if valid then
         emit (FileStatus ("正在粉碎: " ++ truncate_middle full_path)) ;;
         shred_file full_path
       else ret tt) ;;
      shred_files_in root rest
  end.

(** Lines 242-246: the sub-folders of one triple. *)
Fixpoint record_subfolders (root : path) (dirs : list string)
         (folders_to_delete : gset path) : M (gset path) :=
  match dirs with
  | [] => ret folders_to_delete
  | dir_name :: rest =>
      let dir_path := os_path_join root dir_name in
      let* there := query (os_path_exists dir_path) in
      record_subfolders root rest
        (if there then {[dir_path]} ∪ folders_to_delete else folders_to_delete)
  end.

(** [for root, dirs, files in os.walk(file_path, topdown=False)].  The walk
    lists a directory before it yields anything at or below it and the body
    only touches files of the triple it was given, so the triples are those
    of the tree as it is when the walk starts. *)
Fixpoint shred_walk (triples : list (path * list string * list string))
         (folders_to_delete : gset path) : M (gset path) :=
  match triples with
  | [] => ret folders_to_delete
  | (root, dirs, files) :: rest =>
      shred_files_in root files ;;
      let* folders_to_delete := record_subfolders root dirs folders_to_delete in
      shred_walk rest folders_to_delete
  end.

(** Lines 180-296: the first loop of [run]. *)
Fixpoint process_paths (idx : nat) (file_paths : list path)
         (folders_to_delete : gset path) : M (gset path) :=
  match file_paths with
  | [] => ret folders_to_delete
  | file_path :: rest =>
      let* running := poll in
      if negb running then
        emit (Error "操作已取消") ;;
        return_
      else
        modify (with_current_file_index idx) ;;
        let* valid := is_valid_file_path file_path in
        if negb valid then process_paths (Datatypes.S idx) rest folders_to_delete
        else
          let* is_dir := query (os_path_isdir file_path) in
          if is_dir then
            let folders_to_delete := {[file_path]} ∪ folders_to_delete in
            let* triples := query (os_walk false file_path) in
            let* folders_to_delete := shred_walk triples folders_to_delete in
            process_paths (Datatypes.S idx) rest folders_to_delete
          else
            emit (FileStatus ("正在粉碎: " ++ truncate_middle file_path)) ;;
            resolve_locks file_path ;;
            shred_file file_path ;;
            process_paths (Datatypes.S idx) rest folders_to_delete
  end.

(** [''.join(random.choices(population, k=k))] *)
Fixpoint random_choices (population : string) (k : nat) : M string :=
  match k with
  | O => ret ""
  | Datatypes.S k' =>
      let* i := rand_below (String.length population) in
      let c := match String.get i population with
               | Some c => c
               | None => "x"%char
               end in
      let* rest := random_choices population k' in
      ret (String c rest)
  end.

Definition dquote : string := String (Ascii.ascii_of_nat 34) EmptyString.

(** Lines 301-373: the body of the second loop of [run], for one folder. *)
Definition remove_folder (folder : path) : M unit :=
  try_except
    (let* there := query (os_path_exists folder) in
     if negb there then ret tt
     else
       emit (FileStatus ("正在处理文件夹: " ++ truncate_middle folder)) ;;
       let* removed :=
         try_except
           (sys (SysRmdir folder) ;;
            emit (FolderDeleted folder) ;;
            ret true)
           (fun _ => ret false) in
       if removed then ret tt
       else
         let folder_dir := os_path_dirname folder in
         let* random_name := random_choices ALNUM 8 in
         let temp_folder := os_path_join folder_dir random_name in
         let* renamed :=
           try_except
             (sys (SysRename folder temp_folder) ;;
              ret (Some temp_folder))
             (fun _ =>
                try_except
                  (sys (SysMove folder temp_folder) ;;
                   ret (Some temp_folder))
                  (fun _ => ret None)) in
         match renamed with
         | None => ret tt
         | Some folder =>
             let* removed :=
               try_except
                 (sys (SysRmtree folder) ;;
                  let* there := query (os_path_exists folder) in
                  if negb there then
                    emit (FolderDeleted folder) ;;
                    ret true
                  else ret false)
                 (fun _ => ret false) in
             if removed then ret tt
             else
               try_except
                 (let cmd :=
                    if os_name_is_nt
                    then ("rmdir /s /q " ++ dquote ++ folder ++ dquote)%string
                    else ("rm -rf " ++ dquote ++ folder ++ dquote)%string in
                  let* returncode := shell cmd in
                  let failed : M unit :=
                    raise (Exn OtherException
                               ("删除失败，返回码: " ++ str_of_int returncode)) in
                  if (returncode =? 0)%Z then
                    let* there := query (os_path_exists folder) in
                    if negb there then emit (FolderDeleted folder)
                    else failed
                  else failed)
                 (fun _ =>
                    emit (Error ("删除文件夹失败: " ++ truncate_middle folder)))
         end)
    (fun _ => emit (Error ("处理文件夹失败: " ++ truncate_middle folder))).

(** [for folder in folders_to_delete] *)
Fixpoint remove_folders (folders : list path) : M unit :=
  match folders with
  | [] => ret tt
  | folder :: rest =>
      remove_folder folder ;;
      remove_folders rest
  end.

(** Lines 162-171: the total size of the batch. *)
Definition add_total_size (z : Z) : M unit :=
  modify (fun st => with_total_size (total_size st + z) st).

Fixpoint size_files (dirpath : path) (filenames : list string) : M unit :=
  match filenames with
  | [] => ret tt
  | f :: rest =>
      let fp := os_path_join dirpath f in
      let* there := query (os_path_exists fp) in
      (if there then
         let* size := query_exn (os_path_getsize fp) in
         add_total_size size
       else ret tt) ;;
      size_files dirpath rest
  end.

Fixpoint size_walk (triples : list (path * list string * list string)) : M unit :=
  match triples with
  | [] => ret tt
  | (dirpath, _, filenames) :: rest =>
      size_files dirpath filenames ;;
      size_walk rest
  end.

Fixpoint size_paths (file_paths : list path) : M unit :=
  match file_paths with
  | [] => ret tt
  | p :: rest =>
      let* is_file := query (os_path_isfile p) in
      (if is_file then
         let* size := query_exn (os_path_getsize p) in
         add_total_size size
       else
         let* is_dir := query (os_path_isdir p) in
         if is_dir then
           let* triples := query (os_walk true p) in
           size_walk triples
         else ret tt) ;;
      size_paths rest
  end.

(** Lines 161-173. *)
Definition sizing (file_paths : list path) : M unit :=
  modify (with_total_size 0) ;;
  size_paths file_paths ;;
  modify (with_processed_size 0).

(** The folders are a Python set: their order in the second loop is that of
    the set, here that of [elements]. *)
Definition run (file_paths : list path) : M unit :=
  try_except
    (let total_files := length file_paths in
     if (total_files =? 0)%nat then
       emit (Error "没有有效的文件可以删除") ;;
       return_
     else
       sizing file_paths ;;
       let* folders_to_delete := process_paths 0 file_paths ∅ in
       remove_folders (elements folders_to_delete) ;;
       let* running := poll in
       if running then emit Finished else ret tt)
    (fun e => emit (Error ("粉碎过程中发生错误: " ++ exn_str e))).

(** [EraseThread.__init__]: [self.file_paths] keeps the valid paths. *)
Fixpoint valid_paths (file_paths : list path) : M (list path) :=
  match file_paths with
  | [] => ret []
  | f :: rest =>
      let* valid := is_valid_file_path f in
      let* rest' := valid_paths rest in
      ret (if valid then f :: rest' else rest')
  end.

Definition init (file_paths : list path) : M (list path) :=
  let* file_paths := valid_paths file_paths in
  (if (length file_paths =? 0)%nat
   then emit (Error "没有有效的文件可以删除")
   else ret tt) ;;
  ret file_paths.

(** The thread from construction to the end of [run], from a world [w]. *)
Definition erase (file_paths : list path) (w : W) : outcome unit * state :=
  (let* file_paths := init file_paths in run file_paths) (initial w).

End Engine.

Arguments state W : clear implicits.
Arguments initial {W} w.
Arguments history {W} st.

(** ** An in-memory platform

    A flat table of files and directories with POSIX path conventions, a
    process table, a clock that advances by [tick] at every reading and a
    linear congruential generator.  A file listed among the open files of a
    live process cannot be opened or removed by anyone else. *)

Module Sim.

Inductive node := File (content : list byte) | Dir.

Record sim_process := SimProcess {
  handle : process;
  name : string;
  open_files : list path;
  alive : bool;
  obeys_terminate : bool }.

Record machine := Machine {
  fs : list (path * node);
  cursor : list (path * nat);      (* position of the open file objects *)
  procs : list sim_process;
  now : Q;
  tick : Q;
  seed : Z }.

(** *** posixpath *)

Definition ends_with_slash (s : string) : bool :=
  match String.get (String.length s - 1) s with
  | Some c => Ascii.eqb c "/"
  | None => false
  end.

Definition join (a b : string) : string :=
  if String.prefix "/" b then b
  else if (String.length a =? 0)%nat || ends_with_slash a then (a ++ b)%string
  else (a ++ "/" ++ b)%string.

(** [p[:i+1]] and [p[i+1:]] for [i = p.rfind('/')]. *)
Fixpoint split_last_slash (s : string) : string * string :=
  match s with
  | EmptyString => (EmptyString, EmptyString)
  | String c rest =>
      let (h, t) := split_last_slash rest in
      if (String.length h =? 0)%nat then
        if Ascii.eqb c "/" then (String c EmptyString, t)
        else (EmptyString, String c t)
      else (String c h, t)
  end.

Fixpoint all_slashes (s : string) : bool :=
  match s with
  | EmptyString => true
  | String c rest => Ascii.eqb c "/" && all_slashes rest
  end.

Fixpoint rstrip_slashes (s : string) : string :=
  match s with
  | EmptyString => EmptyString
  | String c rest =>
      let rest' := rstrip_slashes rest in
      if (String.length rest' =? 0)%nat && Ascii.eqb c "/" then EmptyString
      else String c rest'
  end.

Definition dirname (p : string) : string :=
  let h := fst (split_last_slash p) in
  if all_slashes h then h else rstrip_slashes h.

Definition basename (p : string) : string := snd (split_last_slash p).

Definition lower_ascii (c : ascii) : ascii :=
  let n := nat_of_ascii c in
  if (65 <=? n)%nat && (n <=? 90)%nat then ascii_of_nat (n + 32) else c.

Fixpoint lower (s : string) : string :=
  match s with
  | EmptyString => EmptyString
  | String c rest => String (lower_ascii c) (lower rest)
  end.

(** *** Files *)

Fixpoint find {A} (p : path) (l : list (path * A)) : option A :=
  match l with
  | [] => None
  | (k, v) :: rest => if String.eqb k p then Some v else find p rest
  end.

Definition remove_key {A} (p : path) (l : list (path * A)) : list (path * A) :=
  List.filter (fun kv => negb (String.eqb (fst kv) p)) l.

Definition put {A} (p : path) (v : A) (l : list (path * A)) : list (path * A) :=
  match find p l with
  | Some _ => map (fun kv => if String.eqb (fst kv) p then (p, v) else kv) l
  | None => l ++ [(p, v)]
  end.

Definition isfile (p : path) (w : machine) : bool :=
  match find p (fs w) with Some (File _) => true | _ => false end.

Definition isdir (p : path) (w : machine) : bool :=
  match find p (fs w) with Some Dir => true | _ => false end.

Definition exists_ (p : path) (w : machine) : bool :=
  match find p (fs w) with Some _ => true | None => false end.

Definition getsize (p : path) (w : machine) : exn + Z :=
  match find p (fs w) with
  | Some (File c) => inr (Z.of_nat (length c))
  | Some Dir => inr 4096%Z
  | None => inl (Exn OSError "No such file or directory")
  end.

Definition is_child (top : path) (kv : path * node) : bool :=
  String.eqb (join top (basename (fst kv))) (fst kv)
  && negb (String.eqb (fst kv) top)
  && negb (String.eqb (basename (fst kv)) "").

Definition child_dirs (top : path) (w : machine) : list string :=
  map (fun kv => basename (fst kv))
      (List.filter (fun kv => is_child top kv
                              && match snd kv with Dir => true | _ => false end) (fs w)).

Definition child_files (top : path) (w : machine) : list string :=
  map (fun kv => basename (fst kv))
      (List.filter (fun kv => is_child top kv
                              && match snd kv with File _ => true | _ => false end) (fs w)).

Fixpoint walk_from (fuel : nat) (topdown : bool) (top : path) (w : machine)
  : list (path * list string * list string) :=
  match fuel with
  | O => []
  | S fuel' =>
      let dirs := child_dirs top w in
      let files := child_files top w in
      let below := flat_map (fun d => walk_from fuel' topdown (join top d) w) dirs in
      if topdown then (top, dirs, files) :: below
      else below ++ [(top, dirs, files)]
  end.

Definition walk (topdown : bool) (top : path) (w : machine) :=
  if isdir top w then walk_from (S (length (fs w))) topdown top w else [].

Definition held (p : path) (w : machine) : bool :=
  existsb (fun pr => alive pr && existsb (String.eqb p) (open_files pr)) (procs w).

Definition under (top p : path) : bool :=
  String.eqb p top || String.prefix (top ++ "/") p.

Definition has_children (top : path) (w : machine) : bool :=
  existsb (is_child top) (fs w).

Definition with_fs (f : list (path * node)) (w : machine) : machine :=
  Machine f (cursor w) (procs w) (now w) (tick w) (seed w).

Definition with_cursor (c : list (path * nat)) (w : machine) : machine :=
  Machine (fs w) c (procs w) (now w) (tick w) (seed w).

Definition with_procs (ps : list sim_process) (w : machine) : machine :=
  Machine (fs w) (cursor w) ps (now w) (tick w) (seed w).

Definition denied : option exn := Some (Exn OSError "Permission denied").
Definition missing : option exn := Some (Exn OSError "No such file or directory").

Definition rebase (src dst k : path) : path :=
  if String.eqb k src then dst
  else if String.prefix (src ++ "/") k
       then (dst ++ substring (String.length src) (String.length k) k)%string
       else k.

Definition set_alive (pr : process) (b : bool) (w : machine) : machine :=
  with_procs
    (map (fun sp => if (pid (handle sp) =? pid pr)%Z
                    then SimProcess (handle sp) (name sp) (open_files sp) b
                                    (obeys_terminate sp)
                    else sp) (procs w)) w.

Definition find_proc (pr : process) (w : machine) : option sim_process :=
  List.find (fun sp => (pid (handle sp) =? pid pr)%Z) (procs w).

Definition run_syscall (c : syscall) (w : machine) : option exn * machine :=
  match c with
  | SysOpen p ModeA =>
      match find p (fs w) with
      | Some Dir => (denied, w)
      | Some (File content) =>
          if held p w then (denied, w)
          else (None, with_cursor (put p (length content) (cursor w)) w)
      | None => (None, with_cursor (put p 0%nat (cursor w)) (with_fs (put p (File []) (fs w)) w))
      end
  | SysOpen p ModeWB =>
      match find p (fs w) with
      | Some Dir => (denied, w)
      | _ =>
          if held p w then (denied, w)
          else (None, with_cursor (put p 0%nat (cursor w)) (with_fs (put p (File []) (fs w)) w))
      end
  | SysOpen p ModeRPlusB =>
      match find p (fs w) with
      | Some Dir => (denied, w)
      | Some (File _) =>
          if held p w then (denied, w)
          else (None, with_cursor (put p 0%nat (cursor w)) w)
      | None => (missing, w)
      end
  | SysWrite p data =>
      match find p (fs w), find p (cursor w) with
      | Some (File content), Some pos =>
          let content' := take pos content ++ data ++ drop (pos + length data) content in
          (None, with_cursor (put p (pos + length data)%nat (cursor w))
                   (with_fs (put p (File content') (fs w)) w))
      | _, _ => (Some (Exn OSError "Bad file descriptor"), w)
      end
  | SysClose p => (None, with_cursor (remove_key p (cursor w)) w)
  | SysRemove p =>
      match find p (fs w) with
      | Some (File _) =>
          if held p w then (denied, w)
          else (None, with_fs (remove_key p (fs w)) w)
      | Some Dir => (denied, w)
      | None => (missing, w)
      end
  | SysRmdir p =>
      match find p (fs w) with
      | Some Dir =>
          if has_children p w
          then (Some (Exn OSError "Directory not empty"), w)
          else (None, with_fs (remove_key p (fs w)) w)
      | Some (File _) => (Some (Exn OSError "Not a directory"), w)
      | None => (missing, w)
      end
  | SysRename src dst | SysMove src dst =>
      match find src (fs w) with
      | Some _ =>
          if exists_ dst w && negb (String.eqb src dst)
          then (Some (Exn OSError "File exists"), w)
          else (None, with_fs (map (fun kv => (rebase src dst (fst kv), snd kv)) (fs w)) w)
      | None => (missing, w)
      end
  | SysRmtree p =>
      (None, with_fs (List.filter (fun kv => negb (under p (fst kv))) (fs w)) w)
  | SysTerminate pr =>
      match find_proc pr w with
      | Some sp =>
          if alive sp
          then (None, if obeys_terminate sp then set_alive pr false w else w)
          else (Some (Exn NoSuchProcess "process no longer exists"), w)
      | None => (Some (Exn NoSuchProcess "process no longer exists"), w)
      end
  | SysWait pr timeout =>
      match find_proc pr w with
      | Some sp =>
          if alive sp
          then (Some (Exn TimeoutExpired "timeout after 3 seconds"), w)
          else (None, w)
      | None => (None, w)
      end
  | SysKill pr =>
      match find_proc pr w with
      | Some sp =>
          if alive sp then (None, set_alive pr false w)
          else (Some (Exn NoSuchProcess "process no longer exists"), w)
      | None => (Some (Exn NoSuchProcess "process no longer exists"), w)
      end
  end.

(** This machine has no shell: the command is not found. *)
Definition run_shell (cmd : string) (w : machine) : (exn + Z) * machine :=
  (inr 127%Z, w).

Definition clock (w : machine) : Q * machine :=
  (now w, Machine (fs w) (cursor w) (procs w) (Qred (now w + tick w)) (tick w) (seed w)).

Definition next_seed (s : Z) : Z := ((s * 1103515245 + 12345) mod 2147483648)%Z.

Definition with_seed (s : Z) (w : machine) : machine :=
  Machine (fs w) (cursor w) (procs w) (now w) (tick w) s.

Definition next_byte (w : machine) : byte * machine :=
  let s := next_seed (seed w) in
  (match Byte.of_N (Z.to_N ((s / 65536) mod 256)) with
   | Some b => b
   | None => x00
   end, with_seed s w).

Definition next_index (n : nat) (w : machine) : nat * machine :=
  let s := next_seed (seed w) in
  (Z.to_nat ((s / 65536) mod Z.of_nat n), with_seed s w).

Definition process_iter (w : machine) : exn + list process :=
  inr (map handle (List.filter alive (procs w))).

Definition files_of (pr : process) (w : machine) : exn + list path :=
  match find_proc pr w with
  | Some sp =>
      if alive sp then inr (open_files sp)
      else inl (Exn NoSuchProcess "process no longer exists")
  | None => inl (Exn NoSuchProcess "process no longer exists")
  end.

Definition is_running (pr : process) (w : machine) : bool :=
  match find_proc pr w with
  | Some sp => alive sp
  | None => false
  end.

Definition name_of (pr : process) (w : machine) : exn + string :=
  match find_proc pr w with
  | Some sp => inr (name sp)
  | None => inl (Exn NoSuchProcess "process no longer exists")
  end.

#[global] Instance platform : Platform machine := {
  os_path_join := join;
  os_path_dirname := dirname;
  str_lower := lower;
  os_name_is_nt := false;
  os_path_isfile := isfile;
  os_path_isdir := isdir;
  os_path_exists := exists_;
  os_access_rw := exists_;
  os_path_getsize := getsize;
  os_walk := walk;
  psutil_process_iter := process_iter;
  proc_open_files := files_of;
  proc_is_running := is_running;
  proc_name := name_of;
  exec := run_syscall;
  subprocess_run := run_shell;
  time_time := clock;
  random_randint_byte := next_byte;
  random_below := next_index }.

(** A machine with the given files and processes, at some time of day. *)
Definition make (files : list (path * node)) (ps : list sim_process) : machine :=
  Machine files [] ps (1700000000 # 1) (1 # 1000) 42.

End Sim.

(** ** Reading a history *)

(** The kinds of actions, to say which ones a part of the engine performs. *)
Inductive kind :=
| KPoll | KProgress | KFinished | KError | KStatus | KFolderDeleted
| KOpenA | KOpenW | KWrite | KClose | KRemove | KRmdir | KRename | KMove
| KRmtree | KTerminate | KWait | KKill | KShell | KClock | KRand | KRandIdx.

Definition kind_of (a : action) : kind :=
  match a with
  | Emit (Progress _) => KProgress
  | Emit Finished => KFinished
  | Emit (Error _) => KError
  | Emit (FileStatus _) => KStatus
  | Emit (FolderDeleted _) => KFolderDeleted
  | Poll _ => KPoll
  | Sys (SysOpen _ ModeA) _ => KOpenA
  | Sys (SysOpen _ _) _ => KOpenW
  | Sys (SysWrite _ _) _ => KWrite
  | Sys (SysClose _) _ => KClose
  | Sys (SysRemove _) _ => KRemove
  | Sys (SysRmdir _) _ => KRmdir
  | Sys (SysRename _ _) _ => KRename
  | Sys (SysMove _ _) _ => KMove
  | Sys (SysRmtree _) _ => KRmtree
  | Sys (SysTerminate _) _ => KTerminate
  | Sys (SysWait _ _) _ => KWait
  | Sys (SysKill _) _ => KKill
  | Shell _ _ => KShell
  | Clock _ => KClock
  | Rand _ => KRand
  | RandIdx _ _ => KRandIdx
  end.

(** What each part of the engine may do. *)
Definition k_none (k : kind) : bool := false.

Definition k_random (k : kind) : bool :=
  match k with KRand => true | _ => false end.

Definition k_write (k : kind) : bool :=
  match k with
  | KPoll | KOpenW | KWrite | KClose | KClock | KProgress => true
  | _ => false
  end.

Definition k_shred (k : kind) : bool :=
  match k with
  | KRand | KRemove | KError => true
  | _ => k_write k
  end.

Definition k_lock (k : kind) : bool :=
  match k with
  | KOpenA | KClose | KStatus | KTerminate | KWait | KKill => true
  | _ => false
  end.

Definition k_nested (k : kind) : bool :=
  match k with
  | KStatus => true
  | _ => k_shred k
  end.

Definition k_files (k : kind) : bool := k_nested k || k_lock k.

Definition k_folders (k : kind) : bool :=
  match k with
  | KStatus | KRmdir | KFolderDeleted | KRandIdx | KRename | KMove | KRmtree
  | KShell | KError => true
  | _ => false
  end.

Definition k_not_finished (k : kind) : bool :=
  match k with KFinished => false | _ => true end.

Definition sub (f g : kind -> bool) : Prop := forall k, f k = true -> g k = true.

Fixpoint count_polls (l : list action) : nat :=
  match l with
  | [] => 0
  | Poll _ :: rest => S (count_polls rest)
  | _ :: rest => count_polls rest
  end.

(** The chunks written to [f], the bytes drawn and the progress values, in order. *)
Fixpoint writes_of (f : path) (h : list action) : list (list byte) :=
  match h with
  | [] => []
  | Sys (SysWrite p data) None :: rest =>
      if String.eqb p f then data :: writes_of f rest else writes_of f rest
  | _ :: rest => writes_of f rest
  end.

Definition bytes_written (f : path) (h : list action) : nat :=
  list_sum (map (@length byte) (writes_of f h)).

Fixpoint draws_of (h : list action) : list byte :=
  match h with
  | [] => []
  | Rand b :: rest => b :: draws_of rest
  | _ :: rest => draws_of rest
  end.

Fixpoint progress_of (h : list action) : list Z :=
  match h with
  | [] => []
  | Emit (Progress p) :: rest => p :: progress_of rest
  | _ :: rest => progress_of rest
  end.

Section Steps.
Context {W : Type} `{Platform W}.
Variable stop_at : option nat.
Variable P : action -> Prop.

(** [st'] comes after [st]: the log grew by actions that satisfy [P], and the
    reads of the flag among them are numbered from [polls st]. *)
Definition step (st st' : state W) : Prop :=
  exists new,
    log st' = new ++ log st /\
    Forall P new /\
    polls st' = (polls st + count_polls new)%nat /\
    (forall b, In (Poll b) new ->
       exists k, (polls st <= k < polls st')%nat /\ b = running_at stop_at k).

Definition keeps {A} (m : comp (state W) A) : Prop :=
  forall st, step st (snd (m st)).

(** A computation that never executes a [return] statement. *)
Definition no_return {A} (m : comp (state W) A) : Prop :=
  forall st, fst (m st) <> Returned.

End Steps.

Definition uses {W : Type} `{Platform W} (stop_at : option nat) (allowed : kind -> bool)
           {A} (m : comp (state W) A) : Prop :=
  keeps stop_at (fun a => allowed (kind_of a) = true) m.

(** ** Sample machines *)

(** One file of 2048 bytes. *)
Definition machine_one_file : Sim.machine :=
  Sim.make [("f", Sim.File (replicate 2048 x41))] [].

(** One file of two chunks, 131072 bytes. *)
Definition machine_two_chunks : Sim.machine :=
  Sim.make [("f", Sim.File (replicate (128 * 1024) x41))] [].

(** A directory that holds one empty file. *)
Definition machine_empty_file : Sim.machine :=
  Sim.make [("d", Sim.Dir); ("d/e", Sim.File [])] [].

(** A directory with a file and a file beside it, both held open by process
    7, which ends when asked to. *)
Definition machine_held_files : Sim.machine :=
  Sim.make [("d", Sim.Dir); ("d/f", Sim.File (replicate 10 x41));
            ("g", Sim.File (replicate 10 x41))]
           [Sim.SimProcess (Process 7) "holder" ["d/f"; "g"] true true].

(** Process 7 has ended; process 8 ignores requests to end. *)
Definition machine_processes : Sim.machine :=
  Sim.make [("g", Sim.File (replicate 10 x41))]
           [Sim.SimProcess (Process 7) "gone" [] false true;
            Sim.SimProcess (Process 8) "stubborn" ["g"] true false].

(** The actions from the first write on. *)
Fixpoint from_first_write (h : list action) : list action :=
  match h with
  | [] => []
  | Sys (SysWrite _ _) _ :: _ => h
  | _ :: rest => from_first_write rest
  end.

(** ** The other helpers of the module, and the selection of the window *)

(** [string.ascii_letters + string.digits + '_'] *)
Definition FILENAME_CHARS : string :=
  "abcdefghijklmnopqrstuvwxyzABCDEFGHIJKLMNOPQRSTUVWXYZ0123456789_".

Section Helpers.
Context {W : Type} `{Platform W}.
Variable os_path_basename : path -> string.

(** Lines 57-65; [random.choice(chars)] is [chars[i]] for an index [i] below
    the length of [chars], as a pick of [random.choices] is. *)
Definition generate_random_filename (length : nat) : comp (state W) string :=
  try_except (random_choices FILENAME_CHARS length) (fun _ => ret "x").

(** Lines 113-116: the inner loop of [get_all_files]. *)
Fixpoint collect_files (root : path) (filenames : list string) (files : list path)
  : comp (state W) (list path) :=
  match filenames with
  | [] => ret files
  | filename :: rest =>
      let file_path := os_path_join root filename in
      let* valid := is_valid_file_path file_path in
      collect_files root rest (if valid then files ++ [file_path] else files)
  end.

Fixpoint collect_walk (triples : list (path * list string * list string))
         (files : list path) : comp (state W) (list path) :=
  match triples with
  | [] => ret files
  | (root, _, filenames) :: rest =>
      let* files := collect_files root filenames files in
      collect_walk rest files
  end.

(** Lines 108-120. *)
Definition get_all_files (directory : path) : comp (state W) (list path) :=
  try_except
    (let* triples := query (os_walk true directory) in
     collect_walk triples [])
    (fun _ => ret []).

(** Lines 1021-1030 of [MainWindow.add_files]: the loop over the files given,
    with [self.selected_files], [invalid_files] and [added]. *)
Fixpoint add_files_loop (files : list path) (selected_files : list path)
         (invalid_files : list string) (added : bool)
  : comp (state W) (list path * list string * bool) :=
  match files with
  | [] => ret (selected_files, invalid_files, added)
  | file_path :: rest =>
      let* valid := is_valid_file_path file_path in
      if negb valid then
        add_files_loop rest selected_files
                       (invalid_files ++ [os_path_basename file_path]) added
      else if existsb (String.eqb file_path) selected_files then
        add_files_loop rest selected_files invalid_files added
      else
        add_files_loop rest (selected_files ++ [file_path]) invalid_files true
  end.

Definition add_files (files : list path) (selected_files : list path)
  : comp (state W) (list path * list string * bool) :=
  add_files_loop files selected_files [] false.

End Helpers.

(** [l.remove(x)] for an [x] that is in [l]: the first occurrence goes. *)
Fixpoint list_remove (x : path) (l : list path) : list path :=
  match l with
  | [] => []
  | y :: rest => if String.eqb y x then rest else y :: list_remove x rest
  end.

(** Lines 1204-1205 of [MainWindow.remove_file]. *)
Definition remove_file (file_path : path) (selected_files : list path) : list path :=
  if existsb (String.eqb file_path) selected_files
  then list_remove file_path selected_files
  else selected_files.

(** What [is_valid_file_path] answers for [file_path] in the world [w]. *)
Definition valid_in {W : Type} `{Platform W} (w : W) (file_path : path) : bool :=
  if os_path_isfile file_path w then os_access_rw file_path w
  else if os_path_isdir file_path w then os_access_rw file_path w
  else false.

(** The in-memory platform on which the size of a file cannot be read:
    [os.path.getsize] raises [OSError] on every path. *)
Definition platform_unreadable : Platform Sim.machine := {|
  os_path_join := Sim.join;
  os_path_dirname := Sim.dirname;
  str_lower := Sim.lower;
  os_name_is_nt := false;
  os_path_isfile := Sim.isfile;
  os_path_isdir := Sim.isdir;
  os_path_exists := Sim.exists_;
  os_access_rw := Sim.exists_;
  os_path_getsize := fun _ _ => inl (Exn OSError "Permission denied");
  os_walk := Sim.walk;
  psutil_process_iter := Sim.process_iter;
  proc_open_files := Sim.files_of;
  proc_is_running := Sim.is_running;
  proc_name := Sim.name_of;
  exec := Sim.run_syscall;
  subprocess_run := Sim.run_shell;
  time_time := Sim.clock;
  random_randint_byte := Sim.next_byte;
  random_below := Sim.next_index |}.

(** ** Cancellation and the actions that destroy *)

(** Opening a file for overwriting, writing to it, removing it, and ending a
    process. *)
Definition destructive (a : action) : bool :=
  match a with
  | Sys (SysOpen _ ModeWB) _ | Sys (SysOpen _ ModeRPlusB) _
  | Sys (SysWrite _ _) _ | Sys (SysRemove _) _
  | Sys (SysTerminate _) _ | Sys (SysKill _) _ => true
  | _ => false
  end.

(** No read of the flag in [l] found it set. *)
Definition calm (l : list action) : Prop := forall b, In (Poll b) l -> b = true.

(** In the log [l] (newest first), every destructive action comes after
    reads that all found the flag unset. *)
Fixpoint safe (l : list action) : Prop :=
  match l with
  | [] => True
  | a :: rest => (destructive a = true -> calm rest) /\ safe rest
  end.

Fixpoint count_writes (l : list action) : nat :=
  match l with
  | [] => 0
  | Sys (SysWrite _ _) _ :: rest => S (count_writes rest)
  | _ :: rest => count_writes rest
  end.

(** The number of chunks of a file of [file_size] bytes. *)
Definition chunks_of (file_size : Z) : nat :=
  Z.to_nat ((file_size + CHUNK_SIZE - 1) / CHUNK_SIZE).

Section Guard.
Context {W : Type} `{Platform W}.
Variable stop_at : option nat.

(** The log is safe, and if the next read of the flag finds it unset then
    all the reads so far did. *)
Definition ok (st : state W) : Prop :=
  safe (log st) /\ (running_at stop_at (polls st) = true -> calm (log st)).

Definition armed (st : state W) : Prop := ok st /\ calm (log st).

(** [m] keeps a state [ok]. *)
Definition keeps_ok {A} (m : comp (state W) A) : Prop :=
  forall st, ok st -> ok (snd (m st)).

(** From an [armed] state [m] gets to an [ok] one, and to an [armed] one
    when it ends with a value. *)
Definition keeps_armed {A} (m : comp (state W) A) : Prop :=
  forall st, armed st ->
    ok (snd (m st)) /\ (forall a, fst (m st) = Val a -> calm (log (snd (m st)))).

End Guard.

(** Every kind but the reads of the flag; and every kind but those and the
    kinds of the destructive actions. *)
Definition k_no_poll (k : kind) : bool :=
  match k with KPoll => false | _ => true end.

Definition k_harmless (k : kind) : bool :=
  match k with
  | KPoll | KOpenW | KWrite | KRemove | KTerminate | KKill => false
  | _ => true
  end.

(** ** The files and folders a run acts on *)

(** The file that an action opens, writes to, closes or removes. *)
Definition file_of (a : action) : option path :=
  match a with
  | Sys (SysOpen p _) _ | Sys (SysWrite p _) _ | Sys (SysClose p) _
  | Sys (SysRemove p) _ => Some p
  | _ => None
  end.

(** The kinds of the actions that are not on a file. *)
Definition k_no_file (k : kind) : bool :=
  match k with
  | KOpenA | KOpenW | KWrite | KClose | KRemove => false
  | _ => true
  end.

(** [p] is one of the paths given, or a file that a bottom-up walk of one of
    them lists: [os.path.join(root, file)] for a triple of the walk. *)
Definition file_in_selection {W : Type} `{Platform W} (file_paths : list path)
           (p : path) : Prop :=
  In p file_paths \/
  exists q w root dirs files file,
    In q file_paths /\ In (root, dirs, files) (os_walk false q w) /\
    In file files /\ p = os_path_join root file.

(** The actions on files of [a] are on files that satisfy [S]. *)
Definition only_files (S : path -> Prop) (a : action) : Prop :=
  forall p, file_of a = Some p -> S p.

(** [d] is one of the paths given, or a folder that a bottom-up walk of one
    of them lists: [os.path.join(root, dir_name)] for a triple of the walk. *)
Definition folder_in_selection {W : Type} `{Platform W} (file_paths : list path)
           (d : path) : Prop :=
  In d file_paths \/
  exists q w root dirs files dir_name,
    In q file_paths /\ In (root, dirs, files) (os_walk false q w) /\
    In dir_name dirs /\ d = os_path_join root dir_name.

(** The command line that removes the folder [t]. *)
Definition rm_command {W : Type} `{Platform W} (t : path) : string :=
  if os_name_is_nt
  then ("rmdir /s /q " ++ dquote ++ t ++ dquote)%string
  else ("rm -rf " ++ dquote ++ t ++ dquote)%string.

(** A name of eight ASCII letters and digits. *)
Definition is_folder_name (name : string) : Prop :=
  String.length name = 8%nat /\
  forall c, In c (list_ascii_of_string name) -> In c (list_ascii_of_string ALNUM).

(** What an action on a folder may be, after the actions [older].  The folder
    that is removed with [os.rmdir], renamed or moved satisfies [S], and its
    new name is a name of eight letters and digits in its own directory;
    what [shutil.rmtree] or the shell command removes is a path that a
    folder that satisfies [S] has been renamed or moved to, with success,
    before. *)
Definition folder_act {W : Type} `{Platform W} (S : path -> Prop)
           (older : list action) (a : action) : Prop :=
  match a with
  | Sys (SysRmdir d) _ => S d
  | Sys (SysRename d t) _ | Sys (SysMove d t) _ =>
      S d /\
      exists name, is_folder_name name /\ t = os_path_join (os_path_dirname d) name
  | Sys (SysRmtree t) _ =>
      exists d, S d /\
                (In (Sys (SysRename d t) None) older \/ In (Sys (SysMove d t) None) older)
  | Shell cmd _ =>
      exists d t, cmd = rm_command t /\ S d /\
                  (In (Sys (SysRename d t) None) older \/
                   In (Sys (SysMove d t) None) older)
  | _ => True
  end.

(** Every action of the log [l] (newest first) is as [folder_act] says, after
    the actions of [l] that are older. *)
Fixpoint folder_acts {W : Type} `{Platform W} (S : path -> Prop)
         (l : list action) : Prop :=
  match l with
  | [] => True
  | a :: older => folder_act S older a /\ folder_acts S older
  end.

(** [m] adds to the log, and what it adds is as [folder_acts] says. *)
Definition acts_on_folders {W : Type} `{Platform W} (S : path -> Prop) {A}
           (m : comp (state W) A) : Prop :=
  forall st, exists new, log (snd (m st)) = new ++ log st /\ folder_acts S new.

(** The kinds of the actions that are not on a folder. *)
Definition k_no_folder (k : kind) : bool :=
  match k with
  | KRmdir | KRename | KMove | KRmtree | KShell => false
  | _ => true
  end.

(** ** The chunks of a pass *)

(** The number of times a file is opened for overwriting in [l]. *)
Fixpoint count_opens (l : list action) : nat :=
  match l with
  | [] => 0
  | Sys (SysOpen _ ModeA) _ :: rest => count_opens rest
  | Sys (SysOpen _ _) _ :: rest => S (count_opens rest)
  | _ :: rest => count_opens rest
  end.

(** The log [l] (newest first) of the writing of [passes] to [f], after [k]
    earlier openings, draws nothing, and every [write] of it that comes
    after the opening number [j] (counted from 0) is on [f] and carries
    [generate_pattern] of the pass number [j] for a size from 1 to
    [CHUNK_SIZE]. *)
Fixpoint by_pass (f : path) (passes : list (list byte)) (k : nat)
         (l : list action) : Prop :=
  match l with
  | [] => True
  | a :: older =>
      match a with
      | Rand _ => False
      | Sys (SysWrite p data) _ =>
          p = f /\
          exists j pattern size,
            (k + count_opens older)%nat = S j /\ passes !! j = Some pattern /\
            (0 < size <= CHUNK_SIZE)%Z /\ data = generate_pattern pattern size
      | _ => True
      end /\ by_pass f passes k older
  end.

(** [m] keeps [by_pass] from [k] openings on, and opens [c] times when it
    ends with a value. *)
Definition writes_by_pass {W : Type} `{Platform W} {A} (f : path)
           (passes : list (list byte)) (k : nat) (m : comp (state W) A) (c : nat) : Prop :=
  forall st, exists new,
    log (snd (m st)) = new ++ log st /\ by_pass f passes k new /\
    (forall a, fst (m st) = Val a -> count_opens new = c).

(** The kinds of the actions that neither draw a byte nor open a file for
    overwriting nor write. *)
Definition k_quiet (k : kind) : bool :=
  match k with
  | KOpenW | KWrite | KRand => false
  | _ => true
  end.

(** [population[i]], the character that a pick [i] of [random.choices] gives. *)
Definition pick (population : string) (i : nat) : ascii :=
  match String.get i population with
  | Some c => c
  | None => "x"%char
  end.

(** The name that the picks [idxs] of [random.choices] give. *)
Definition name_of_picks (population : string) (idxs : list nat) : string :=
  string_of_list_ascii (map (pick population) idxs).


(** * Facts *)

(** ** Steps compose *)

Section StepFacts.
Context {W : Type} `{Platform W}.
Variable stop_at : option nat.
Variable P : action -> Prop.

Lemma count_polls_app (l1 l2 : list action) :
  count_polls (l1 ++ l2) = (count_polls l1 + count_polls l2)%nat.
Proof.
  induction l1 as [|a l1 IH]; simpl; [reflexivity|].
  destruct a; simpl; rewrite IH; reflexivity.
Qed.

Lemma step_refl (st : state W) : step stop_at P st st.
Proof.
  exists []. simpl. repeat split; auto.
  intros b [].
Qed.

Lemma step_trans (a b c : state W) :
  step stop_at P a b -> step stop_at P b c -> step stop_at P a c.
Proof.
  intros (n1 & L1 & F1 & C1 & K1) (n2 & L2 & F2 & C2 & K2).
  exists (n2 ++ n1). repeat split.
  - rewrite L2, L1. apply List.app_assoc.
  - apply Forall_app; auto.
  - rewrite count_polls_app. lia.
  - intros x Hx. apply in_app_or in Hx. destruct Hx as [Hx|Hx].
    + destruct (K2 x Hx) as (k & Hk & ->). exists k. split; [lia|reflexivity].
    + destruct (K1 x Hx) as (k & Hk & ->). exists k. split; [lia|reflexivity].
Qed.

(** A state that differs in neither log nor count of reads. *)
Lemma step_same (st st' : state W) :
  log st' = log st -> polls st' = polls st -> step stop_at P st st'.
Proof.
  intros L C. exists []. simpl. repeat split; auto; [lia|].
  intros b [].
Qed.

(** One more action that is not a read of the flag. *)
Lemma step_one (st st' : state W) (a : action) :
  log st' = a :: log st -> polls st' = polls st ->
  P a -> count_polls [a] = 0%nat -> step stop_at P st st'.
Proof.
  intros L C Pa Na. exists [a]. repeat split; auto.
  - rewrite Na. lia.
  - intros b [Hb|[]]. subst a. discriminate.
Qed.

Lemma keeps_ret {A} (a : A) : keeps stop_at P (ret a : comp (state W) A).
Proof. intros st. apply step_refl. Qed.

Lemma keeps_raise {A} (e : exn) : keeps stop_at P (raise e : comp (state W) A).
Proof. intros st. apply step_refl. Qed.

Lemma keeps_return {A} : keeps stop_at P (return_ : comp (state W) A).
Proof. intros st. apply step_refl. Qed.

Lemma keeps_bind {A B} (m : comp (state W) A) (f : A -> comp (state W) B) :
  keeps stop_at P m -> (forall a, keeps stop_at P (f a)) -> keeps stop_at P (bind m f).
Proof.
  intros Hm Hf st. unfold bind. specialize (Hm st).
  destruct (m st) as [[a|e|] s1]; simpl in *; auto.
  eapply step_trans; [exact Hm|apply Hf].
Qed.

Lemma keeps_try {A} (m : comp (state W) A) (h : exn -> comp (state W) A) :
  keeps stop_at P m -> (forall e, keeps stop_at P (h e)) ->
  keeps stop_at P (try_except m h).
Proof.
  intros Hm Hh st. unfold try_except. specialize (Hm st).
  destruct (m st) as [[a|e|] s1]; simpl in *; auto.
  eapply step_trans; [exact Hm|apply Hh].
Qed.

Lemma keeps_finally {A} (m : comp (state W) A) (c : comp (state W) unit) :
  keeps stop_at P m -> keeps stop_at P c -> keeps stop_at P (finally m c).
Proof.
  intros Hm Hc st. unfold finally. specialize (Hm st).
  destruct (m st) as [o s1]. simpl in Hm. specialize (Hc s1).
  destruct (c s1) as [[a|e|] s2]; simpl in *; eapply step_trans; eauto.
Qed.

Lemma keeps_modify (f : state W -> state W) :
  (forall st, log (f st) = log st) -> (forall st, polls (f st) = polls st) ->
  keeps stop_at P (modify f).
Proof. intros L C st. apply step_same; simpl; auto. Qed.

Lemma keeps_query {A} (f : W -> A) : keeps stop_at P (query f).
Proof. intros st. apply step_refl. Qed.

Lemma keeps_query_exn {A} (f : W -> exn + A) : keeps stop_at P (query_exn f).
Proof.
  intros st. unfold query_exn. destruct (f (world st)); apply step_refl.
Qed.

Lemma keeps_emit (s : signal) : P (Emit s) -> keeps stop_at P (emit (W:=W) s).
Proof.
  intros Ps st. apply step_one with (a := Emit s); auto.
Qed.

Lemma keeps_poll : (forall b, P (Poll b)) -> keeps stop_at P (poll (W:=W) stop_at).
Proof.
  intros Pp st. unfold poll. cbn [snd].
  exists [Poll (running_at stop_at (polls st))]. repeat split.
  - constructor; auto.
  - simpl. lia.
  - intros b [Hb|[]]. inversion Hb; subst. exists (polls st). simpl. split; [lia|reflexivity].
Qed.

Lemma keeps_sys (c : syscall) : (forall r, P (Sys c r)) -> keeps stop_at P (sys (W:=W) c).
Proof.
  intros Pc st. unfold sys. destruct (exec c (world st)) as [r w].
  destruct r; cbn [snd]; (eapply step_one; [reflexivity|reflexivity|apply Pc|reflexivity]).
Qed.

Lemma keeps_shell (cmd : string) : (forall r, P (Shell cmd r)) -> keeps stop_at P (shell (W:=W) cmd).
Proof.
  intros Pc st. unfold shell. destruct (subprocess_run cmd (world st)) as [r w].
  destruct r; cbn [snd]; (eapply step_one; [reflexivity|reflexivity|apply Pc|reflexivity]).
Qed.

Lemma keeps_time : (forall t, P (Clock t)) -> keeps stop_at P (time (W:=W)).
Proof.
  intros Pc st. unfold time. destruct (time_time (world st)) as [t w].
  cbn [snd]. apply step_one with (a := Clock t); auto.
Qed.

Lemma keeps_randint_byte : (forall b, P (Rand b)) -> keeps stop_at P (randint_byte (W:=W)).
Proof.
  intros Pc st. unfold randint_byte. destruct (random_randint_byte (world st)) as [b w].
  cbn [snd]. apply step_one with (a := Rand b); auto.
Qed.

Lemma keeps_rand_below (n : nat) : (forall i, P (RandIdx n i)) -> keeps stop_at P (rand_below (W:=W) n).
Proof.
  intros Pc st. unfold rand_below. destruct (random_below n (world st)) as [i w].
  cbn [snd]. apply step_one with (a := RandIdx n i); auto.
Qed.

Lemma keeps_should_update_progress (t : Q) : keeps stop_at P (should_update_progress (W:=W) t).
Proof.
  intros st. unfold should_update_progress.
  destruct (Qle_bool _ _); cbn [snd]; apply step_same; reflexivity.
Qed.

Lemma keeps_total_percent : keeps stop_at P (total_percent (W:=W)).
Proof.
  intros st. unfold total_percent.
  destruct (total_size st =? 0)%Z; apply step_refl.
Qed.

End StepFacts.

Lemma step_mono {W : Type} `{Platform W} (stop_at : option nat) (P Q : action -> Prop)
      (st st' : state W) :
  (forall a, P a -> Q a) -> step stop_at P st st' -> step stop_at Q st st'.
Proof.
  intros PQ (new & L & F & C & K). exists new. repeat split; auto.
  eapply Forall_impl; eauto.
Qed.

Lemma uses_sub {W : Type} `{Platform W} (stop_at : option nat) (f g : kind -> bool)
      {A} (m : comp (state W) A) :
  sub f g -> uses stop_at f m -> uses stop_at g m.
Proof.
  intros Hs Hm st. eapply step_mono; [|apply Hm]. intros a. apply Hs.
Qed.

(** Splits a goal [keeps _ _ m] along the structure of [m]; what is left are
    the recursive calls, the calls of other parts, and the actions to allow. *)
Ltac keep_step :=
  lazymatch goal with
  | |- keeps _ _ (ret _) => apply keeps_ret
  | |- keeps _ _ (raise _) => apply keeps_raise
  | |- keeps _ _ return_ => apply keeps_return
  | |- keeps _ _ (query _) => apply keeps_query
  | |- keeps _ _ (query_exn _) => apply keeps_query_exn
  | |- keeps _ _ (should_update_progress _) => apply keeps_should_update_progress
  | |- keeps _ _ total_percent => apply keeps_total_percent
  | |- keeps _ _ (modify _) => apply keeps_modify; [reflexivity | reflexivity]
  | |- keeps _ _ (bind _ _) => apply keeps_bind; [| intros ?]
  | |- keeps _ _ (try_except _ _) => apply keeps_try; [| intros ?]
  | |- keeps _ _ (finally _ _) => apply keeps_finally
  | |- keeps _ _ (emit _) => apply keeps_emit
  | |- keeps _ _ (poll _) => apply keeps_poll; intros ?
  | |- keeps _ _ (sys _) => apply keeps_sys; intros ?
  | |- keeps _ _ (shell _) => apply keeps_shell; intros ?
  | |- keeps _ _ time => apply keeps_time; intros ?
  | |- keeps _ _ randint_byte => apply keeps_randint_byte; intros ?
  | |- keeps _ _ (rand_below _) => apply keeps_rand_below; intros ?
  | |- keeps _ _ (if ?b then _ else _) => destruct b
  | |- keeps _ _ (match ?x with _ => _ end) => destruct x
  | |- keeps _ _ (let _ := _ in _) => cbv zeta
  end.

Ltac keep := repeat keep_step.

(** ** What each part of the engine does *)

Ltac allow Hs :=
  apply Hs;
  repeat match goal with
         | |- context [if ?b then _ else _] => destruct b
         end;
  reflexivity.

Ltac sub_of Hs :=
  let k := fresh "k" in
  let Hk := fresh "Hk" in
  intros k Hk; apply Hs; destruct k; simpl in *; first [reflexivity | discriminate].

Section Footprints.
Context {W : Type} `{Platform W}.
Variable method : string.
Variable stop_at : option nat.
Variable allowed : kind -> bool.

Lemma random_bytes_uses (n : nat) :
  sub k_random allowed -> uses stop_at allowed (random_bytes (W:=W) n).
Proof.
  intros Hs. unfold uses. induction n as [|n IH]; simpl; keep; auto.
  all: try allow Hs.
Qed.

Lemma times_uses {A} (n : nat) (m : comp (state W) A) :
  uses stop_at allowed m -> uses stop_at allowed (times n m).
Proof.
  intros Hm. unfold uses in *. induction n as [|n IH]; simpl; keep; auto.
Qed.

Lemma get_passes_uses :
  sub k_random allowed -> uses stop_at allowed (get_passes (W:=W) method).
Proof.
  intros Hs. unfold get_passes, random_pattern.
  repeat match goal with
         | |- context [String.eqb ?a ?b] => destruct (String.eqb a b)
         end;
    unfold uses; keep;
    try (apply times_uses); try (apply random_bytes_uses; assumption).
Qed.

Lemma write_chunks_uses (fuel : nat) (f : path) (pattern : list byte) (file_size written : Z) :
  sub k_write allowed ->
  uses stop_at allowed (write_chunks stop_at fuel f pattern file_size written).
Proof.
  intros Hs. unfold uses. revert written.
  induction fuel as [|fuel IH]; intros written; simpl;
    destruct (written <? file_size)%Z; keep; try apply IH; try allow Hs.
Qed.

Lemma write_passes_uses (f : path) (file_size : Z) (i : nat) (passes : list (list byte)) :
  sub k_write allowed ->
  uses stop_at allowed (write_passes stop_at f file_size i passes).
Proof.
  intros Hs. unfold uses. revert i.
  induction passes as [|pattern rest IH]; intros i; simpl; [keep|].
  unfold with_open. keep; try apply IH;
    try (apply write_chunks_uses; assumption); try allow Hs.
Qed.

Lemma shred_file_uses (f : path) :
  sub k_shred allowed -> uses stop_at allowed (shred_file method stop_at f).
Proof.
  intros Hs. unfold uses, shred_file. keep;
    try (apply get_passes_uses; sub_of Hs);
    try (apply write_passes_uses; sub_of Hs);
    try allow Hs.
Qed.

Lemma is_file_in_use_uses (f : path) :
  sub k_lock allowed -> uses stop_at allowed (is_file_in_use (W:=W) f).
Proof.
  intros Hs. unfold uses, is_file_in_use. keep; try allow Hs.
Qed.

Lemma scan_processes_uses (procs : list process) (f : path) (acc : list process) :
  uses stop_at allowed (scan_processes (W:=W) procs f acc).
Proof.
  unfold uses. revert acc. induction procs as [|proc rest IH]; intros acc; simpl; [keep|].
  intros st. destruct (proc_open_files proc (world st)) as [e|files].
  - destruct (exn_class_of e); try apply IH; apply step_refl.
  - apply IH.
Qed.

Lemma get_processes_using_file_uses (f : path) :
  uses stop_at allowed (get_processes_using_file (W:=W) f).
Proof.
  unfold uses, get_processes_using_file. keep. apply scan_processes_uses.
Qed.

Lemma terminate_process_uses (proc : process) :
  sub k_lock allowed -> uses stop_at allowed (terminate_process (W:=W) proc).
Proof.
  intros Hs. unfold uses, terminate_process. keep; try allow Hs.
Qed.

Lemma terminate_all_uses (processes : list process) :
  sub k_lock allowed -> uses stop_at allowed (terminate_all (W:=W) processes).
Proof.
  intros Hs. unfold uses.
  induction processes as [|proc rest IH]; simpl; keep; auto.
  apply terminate_process_uses; assumption.
Qed.

Lemma resolve_locks_uses (f : path) :
  sub k_lock allowed -> uses stop_at allowed (resolve_locks (W:=W) f).
Proof.
  intros Hs. unfold uses, resolve_locks. keep;
    try (apply is_file_in_use_uses; assumption);
    try apply get_processes_using_file_uses;
    try (apply terminate_all_uses; assumption).
  all: try allow Hs.
Qed.

Lemma shred_files_in_uses (root : path) (files : list string) :
  sub k_nested allowed ->
  uses stop_at allowed (shred_files_in method stop_at root files).
Proof.
  intros Hs. unfold uses.
  induction files as [|file rest IH]; simpl; keep; auto;
    unfold is_valid_file_path; keep;
    try (apply shred_file_uses; sub_of Hs).
  all: try allow Hs.
Qed.

Lemma record_subfolders_uses (root : path) (dirs : list string) (folders : gset path) :
  uses stop_at allowed (record_subfolders (W:=W) root dirs folders).
Proof.
  unfold uses. revert folders.
  induction dirs as [|d rest IH]; intros folders; simpl; keep; auto.
Qed.

Lemma shred_walk_uses (triples : list (path * list string * list string))
      (folders : gset path) :
  sub k_nested allowed ->
  uses stop_at allowed (shred_walk method stop_at triples folders).
Proof.
  intros Hs. unfold uses. revert folders.
  induction triples as [|[[root dirs] files] rest IH]; intros folders; simpl; keep; auto.
  - apply shred_files_in_uses; assumption.
  - apply record_subfolders_uses.
Qed.

Lemma process_paths_uses (idx : nat) (file_paths : list path) (folders : gset path) :
  sub k_files allowed ->
  uses stop_at allowed (process_paths method stop_at idx file_paths folders).
Proof.
  intros Hs. unfold uses. revert idx folders.
  induction file_paths as [|file_path rest IH]; intros idx folders; simpl; keep; auto;
    unfold is_valid_file_path; keep;
    try (apply shred_walk_uses; sub_of Hs);
    try (apply resolve_locks_uses; sub_of Hs);
    try (apply shred_file_uses; sub_of Hs);
    try allow Hs.
Qed.

Lemma random_choices_uses (population : string) (k : nat) :
  sub k_folders allowed -> uses stop_at allowed (random_choices (W:=W) population k).
Proof.
  intros Hs. unfold uses. induction k as [|k IH]; simpl; keep; auto.
  all: try allow Hs.
Qed.

Lemma remove_folder_uses (folder : path) :
  sub k_folders allowed -> uses stop_at allowed (remove_folder (W:=W) folder).
Proof.
  intros Hs. unfold uses, remove_folder. keep;
    try (apply random_choices_uses; assumption);
    try allow Hs.
Qed.

Lemma remove_folders_uses (folders : list path) :
  sub k_folders allowed -> uses stop_at allowed (remove_folders (W:=W) folders).
Proof.
  intros Hs. unfold uses. induction folders as [|folder rest IH]; simpl; keep; auto.
  apply remove_folder_uses; assumption.
Qed.

Lemma size_files_uses (dirpath : path) (filenames : list string) :
  uses stop_at allowed (size_files (W:=W) dirpath filenames).
Proof.
  unfold uses. induction filenames as [|f rest IH]; simpl; keep; auto;
    unfold add_total_size; keep.
Qed.

Lemma size_walk_uses (triples : list (path * list string * list string)) :
  uses stop_at allowed (size_walk (W:=W) triples).
Proof.
  unfold uses. induction triples as [|[[dirpath dirs] filenames] rest IH]; simpl; keep; auto.
  apply size_files_uses.
Qed.

Lemma size_paths_uses (file_paths : list path) :
  uses stop_at allowed (size_paths (W:=W) file_paths).
Proof.
  unfold uses. induction file_paths as [|p rest IH]; simpl; keep; auto;
    unfold add_total_size; keep.
  apply size_walk_uses.
Qed.

Lemma sizing_uses (file_paths : list path) :
  uses stop_at allowed (sizing (W:=W) file_paths).
Proof.
  unfold uses, sizing. keep. apply size_paths_uses.
Qed.

End Footprints.

(** ** The pass list *)

Section Passes.
Context {W : Type} `{Platform W}.

Lemma bind_val {A B} (m : comp (state W) A) (f : A -> comp (state W) B)
      (st st' : state W) (a : A) :
  m st = (Val a, st') -> bind m f st = f a st'.
Proof. intros E. unfold bind. rewrite E. reflexivity. Qed.

Lemma random_bytes_val (n : nat) (st : state W) :
  exists bs st', random_bytes n st = (Val bs, st') /\ length bs = n.
Proof.
  revert st. induction n as [|n IH]; intros st.
  - exists [], st. split; reflexivity.
  - cbn [random_bytes]. unfold bind at 1. unfold randint_byte at 1.
    destruct (random_randint_byte (world st)) as [b w].
    destruct (IH (record (Rand b) (with_world w st))) as (bs & st' & E & L).
    rewrite (bind_val _ _ _ _ _ E). exists (b :: bs), st'. split; [reflexivity|].
    simpl. rewrite L. reflexivity.
Qed.

Lemma times_random_pattern_val (n : nat) (st : state W) :
  exists rs st', times n random_pattern st = (Val rs, st') /\
                 length rs = n /\ Forall (fun r => length r = 1024%nat) rs.
Proof.
  revert st. induction n as [|n IH]; intros st.
  - exists [], st. repeat split; auto.
  - cbn [times]. unfold random_pattern at 1.
    destruct (random_bytes_val 1024 st) as (r & st1 & E1 & L1).
    rewrite (bind_val _ _ _ _ _ E1).
    destruct (IH st1) as (rs & st2 & E2 & L2 & F2).
    rewrite (bind_val _ _ _ _ _ E2).
    exists (r :: rs), st2. repeat split; auto.
    simpl. rewrite L2. reflexivity.
Qed.

Lemma fixed_length (b : byte) : length (fixed b) = 1024%nat.
Proof. unfold fixed. apply length_replicate. Qed.

Lemma Forall_fixed (bs : list byte) :
  Forall (fun p => length p = 1024%nat) (map fixed bs).
Proof.
  induction bs; simpl; constructor; auto using fixed_length.
Qed.

Lemma Forall_replicate_fixed (n : nat) (b : byte) :
  Forall (fun p => length p = 1024%nat) (replicate n (fixed b)).
Proof.
  induction n; simpl; constructor; auto using fixed_length.
Qed.

(** The list [get_passes] builds for the Gutmann method. *)
Lemma get_passes_gutmann (st : state W) :
  exists rs rs' st',
    get_passes METHOD_GUTMANN st =
      (Val (replicate 4 (fixed x00) ++ [fixed x55] ++ [fixed xaa] ++ rs
            ++ map fixed special_patterns ++ rs' ++ replicate 4 (fixed x00)), st') /\
    length rs = 4%nat /\ length rs' = 6%nat /\
    Forall (fun r => length r = 1024%nat) rs /\
    Forall (fun r => length r = 1024%nat) rs'.
Proof.
  unfold get_passes.
  replace (String.eqb METHOD_GUTMANN METHOD_DOD3) with false by (vm_compute; reflexivity).
  replace (String.eqb METHOD_GUTMANN METHOD_DOD7) with false by (vm_compute; reflexivity).
  replace (String.eqb METHOD_GUTMANN METHOD_GUTMANN) with true by (vm_compute; reflexivity).
  cbv zeta.
  destruct (times_random_pattern_val 4 st) as (rs & st1 & E1 & L1 & F1).
  rewrite (bind_val _ _ _ _ _ E1).
  destruct (times_random_pattern_val 6 st1) as (rs' & st2 & E2 & L2 & F2).
  rewrite (bind_val _ _ _ _ _ E2).
  exists rs, rs', st2. split; [|auto].
  unfold ret. f_equal. f_equal.
  repeat rewrite <- List.app_assoc. reflexivity.
Qed.

(** Whatever the method, [get_passes] returns, and every pattern of the list
    is 1024 bytes long. *)
Lemma get_passes_val (method : string) (st : state W) :
  exists passes st',
    get_passes method st = (Val passes, st') /\
    Forall (fun p => length p = 1024%nat) passes.
Proof.
  unfold get_passes.
  destruct (String.eqb method METHOD_DOD3).
  { unfold random_pattern.
    destruct (random_bytes_val 1024 st) as (r & st1 & E1 & L1).
    rewrite (bind_val _ _ _ _ _ E1). eexists _, _. split; [reflexivity|].
    repeat (constructor; [first [apply fixed_length|assumption]|]). constructor. }
  destruct (String.eqb method METHOD_DOD7).
  { unfold random_pattern.
    destruct (random_bytes_val 1024 st) as (r1 & st1 & E1 & L1).
    rewrite (bind_val _ _ _ _ _ E1).
    destruct (random_bytes_val 1024 st1) as (r2 & st2 & E2 & L2).
    rewrite (bind_val _ _ _ _ _ E2). eexists _, _. split; [reflexivity|].
    repeat (constructor; [first [apply fixed_length|assumption]|]). constructor. }
  destruct (String.eqb method METHOD_GUTMANN).
  { cbv zeta.
    destruct (times_random_pattern_val 4 st) as (rs & st1 & E1 & L1 & F1).
    rewrite (bind_val _ _ _ _ _ E1).
    destruct (times_random_pattern_val 6 st1) as (rs' & st2 & E2 & L2 & F2).
    rewrite (bind_val _ _ _ _ _ E2). eexists _, _. split; [reflexivity|].
    repeat (apply Forall_app; split);
      auto using Forall_fixed, Forall_replicate_fixed.
    all: try (repeat constructor; apply fixed_length). }
  destruct (String.eqb method METHOD_VSITR).
  { unfold random_pattern.
    destruct (random_bytes_val 1024 st) as (r1 & st1 & E1 & L1).
    rewrite (bind_val _ _ _ _ _ E1).
    destruct (random_bytes_val 1024 st1) as (r2 & st2 & E2 & L2).
    rewrite (bind_val _ _ _ _ _ E2). eexists _, _. split; [reflexivity|].
    repeat (constructor; [first [apply fixed_length|assumption]|]). constructor. }
  eexists _, _. split; [reflexivity|].
  constructor; [apply fixed_length|constructor].
Qed.

(** [pattern[:size]] of a 1024-byte pattern has [min size 1024] bytes. *)
Lemma generate_pattern_length (pattern : list byte) (size : Z) :
  length pattern = 1024%nat -> (0 <= size)%Z ->
  length (generate_pattern pattern size) = Z.to_nat (Z.min size 1024).
Proof.
  intros L Hs. unfold generate_pattern.
  destruct (Z.ltb_spec size 0); [lia|].
  rewrite length_take, L. lia.
Qed.

End Passes.

(** C1, at the nominal chunk size: whatever the method, [generate_pattern]
    gives for every pattern of [get_passes] and a chunk of [CHUNK_SIZE]
    (65536) bytes a chunk of 1024 bytes, the length of the pattern, and not
    the 65536 bytes asked for. *)
Theorem C1_nominal_chunk_is_cut_to_1024 {W : Type} `{Platform W}
        (method : string) (st : state W) :
  match get_passes method st with
  | (Val passes, _) =>
      Forall (fun pattern => length (generate_pattern pattern CHUNK_SIZE) = 1024%nat
                             /\ Z.of_nat 1024 <> CHUNK_SIZE) passes
  | _ => False
  end.
Proof.
  destruct (get_passes_val method st) as (passes & st' & E & F).
  rewrite E. eapply Forall_impl; [exact F|].
  intros pattern L. cbv beta in *. split.
  - rewrite generate_pattern_length; [|assumption|unfold CHUNK_SIZE; lia].
    unfold CHUNK_SIZE. lia.
  - unfold CHUNK_SIZE. lia.
Qed.

(** C4, for the Gutmann method: [get_passes] returns 140 patterns, one for
    each of the 120 entries of [special_patterns], and not 35. *)
Theorem C4_gutmann_has_140_passes {W : Type} `{Platform W} (st : state W) :
  match get_passes METHOD_GUTMANN st with
  | (Val passes, _) =>
      length passes = 140%nat /\
      length special_patterns = 120%nat /\
      firstn 120 (skipn 10 passes) = map fixed special_patterns
  | _ => False
  end.
Proof.
  destruct (get_passes_gutmann st) as (rs & rs' & st' & E & L & L' & _ & _).
  rewrite E. split; [|split].
  - repeat rewrite length_app. rewrite !length_replicate, length_map, L, L'.
    reflexivity.
  - reflexivity.
  - destruct rs as [|a [|b [|c [|d [|]]]]]; try discriminate.
    change (replicate 4 (fixed x00)) with [fixed x00; fixed x00; fixed x00; fixed x00].
    cbn [app skipn].
    apply take_app_length'. rewrite length_map. reflexivity.
Qed.

(** ** The chunk loop *)

Section Chunks.
Context {W : Type} `{Platform W}.
Variable stop_at : option nat.

Lemma bind_ext {A B} (m : comp (state W) A) (f g : A -> comp (state W) B) (st : state W) :
  (forall a st', f a st' = g a st') -> bind m f st = bind m g st.
Proof.
  intros E. unfold bind. destruct (m st) as [[a|e|] st']; auto.
Qed.

(** The fuel of [write_chunks] never runs out: with [n] turns for at most
    [n * CHUNK_SIZE] bytes left, more fuel changes nothing. *)
Lemma write_chunks_fuel (n m : nat) (f : path) (pattern : list byte)
      (file_size written : Z) (st : state W) :
  (file_size - written <= Z.of_nat n * CHUNK_SIZE)%Z -> (n <= m)%nat ->
  write_chunks stop_at n f pattern file_size written st
  = write_chunks stop_at m f pattern file_size written st.
Proof.
  revert m written st. induction n as [|n IH]; intros m written st Hleft Hnm.
  - destruct m; simpl; destruct (Z.ltb_spec written file_size); auto.
    unfold CHUNK_SIZE in Hleft. lia.
  - destruct m as [|m]; [lia|]. simpl.
    destruct (Z.ltb_spec written file_size); auto.
    apply bind_ext. intros running st1. destruct (negb running); auto.
    repeat (apply bind_ext; intros ? ?).
    apply IH; [|lia]. unfold CHUNK_SIZE in *. lia.
Qed.

Lemma chunks_fuel_enough (file_size : Z) :
  (file_size - 0 <= Z.of_nat (chunks_fuel file_size) * CHUNK_SIZE)%Z.
Proof.
  unfold chunks_fuel, CHUNK_SIZE.
  destruct (Z.le_gt_cases 0 file_size) as [Hpos|Hneg].
  - rewrite Nat2Z.inj_succ, Z2Nat.id by (apply Z.div_pos; lia).
    pose proof (Z.mod_pos_bound file_size (64 * 1024) ltac:(lia)).
    pose proof (Z.div_mod file_size (64 * 1024) ltac:(lia)). lia.
  - lia.
Qed.

(** The loop as [write_passes] calls it is the loop with any larger fuel. *)
Lemma write_chunks_total (k : nat) (f : path) (pattern : list byte)
      (file_size : Z) (st : state W) :
  write_chunks stop_at (chunks_fuel file_size) f pattern file_size 0 st
  = write_chunks stop_at (chunks_fuel file_size + k) f pattern file_size 0 st.
Proof.
  apply write_chunks_fuel; [apply chunks_fuel_enough|lia].
Qed.

End Chunks.

(** ** The chunks of a pass *)

Section ByPass.
Context {W : Type} `{Platform W}.
Variable stop_at : option nat.
Variable f : path.
Variable passes : list (list byte).

Lemma count_opens_app (l1 l2 : list action) :
  count_opens (l1 ++ l2) = (count_opens l1 + count_opens l2)%nat.
Proof.
  induction l1 as [|a l1 IH]; [reflexivity|].
  destruct a as [s| |c r| | | |]; cbn; try exact IH.
  destruct c as [p m| | | | | | | | | |]; try exact IH.
  destruct m; cbn; rewrite ?IH; reflexivity.
Qed.

Lemma count_opens_rev (l : list action) : count_opens (rev l) = count_opens l.
Proof.
  induction l as [|a l IH]; [reflexivity|].
  cbn [rev]. rewrite count_opens_app, IH.
  change (a :: l) with ([a] ++ l). rewrite count_opens_app. lia.
Qed.

Lemma by_pass_app (k : nat) (l1 l2 : list action) :
  by_pass f passes (k + count_opens l2) l1 -> by_pass f passes k l2 ->
  by_pass f passes k (l1 ++ l2).
Proof.
  intros H1 H2. induction l1 as [|a l1 IH]; [exact H2|].
  cbn [app by_pass] in *. destruct H1 as [Ha H1]. split; [|exact (IH H1)].
  destruct a as [s| |c r| | | |]; try exact Ha.
  destruct c as [p m|p data| | | | | | | | |]; try exact Ha.
  destruct Ha as (Hp & j & pattern & size & Hj & Hrest). split; [exact Hp|].
  exists j, pattern, size. split; [|exact Hrest].
  rewrite count_opens_app. lia.
Qed.

Lemma by_pass_quiet (k : nat) (l : list action) :
  Forall (fun a => k_quiet (kind_of a) = true) l ->
  count_opens l = 0%nat /\ by_pass f passes k l.
Proof.
  induction 1 as [|a l Ha F [IHc IHb]]; [split; [reflexivity|exact I]|].
  destruct a as [s| |c r| | | |]; cbn in *; try (split; [exact IHc|split; [exact I|exact IHb]]);
    try discriminate Ha.
  destruct c as [p m|p data| | | | | | | | |]; cbn in *;
    try (split; [exact IHc|split; [exact I|exact IHb]]); try discriminate Ha.
  destruct m; cbn in *; try discriminate Ha. split; [exact IHc|split; [exact I|exact IHb]].
Qed.

Lemma writes_by_pass_uses (allowed : kind -> bool) {A} (m : comp (state W) A) (k : nat) :
  uses stop_at allowed m -> sub allowed k_quiet -> writes_by_pass f passes k m 0.
Proof.
  intros Hu Hs st. destruct (Hu st) as (new & L & F & _).
  assert (F' : Forall (fun a => k_quiet (kind_of a) = true) new).
  { eapply Forall_impl; [exact F|]. intros a. apply Hs. }
  destruct (by_pass_quiet k new F') as [Hc Hb].
  exists new. split; [exact L|]. split; [exact Hb|]. intros _ _. exact Hc.
Qed.

Lemma writes_by_pass_bind {A B} (k c1 c2 : nat) (m : comp (state W) A)
      (g : A -> comp (state W) B) :
  writes_by_pass f passes k m c1 ->
  (forall a, writes_by_pass f passes (k + c1) (g a) c2) ->
  writes_by_pass f passes k (bind m g) (c1 + c2).
Proof.
  intros Hm Hg st. unfold bind. destruct (Hm st) as (new1 & L1 & B1 & C1).
  destruct (m st) as [[a|e|] s1]; cbn [fst snd] in *.
  - destruct (Hg a s1) as (new2 & L2 & B2 & C2).
    exists (new2 ++ new1). split; [rewrite L2, L1, List.app_assoc; reflexivity|].
    split.
    + apply by_pass_app; [|exact B1]. rewrite (C1 a eq_refl). exact B2.
    + intros b Hb. rewrite count_opens_app, (C1 a eq_refl), (C2 b Hb). lia.
  - exists new1. split; [exact L1|]. split; [exact B1|]. intros b Hb. discriminate Hb.
  - exists new1. split; [exact L1|]. split; [exact B1|]. intros b Hb. discriminate Hb.
Qed.

(** After a part that neither opens nor writes. *)
Lemma writes_by_pass_then {A B} (allowed : kind -> bool) (k c : nat)
      (m : comp (state W) A) (g : A -> comp (state W) B) :
  uses stop_at allowed m -> sub allowed k_quiet ->
  (forall a, writes_by_pass f passes k (g a) c) ->
  writes_by_pass f passes k (bind m g) c.
Proof.
  intros Hu Hs Hg.
  apply (writes_by_pass_bind k 0 c); [apply (writes_by_pass_uses allowed); assumption|].
  intros a. rewrite Nat.add_0_r. apply Hg.
Qed.

Lemma writes_by_pass_return {A} (k c : nat) :
  writes_by_pass f passes k (return_ : comp (state W) A) c.
Proof.
  intros st. exists []. split; [reflexivity|]. split; [exact I|].
  intros a Ha. discriminate Ha.
Qed.

Lemma write_chunks_by_pass (j : nat) (pattern : list byte) (fuel : nat)
      (file_size written : Z) :
  passes !! j = Some pattern ->
  writes_by_pass f passes (S j)
                 (write_chunks stop_at fuel f pattern file_size written) 0.
Proof.
  intros Hj. revert written.
  induction fuel as [|fuel IH]; intros written; cbn [write_chunks];
    destruct (Z.ltb_spec written file_size) as [Hlt|Hge];
    try solve [apply (writes_by_pass_uses k_none);
               [unfold uses; keep|intros ? Hk; discriminate Hk]].
  apply (writes_by_pass_then k_quiet); [unfold uses; keep; reflexivity|intros ? Hk; exact Hk|].
  intros running. destruct (negb running); [apply writes_by_pass_return|]. cbv zeta.
  apply (writes_by_pass_bind (S j) 0 0).
  { intros st. unfold sys.
    destruct (exec (SysWrite f (generate_pattern pattern
                                  (Z.min CHUNK_SIZE (file_size - written)))) (world st))
      as [r w].
    eexists [_]. split; [destruct r; reflexivity|]. split; [|intros _ _; reflexivity].
    cbn. split; [|exact I]. split; [reflexivity|].
    exists j, pattern, (Z.min CHUNK_SIZE (file_size - written)).
    split; [lia|]. split; [exact Hj|]. split; [unfold CHUNK_SIZE; lia|reflexivity]. }
  intros _. rewrite Nat.add_0_r.
  repeat (apply (writes_by_pass_then k_quiet);
          [unfold uses; keep; reflexivity|intros ? Hk; exact Hk|intros ?]).
  apply IH.
Qed.

Lemma with_open_by_pass {A} (k : nat) (p : path) (m : open_mode)
      (body : comp (state W) A) :
  m <> ModeA ->
  writes_by_pass f passes (S k) body 0 ->
  writes_by_pass f passes k (with_open p m body) 1.
Proof.
  intros Hm Hb st. unfold with_open, bind, finally, sys.
  destruct (exec (SysOpen p m) (world st)) as [[e|] w1]; cbn [fst snd].
  { eexists [_]. split; [reflexivity|]. split; [cbn; auto|].
    intros a Ha. discriminate Ha. }
  match goal with
  | |- context [body ?s] => destruct (Hb s) as (newb & Lb & Bb & Cb); destruct (body s) as [o s1]
  end.
  cbn [fst snd] in *.
  assert (Ho : count_opens [Sys (SysOpen p m) None] = 1%nat) by (destruct m; [congruence|reflexivity..]).
  assert (Hbp : forall r, by_pass f passes k
                            (Sys (SysClose p) r :: newb ++ [Sys (SysOpen p m) None])).
  { intros r. cbn [by_pass]. split; [exact I|].
    apply by_pass_app; [|cbn; auto]. rewrite Ho, Nat.add_1_r. exact Bb. }
  destruct (exec (SysClose p) (world s1)) as [[e|] w2]; cbn [fst snd].
  - exists (Sys (SysClose p) (Some e) :: newb ++ [Sys (SysOpen p m) None]).
    split; [cbn; rewrite Lb, <- List.app_assoc; reflexivity|].
    split; [apply Hbp|intros a Ha; discriminate Ha].
  - exists (Sys (SysClose p) None :: newb ++ [Sys (SysOpen p m) None]).
    split; [cbn; rewrite Lb, <- List.app_assoc; reflexivity|].
    split; [apply Hbp|].
    intros a Ha. cbn [count_opens]. rewrite count_opens_app, Ho, (Cb a Ha). reflexivity.
Qed.

Lemma write_passes_by_pass (file_size : Z) (i j0 : nat) (rest : list (list byte)) :
  (forall n pattern, rest !! n = Some pattern -> passes !! (j0 + n)%nat = Some pattern) ->
  writes_by_pass f passes j0 (write_passes stop_at f file_size i rest) (length rest).
Proof.
  revert i j0. induction rest as [|pattern rest IH]; intros i j0 Hr; cbn [write_passes].
  - apply (writes_by_pass_uses k_none); [unfold uses; keep|intros ? Hk; discriminate Hk].
  - apply (writes_by_pass_then k_quiet); [unfold uses; keep; reflexivity|intros ? Hk; exact Hk|].
    intros running. destruct (negb running); [apply writes_by_pass_return|].
    apply (writes_by_pass_bind j0 1 (length rest)).
    + apply with_open_by_pass; [destruct (0 <? i)%nat; discriminate|].
      apply write_chunks_by_pass. specialize (Hr 0%nat pattern eq_refl).
      rewrite Nat.add_0_r in Hr. exact Hr.
    + intros _.
      repeat (apply (writes_by_pass_then k_quiet);
              [unfold uses; keep; reflexivity|intros ? Hk; exact Hk|intros ?]).
      apply IH. intros n p Hn. specialize (Hr (S n) p Hn).
      replace (j0 + 1 + n)%nat with (j0 + S n)%nat by lia. exact Hr.
Qed.

(** What [by_pass] says of one action of a history. *)
Lemma by_pass_at (h pre post : list action) (a : action) :
  by_pass f passes 0 (rev h) -> h = pre ++ a :: post ->
  match a with
  | Rand _ => False
  | Sys (SysWrite p data) _ =>
      p = f /\
      exists j pattern size,
        count_opens pre = S j /\ passes !! j = Some pattern /\
        (0 < size <= CHUNK_SIZE)%Z /\ data = generate_pattern pattern size
  | _ => True
  end.
Proof.
  intros Hb ->. rewrite rev_app_distr in Hb. cbn [rev] in Hb.
  rewrite <- List.app_assoc in Hb. cbn [app] in Hb.
  induction (rev post) as [|x l IH]; cbn [app by_pass] in Hb.
  - destruct Hb as [Ha _]. rewrite count_opens_rev in Ha. exact Ha.
  - apply IH. apply Hb.
Qed.

End ByPass.

Lemma draws_of_kind (new : list action) :
  Forall (fun a => k_random (kind_of a) = true) new ->
  exists draws, new = map Rand draws.
Proof.
  induction 1 as [|a l Ha F [draws ->]]; [exists []; reflexivity|].
  destruct a as [s| |c r| | |b|]; try discriminate Ha.
  - destruct s; discriminate Ha.
  - destruct c as [p m| | | | | | | | | |]; try discriminate Ha. destruct m; discriminate Ha.
  - exists (b :: draws). reflexivity.
Qed.

(** C3, as the code has it.  For every file, [get_passes] is called once,
    before the file is opened: it builds the whole pass list and makes all
    the draws, 1024 bytes for each random pass.  While the passes are then
    written nothing is drawn, and every chunk written after the opening
    number [j] of the file (the pass number [j], counted from 0) is
    [generate_pattern] of the one buffer of that pass, a prefix of it: two
    chunks of one pass that are asked for with the same size carry the same
    bytes. *)
Theorem C3_chunks_are_prefixes_of_the_pass_buffer {W : Type} `{Platform W}
        (method : string) (stop_at : option nat) (f : path) (st : state W) :
  exists passes st1 draws,
    get_passes method st = (Val passes, st1) /\
    history st1 = history st ++ map Rand draws /\
    match os_path_getsize f (world st) with
    | inl _ =>
        history (snd (shred_file method stop_at f st))
        = history st ++ [Emit (Error ("处理文件失败: " ++ truncate_middle f))]
    | inr file_size =>
        exists h,
          history (snd (shred_file method stop_at f st)) = history st1 ++ h /\
          (forall b, ~ In (Rand b) h) /\
          forall pre p data r post,
            h = pre ++ Sys (SysWrite p data) r :: post ->
            p = f /\
            exists j pattern size,
              count_opens pre = S j /\ passes !! j = Some pattern /\
              (0 < size <= CHUNK_SIZE)%Z /\
              data = generate_pattern pattern size /\ data `prefix_of` pattern
    end.
Proof.
  destruct (get_passes_val method st) as (passes & st1 & E & _).
  destruct (get_passes_uses method stop_at k_random (fun _ Hk => Hk) st)
    as (newd & Ld & Fd & _).
  rewrite E in Ld. cbn [snd] in Ld.
  destruct (draws_of_kind newd Fd) as (draws & ->).
  exists passes, st1, (rev draws). split; [exact E|].
  split; [unfold history; rewrite Ld, rev_app_distr, map_rev; reflexivity|].
  destruct (os_path_getsize f (world st)) as [e|file_size] eqn:Eg.
  { unfold shred_file, try_except, bind, query_exn. rewrite Eg. reflexivity. }
  assert (Es : shred_file method stop_at f st
               = try_except
                   (write_passes stop_at f file_size 0 passes ;;
                    try_except (sys (SysRemove f))
                      (fun _ => emit (Error ("删除文件失败: " ++ truncate_middle f))))
                   (fun _ => emit (Error ("处理文件失败: " ++ truncate_middle f))) st1).
  { unfold shred_file, try_except, bind, query_exn. rewrite Eg, E. reflexivity. }
  rewrite Es. clear Es. unfold try_except at 1.
  assert (Fin : forall (new : list action) (st' : state W),
            log st' = new ++ log st1 -> by_pass f passes 0 new ->
            exists h,
              history st' = history st1 ++ h /\
              (forall b, ~ In (Rand b) h) /\
              forall pre p data r post,
                h = pre ++ Sys (SysWrite p data) r :: post ->
                p = f /\
                exists j pattern size,
                  count_opens pre = S j /\ passes !! j = Some pattern /\
                  (0 < size <= CHUNK_SIZE)%Z /\
                  data = generate_pattern pattern size /\ data `prefix_of` pattern).
  { intros new st' L B. exists (rev new).
    split; [unfold history; rewrite L, rev_app_distr; reflexivity|].
    rewrite <- (rev_involutive new) in B. split.
    - intros b Hb. apply in_split in Hb. destruct Hb as (pre & post & Eh).
      exact (by_pass_at f passes _ _ _ _ B Eh).
    - intros pre p data r post Eh.
      destruct (by_pass_at f passes _ _ _ _ B Eh) as (Hp & j & pattern & size & Hj & Hl & Hs & Hd).
      split; [exact Hp|]. exists j, pattern, size.
      split; [exact Hj|]. split; [exact Hl|]. split; [exact Hs|]. split; [exact Hd|].
      rewrite Hd. unfold generate_pattern. destruct (size <? 0)%Z; apply prefix_take. }
  assert (T : writes_by_pass f passes 0
                (write_passes stop_at f file_size 0 passes ;;
                 try_except (sys (SysRemove f))
                   (fun _ => emit (Error ("删除文件失败: " ++ truncate_middle f))))
                (length passes + 0)).
  { apply writes_by_pass_bind;
      [apply write_passes_by_pass; intros n p Hn; exact Hn|].
    intros _. apply (writes_by_pass_uses stop_at f passes k_quiet);
      [unfold uses; keep; reflexivity|intros ? Hk; exact Hk]. }
  destruct (T st1) as (new & L & B & _).
  match goal with
  | |- context [bind ?m ?g st1] => destruct (bind m g st1) as [[[]|e|] s2]
  end; cbn [fst snd] in *.
  - exact (Fin new s2 L B).
  - apply (Fin (Emit (Error ("处理文件失败: " ++ truncate_middle f)) :: new)).
    + cbn. rewrite L. reflexivity.
    + cbn [by_pass]. split; [exact I|exact B].
  - exact (Fin new s2 L B).
Qed.

(** ** Runs on the sample machines *)

(** C2, on one file of 2048 bytes with the single-pass method: the chunk asked
    for is 2048 bytes long, the one write carries the 1024 zero bytes of the
    pattern, so 1024 bytes are written and not 1 * 2048; the file is removed
    and [Finished] is emitted, after two [Progress 100]. *)
Theorem C2_one_file_of_2048_bytes_gets_1024 :
  let r := erase METHOD_SIMPLE None ["f"] machine_one_file in
  os_path_getsize "f" machine_one_file = inr 2048%Z /\
  fst r = Val tt /\
  history (snd r) =
    [Poll true; Emit (FileStatus "正在粉碎: f");
     Sys (SysOpen "f" ModeA) None; Sys (SysClose "f") None;
     Poll true; Sys (SysOpen "f" ModeWB) None;
     Poll true; Sys (SysWrite "f" (replicate 1024 x00)) None;
     Clock (1700000000 # 1); Emit (Progress 100); Sys (SysClose "f") None;
     Emit (Progress 100); Sys (SysRemove "f") None;
     Poll true; Emit Finished] /\
  bytes_written "f" (history (snd r)) = 1024%nat /\
  progress_of (history (snd r)) = [100%Z; 100%Z] /\
  os_path_exists "f" (world (snd r)) = false.
Proof. vm_compute. repeat split. Qed.

(** C3 fails on a file of two chunks with the DoD 3-pass method: the seventh
    pass is the random one, its two chunks are the 13th and 14th writes, and
    both are the same 1024 bytes, the only bytes drawn in the run, all of
    them before the first write. *)
Lemma C3_two_chunks_of_the_random_pass_are_one_buffer :
  let h := history (snd (erase METHOD_DOD3 None ["f"] machine_two_chunks)) in
  length (writes_of "f" h) = 14%nat /\
  length (draws_of h) = 1024%nat /\
  nth 12 (writes_of "f" h) [] = draws_of h /\
  nth 13 (writes_of "f" h) [] = draws_of h /\
  draws_of (from_first_write h) = [].
Proof. vm_compute. repeat split. Qed.

(** C5, on a directory that holds one empty file: the total is zero and the
    run is not stopped; the file is opened for writing, the division by the
    total fails for that file only, the directory is then renamed and removed
    with the file in it, and [Finished] is emitted. *)
Theorem C5_zero_total_is_not_fatal :
  let r := erase METHOD_SIMPLE None ["d"] machine_empty_file in
  total_size (snd r) = 0%Z /\
  fst r = Val tt /\
  history (snd r) =
    [Poll true; Emit (FileStatus "正在粉碎: d/e");
     Poll true; Sys (SysOpen "d/e" ModeWB) None; Sys (SysClose "d/e") None;
     Emit (Error "处理文件失败: d/e");
     Emit (FileStatus "正在处理文件夹: d");
     Sys (SysRmdir "d") (Some (Exn OSError "Directory not empty"));
     RandIdx 62 47; RandIdx 62 45; RandIdx 62 17; RandIdx 62 41;
     RandIdx 62 30; RandIdx 62 39; RandIdx 62 37; RandIdx 62 26;
     Sys (SysRename "d" "VTrPENLA") None;
     Sys (SysRmtree "VTrPENLA") None; Emit (FolderDeleted "VTrPENLA");
     Poll true; Emit Finished] /\
  Sim.fs (world (snd r)) = [].
Proof. vm_compute. repeat split. Qed.

(** C6, on a directory [d] with a file [d/f] and a file [g] beside it, both
    held open by process 7: for [g] the run checks for a holder and ends the
    process before it opens the file for writing; for the nested [d/f] the
    first action is the opening for writing, which fails. *)
Theorem C6_nested_file_is_opened_without_lock_resolution :
  let r := erase METHOD_SIMPLE None ["d"; "g"] machine_held_files in
  firstn 13 (history (snd r)) =
    [Poll true; Emit (FileStatus "正在粉碎: d/f");
     Poll true; Sys (SysOpen "d/f" ModeWB) (Some (Exn OSError "Permission denied"));
     Emit (Error "处理文件失败: d/f");
     Poll true; Emit (FileStatus "正在粉碎: g");
     Sys (SysOpen "g" ModeA) (Some (Exn OSError "Permission denied"));
     Emit (FileStatus "文件 g 正在被占用，尝试终止占用进程...");
     Sys (SysTerminate (Process 7)) None; Sys (SysWait (Process 7) 3) None;
     Poll true; Sys (SysOpen "g" ModeWB) None].
Proof. vm_compute. reflexivity. Qed.

(** C7 fails on a process that has already ended: it is stopped, and the
    answer is [False], with no call made. *)
Lemma C7_ended_process_gives_false :
  let r := terminate_process (Process 7) (initial machine_processes) in
  proc_is_running (Process 7) machine_processes = false /\
  fst r = Val false /\
  history (snd r) = [] /\
  proc_is_running (Process 7) (world (snd r)) = false.
Proof. vm_compute. repeat split. Qed.

(** ** Ending a process *)

(** C7, as the code has it.  A process that is not running on entry gives
    [False] and no call is made.  For one that is running, [terminate] is
    called, then [wait] with a timeout of 3, then [kill] exactly when the
    process is still running once [wait] has returned; the answer is [True]
    exactly when none of these calls raised, and the state of the process is
    not read again after [kill]. *)
Theorem C7_terminate_process_as_coded {W : Type} `{Platform W}
        (proc : process) (st : state W) :
  let r := terminate_process proc st in
  let after_wait :=
    snd (exec (SysWait proc 3) (snd (exec (SysTerminate proc) (world st)))) in
  exists b new,
    fst r = Val b /\
    log (snd r) = new ++ log st /\
    (b = true <->
       proc_is_running proc (world st) = true /\
       forall c e, ~ In (Sys c (Some e)) new) /\
    (proc_is_running proc (world st) = false -> new = [] /\ world (snd r) = world st) /\
    (proc_is_running proc (world st) = true ->
       match rev new with
       | [Sys c1 (Some _)] => c1 = SysTerminate proc
       | [Sys c1 None; Sys c2 (Some _)] =>
           c1 = SysTerminate proc /\ c2 = SysWait proc 3
       | [Sys c1 None; Sys c2 None] =>
           c1 = SysTerminate proc /\ c2 = SysWait proc 3 /\
           proc_is_running proc after_wait = false
       | [Sys c1 None; Sys c2 None; Sys c3 _] =>
           c1 = SysTerminate proc /\ c2 = SysWait proc 3 /\ c3 = SysKill proc /\
           proc_is_running proc after_wait = true
       | _ => False
       end).
Proof.
  cbv zeta. unfold terminate_process, try_except, bind, query, sys, ret.
  destruct (proc_is_running proc (world st)) eqn:Erun.
  - destruct (exec (SysTerminate proc) (world st)) as [[e1|] w1] eqn:E1.
    { exists false, [Sys (SysTerminate proc) (Some e1)].
      cbn. repeat split; try discriminate; auto.
      intros [_ Hno]. exfalso. eapply Hno. left. reflexivity. }
    cbn.
    destruct (exec (SysWait proc 3) w1) as [[e2|] w2] eqn:E2.
    { exists false, [Sys (SysWait proc 3) (Some e2); Sys (SysTerminate proc) None].
      cbn. repeat split; try discriminate; auto.
      intros [_ Hno]. exfalso. eapply Hno. left. reflexivity. }
    cbn.
    destruct (proc_is_running proc w2) eqn:Estill.
    + cbn. destruct (exec (SysKill proc) w2) as [[e3|] w3] eqn:E3.
      * exists false, [Sys (SysKill proc) (Some e3); Sys (SysWait proc 3) None;
                       Sys (SysTerminate proc) None].
        cbn. repeat split; try discriminate; auto.
        intros [_ Hno]. exfalso. eapply Hno. left. reflexivity.
      * exists true, [Sys (SysKill proc) None; Sys (SysWait proc 3) None;
                      Sys (SysTerminate proc) None].
        cbn. repeat split; try discriminate; auto.
        intros c e [Hin|[Hin|[Hin|[]]]]; discriminate.
    + exists true, [Sys (SysWait proc 3) None; Sys (SysTerminate proc) None].
      cbn. repeat split; try discriminate; auto.
      intros c e [Hin|[Hin|[]]]; discriminate.
  - exists false, []. cbn. repeat split; try discriminate; auto.
    intros [Hf _]. discriminate.
Qed.

(** ** The whole run *)

Section Run.
Context {W : Type} `{Platform W}.
Variable method : string.
Variable stop_at : option nat.

Lemma valid_paths_uses (allowed : kind -> bool) (file_paths : list path) :
  uses stop_at allowed (valid_paths (W:=W) file_paths).
Proof.
  unfold uses. induction file_paths as [|f rest IH]; simpl; keep; auto.
  unfold is_valid_file_path. keep.
Qed.

Lemma init_uses (allowed : kind -> bool) (file_paths : list path) :
  allowed KError = true -> uses stop_at allowed (init (W:=W) file_paths).
Proof.
  intros He. unfold uses, init. keep; auto. apply valid_paths_uses.
Qed.

(** [run] stage by stage. *)
Lemma run_cases (file_paths : list path) (st : state W) :
  file_paths <> [] ->
  let fatal e := emit (Error ("粉碎过程中发生错误: " ++ exn_str e)) in
  run method stop_at file_paths st =
    match sizing file_paths st with
    | (Val _, s0) =>
        match process_paths method stop_at 0 file_paths ∅ s0 with
        | (Val folders, s1) =>
            match remove_folders (elements folders) s1 with
            | (Val _, s2) =>
                (Val tt,
                 if running_at stop_at (polls s2)
                 then record (Emit Finished) (record (Poll true) (bump_polls s2))
                 else record (Poll false) (bump_polls s2))
            | (Exc e, s2) => fatal e s2
            | (Returned, s2) => (Returned, s2)
            end
        | (Exc e, s1) => fatal e s1
        | (Returned, s1) => (Returned, s1)
        end
    | (Exc e, s0) => fatal e s0
    | (Returned, s0) => (Returned, s0)
    end.
Proof.
  intros Hne. cbv zeta. unfold run.
  destruct file_paths as [|p rest]; [congruence|].
  change (length (p :: rest) =? 0)%nat with false. cbv iota.
  unfold try_except, bind.
  destruct (sizing (p :: rest) st) as [[[]|e|] s0]; auto.
  destruct (process_paths method stop_at 0 (p :: rest) ∅ s0) as [[folders|e|] s1]; auto.
  destruct (remove_folders (elements folders) s1) as [[[]|e|] s2]; auto.
  unfold poll. destruct (running_at stop_at (polls s2)); reflexivity.
Qed.

Lemma running_at_earlier (k k' : nat) :
  (k <= k')%nat -> running_at stop_at k' = true -> running_at stop_at k = true.
Proof.
  unfold running_at. destruct stop_at as [n|]; [|reflexivity].
  intros Hk Hr. apply Nat.ltb_lt in Hr. apply Nat.ltb_lt. lia.
Qed.

(** Either [run] ends with a read of the flag that finds it unset followed by
    [Finished], after steps that emit no [Finished]; or it emits none. *)
Lemma run_finishes_or_not (file_paths : list path) (st : state W) :
  let st' := snd (run method stop_at file_paths st) in
  (exists s2, step stop_at (fun a => k_not_finished (kind_of a) = true) st s2 /\
              running_at stop_at (polls s2) = true /\
              st' = record (Emit Finished) (record (Poll true) (bump_polls s2)))
  \/ step stop_at (fun a => k_not_finished (kind_of a) = true) st st'.
Proof.
  cbv zeta.
  destruct file_paths as [|p rest].
  { right. unfold run. cbn. eapply step_one; reflexivity. }
  rewrite run_cases by discriminate. cbv zeta.
  set (fps := p :: rest).
  pose proof (sizing_uses stop_at k_not_finished fps st) as S0.
  destruct (sizing fps st) as [[[]|e|] s0]; cbn [snd] in S0.
  2:{ right. eapply step_trans; [exact S0|]. eapply step_one; reflexivity. }
  2:{ right. exact S0. }
  assert (Hk : sub k_files k_not_finished) by (intros [] Hx; vm_compute in *; congruence).
  pose proof (process_paths_uses method stop_at k_not_finished 0 fps ∅ Hk s0) as S1.
  destruct (process_paths method stop_at 0 fps ∅ s0) as [[folders|e|] s1]; cbn [snd] in S1.
  2:{ right. eapply step_trans; [exact S0|]. eapply step_trans; [exact S1|].
      eapply step_one; reflexivity. }
  2:{ right. eapply step_trans; eauto. }
  assert (Hf : sub k_folders k_not_finished) by (intros [] Hx; vm_compute in *; congruence).
  pose proof (remove_folders_uses stop_at k_not_finished (elements folders) Hf s1) as S2.
  destruct (remove_folders (elements folders) s1) as [[[]|e|] s2]; cbn [snd] in S2.
  2:{ right. eapply step_trans; [exact S0|]. eapply step_trans; [exact S1|].
      eapply step_trans; [exact S2|]. eapply step_one; reflexivity. }
  2:{ right. eapply step_trans; [exact S0|]. eapply step_trans; eauto. }
  assert (S : step stop_at (fun a => k_not_finished (kind_of a) = true) st s2).
  { eapply step_trans; [exact S0|]. eapply step_trans; eauto. }
  cbn [snd]. destruct (running_at stop_at (polls s2)) eqn:Er.
  - left. exists s2. auto.
  - right. eapply step_trans; [exact S|].
    pose proof (keeps_poll stop_at (fun a => k_not_finished (kind_of a) = true)
                           (fun b => eq_refl) s2) as Hp.
    unfold poll in Hp. cbn [snd] in Hp. rewrite Er in Hp. exact Hp.
Qed.

End Run.




(** ** The folder loop *)

Section Folders.
Context {W : Type} `{Platform W}.

Lemma no_return_ret {A} (a : A) : no_return (ret a : comp (state W) A).
Proof. intros st. discriminate. Qed.

Lemma no_return_raise {A} (e : exn) : no_return (raise e : comp (state W) A).
Proof. intros st. discriminate. Qed.

Lemma no_return_bind {A B} (m : comp (state W) A) (f : A -> comp (state W) B) :
  no_return m -> (forall a, no_return (f a)) -> no_return (bind m f).
Proof.
  intros Hm Hf st. unfold bind. specialize (Hm st).
  destruct (m st) as [[a|e|] s1]; cbn in *; try discriminate; [apply Hf|congruence].
Qed.

Lemma no_return_try {A} (m : comp (state W) A) (h : exn -> comp (state W) A) :
  no_return m -> (forall e, no_return (h e)) -> no_return (try_except m h).
Proof.
  intros Hm Hh st. unfold try_except. specialize (Hm st).
  destruct (m st) as [[a|e|] s1]; cbn in *; try discriminate; [apply Hh|congruence].
Qed.

Lemma no_return_query {A} (f : W -> A) : no_return (query (W:=W) f).
Proof. intros st. discriminate. Qed.

Lemma no_return_emit (s : signal) : no_return (emit (W:=W) s).
Proof. intros st. discriminate. Qed.

Lemma no_return_sys (c : syscall) : no_return (sys (W:=W) c).
Proof.
  intros st. unfold sys. destruct (exec c (world st)) as [[e|] w]; discriminate.
Qed.

Lemma no_return_shell (cmd : string) : no_return (shell (W:=W) cmd).
Proof.
  intros st. unfold shell. destruct (subprocess_run cmd (world st)) as [[e|rc] w]; discriminate.
Qed.

Lemma no_return_rand_below (n : nat) : no_return (rand_below (W:=W) n).
Proof.
  intros st. unfold rand_below. destruct (random_below n (world st)). discriminate.
Qed.

Lemma no_return_random_choices (population : string) (k : nat) :
  no_return (random_choices (W:=W) population k).
Proof.
  induction k as [|k IH]; cbn [random_choices].
  - apply no_return_ret.
  - apply no_return_bind; [apply no_return_rand_below|intros i].
    apply no_return_bind; [exact IH|intros rest]. apply no_return_ret.
Qed.

End Folders.

Ltac no_return_step :=
  lazymatch goal with
  | |- no_return (ret _) => apply no_return_ret
  | |- no_return (raise _) => apply no_return_raise
  | |- no_return (query _) => apply no_return_query
  | |- no_return (emit _) => apply no_return_emit
  | |- no_return (sys _) => apply no_return_sys
  | |- no_return (shell _) => apply no_return_shell
  | |- no_return (random_choices _ _) => apply no_return_random_choices
  | |- no_return (bind _ _) => apply no_return_bind; [| intros ?]
  | |- no_return (try_except _ _) => apply no_return_try; [| intros ?]
  | |- no_return (if ?b then _ else _) => destruct b
  | |- no_return (match ?x with _ => _ end) => destruct x
  | |- no_return (let _ := _ in _) => cbv zeta
  end.

Section FolderLoop.
Context {W : Type} `{Platform W}.

Lemma try_emit_val (m : comp (state W) unit) (s : exn -> signal) (st : state W) :
  no_return m -> fst (try_except m (fun e => emit (s e)) st) = Val tt.
Proof.
  intros Hn. specialize (Hn st). unfold try_except.
  destruct (m st) as [[[]|e|] s1]; [reflexivity | reflexivity | cbn in Hn; congruence].
Qed.

(** The body of the folder loop always runs to its end. *)
Lemma remove_folder_val (folder : path) (st : state W) :
  fst (remove_folder folder st) = Val tt.
Proof.
  unfold remove_folder.
  apply (try_emit_val _ (fun _ => Error ("处理文件夹失败: " ++ truncate_middle folder))).
  repeat no_return_step.
Qed.

(** The folder loop handles one folder after the other, each with
    [remove_folder], to the last one. *)
Lemma remove_folders_fold (folders : list path) (st : state W) :
  remove_folders folders st
  = (Val tt, fold_left (fun s folder => snd (remove_folder folder s)) folders st).
Proof.
  revert st. induction folders as [|folder rest IH]; intros st; [reflexivity|].
  cbn [remove_folders fold_left]. unfold bind.
  pose proof (remove_folder_val folder st) as Hv.
  destruct (remove_folder folder st) as [o s1]. cbn in Hv. subst o.
  cbn [snd]. apply IH.
Qed.

Lemma count_polls_none (allowed : kind -> bool) (new : list action) :
  allowed KPoll = false ->
  Forall (fun a => allowed (kind_of a) = true) new -> count_polls new = 0%nat.
Proof.
  intros Hp F. induction F as [|a l Pa F IH]; [reflexivity|].
  destruct a; cbn in *; auto. congruence.
Qed.

End FolderLoop.



Example cancelled_during_the_folder_loop :
  history (snd (erase METHOD_SIMPLE (Some 2) ["d"] machine_empty_file)) =
    [Poll true; Emit (FileStatus "正在粉碎: d/e");
     Poll true; Sys (SysOpen "d/e" ModeWB) None; Sys (SysClose "d/e") None;
     Emit (Error "处理文件失败: d/e");
     Emit (FileStatus "正在处理文件夹: d");
     Sys (SysRmdir "d") (Some (Exn OSError "Directory not empty"));
     RandIdx 62 47; RandIdx 62 45; RandIdx 62 17; RandIdx 62 41;
     RandIdx 62 30; RandIdx 62 39; RandIdx 62 37; RandIdx 62 26;
     Sys (SysRename "d" "VTrPENLA") None;
     Sys (SysRmtree "VTrPENLA") None; Emit (FolderDeleted "VTrPENLA");
     Poll false].
Proof. vm_compute. reflexivity. Qed.

(** ** One folder *)

Section Ladder.
Context {W : Type} `{Platform W}.

(** [random.choices] makes [k] picks, and the name is made of them. *)
Lemma random_choices_picks (population : string) (k : nat) (st : state W) :
  exists idxs st',
    random_choices population k st = (Val (name_of_picks population idxs), st') /\
    length idxs = k /\
    log st' = rev (map (RandIdx (String.length population)) idxs) ++ log st.
Proof.
  revert st. induction k as [|k IH]; intros st.
  - exists [], st. repeat split.
  - cbn [random_choices]. unfold bind at 1. unfold rand_below at 1.
    destruct (random_below (String.length population) (world st)) as [i w].
    destruct (IH (record (RandIdx (String.length population) i) (with_world w st)))
      as (idxs & st' & E & Ln & L).
    rewrite (bind_val _ _ _ _ _ E).
    exists (i :: idxs), st'. split; [reflexivity|]. split; [cbn; rewrite Ln; reflexivity|].
    rewrite L. cbn. rewrite <- List.app_assoc. reflexivity.
Qed.

Lemma name_of_picks_length (population : string) (idxs : list nat) :
  String.length (name_of_picks population idxs) = length idxs.
Proof.
  unfold name_of_picks. induction idxs as [|i idxs IH]; [reflexivity|].
  cbn. rewrite IH. reflexivity.
Qed.

End Ladder.

(** Case analysis on the next call to the platform. *)
Ltac next_call :=
  match goal with
  | |- context [exec ?c ?w] => destruct (exec c w) as [[?e|] ?w'] eqn:?
  | |- context [subprocess_run ?c ?w] =>
      destruct (subprocess_run c w) as [[?e|?rc] ?w'] eqn:?
  | |- context [os_path_exists ?p ?w] => destruct (os_path_exists p w) eqn:?
  | |- context [(?rc =? 0)%Z] => destruct (rc =? 0)%Z eqn:?
  end;
  cbn -[random_choices].




(** The walk of a selected directory performs no action of the lock
    resolution: no [open(..., 'a')], no [terminate], [wait] or [kill]. *)
Lemma nested_files_get_no_lock_resolution {W : Type} `{Platform W}
      (method : string) (stop_at : option nat)
      (triples : list (path * list string * list string)) (folders : gset path)
      (st : state W) :
  exists new,
    log (snd (shred_walk method stop_at triples folders st)) = new ++ log st /\
    Forall (fun a =>
              match a with
              | Sys (SysOpen _ ModeA) _ | Sys (SysTerminate _) _
              | Sys (SysWait _ _) _ | Sys (SysKill _) _ => False
              | _ => True
              end) new.
Proof.
  destruct (shred_walk_uses method stop_at k_nested triples folders
                            (fun k Hk => Hk) st) as (new & L & F & _).
  exists new. split; [exact L|].
  eapply Forall_impl; [exact F|]. intros a Ha.
  destruct a as [s| |c r| | | |]; auto.
  destruct c as [p m| | | | | | | | | |]; try discriminate; auto.
  destruct m; try discriminate; auto.
Qed.

(** * More of the module *)

(** ** Strings *)

Lemma str_len_append (s1 s2 : string) :
  str_len (s1 ++ s2) = (str_len s1 + str_len s2)%nat.
Proof.
  induction s1 as [|c s1 IH]; simpl; [reflexivity|].
  destruct (is_continuation c); rewrite IH; reflexivity.
Qed.

Lemma str_len_take (n : nat) (s : string) :
  str_len (str_take n s) = Nat.min n (str_len s).
Proof.
  revert n. induction s as [|c s IH]; intros n; cbn [str_take str_len].
  - rewrite Nat.min_0_r. reflexivity.
  - destruct (is_continuation c) eqn:Ec.
    + cbn [str_len]. rewrite Ec. apply IH.
    + destruct n as [|n]; [reflexivity|]. cbn [str_len]. rewrite Ec, IH. reflexivity.
Qed.

Lemma str_len_drop (n : nat) (s : string) :
  str_len (str_drop n s) = (str_len s - n)%nat.
Proof.
  revert n. induction s as [|c s IH]; intros n; cbn [str_drop str_len]; [reflexivity|].
  destruct (is_continuation c) eqn:Ec; [apply IH|].
  destruct n as [|n]; [|rewrite IH; reflexivity].
  cbn [str_len]. rewrite Ec. reflexivity.
Qed.

(** A text is cut between two characters: the first [n] characters followed
    by the text without them are the text. *)
Lemma str_take_drop (n : nat) (s : string) : (str_take n s ++ str_drop n s)%string = s.
Proof.
  revert n. induction s as [|c s IH]; intros n; cbn [str_take str_drop]; [reflexivity|].
  destruct (is_continuation c).
  - change (String c (str_take n s ++ str_drop n s)%string = String c s).
    rewrite IH. reflexivity.
  - destruct n as [|n]; [reflexivity|].
    change (String c (str_take n s ++ str_drop n s)%string = String c s).
    rewrite IH. reflexivity.
Qed.

(** On a text of ASCII characters the characters are the bytes. *)
Lemma str_len_ascii (s : string) :
  Forall (fun c => is_continuation c = false) (list_ascii_of_string s) ->
  str_len s = String.length s.
Proof.
  induction s as [|c s IH]; intros F; [reflexivity|]. cbn in F.
  apply Forall_cons in F. destruct F as [Hc F]. cbn [str_len String.length].
  rewrite Hc, IH by exact F. reflexivity.
Qed.

(** X1.  [truncate_middle] leaves a text of at most 40 characters as it is
    and cuts a longer one to 39: its first 18 characters, three dots and its
    last 18; so the result never has more than 40 characters and truncating
    twice changes nothing more.  The characters are those of Python, code
    points, whatever the number of bytes that encode them. *)
Theorem truncate_middle_bounds (text : string) :
  (str_len text <= 40 -> truncate_middle text = text)%nat /\
  (40 < str_len text ->
     truncate_middle text
     = (str_take 18 text ++ "..." ++ str_drop (str_len text - 18) text)%string /\
     str_len (str_take 18 text) = 18 /\
     str_len (str_drop (str_len text - 18) text) = 18 /\
     str_len (truncate_middle text) = 39)%nat /\
  (str_len (truncate_middle text) <= 40)%nat /\
  truncate_middle (truncate_middle text) = truncate_middle text.
Proof.
  assert (Hshort : (str_len text <= 40 -> truncate_middle text = text)%nat).
  { intros Hl. unfold truncate_middle.
    destruct (Nat.leb_spec (str_len text) 40); [reflexivity|lia]. }
  assert (Hlong : (40 < str_len text ->
            truncate_middle text
            = (str_take 18 text ++ "..." ++ str_drop (str_len text - 18) text)%string /\
            str_len (str_take 18 text) = 18 /\
            str_len (str_drop (str_len text - 18) text) = 18 /\
            str_len (truncate_middle text) = 39)%nat).
  { intros Hl. unfold truncate_middle.
    destruct (Nat.leb_spec (str_len text) 40); [lia|].
    change ((40 - 3) / 2)%nat with 18%nat. unfold str_suffix.
    change (18 =? 0)%nat with false. cbv iota. split; [reflexivity|].
    rewrite !str_len_append, str_len_take, str_len_drop.
    change (str_len "...") with 3%nat. lia. }
  assert (Hle : (str_len (truncate_middle text) <= 40)%nat).
  { destruct (Nat.le_gt_cases (str_len text) 40) as [Hl|Hl].
    - rewrite Hshort by assumption. assumption.
    - destruct (Hlong Hl) as (_ & _ & _ & ->). lia. }
  split; [exact Hshort|]. split; [exact Hlong|]. split; [exact Hle|].
  unfold truncate_middle at 1.
  destruct (Nat.leb_spec (str_len (truncate_middle text)) 40); [reflexivity|lia].
Qed.

(** A text of 19 characters in 57 bytes is left as it is, and a text of 42
    characters in 126 bytes is cut between characters to 18, three dots
    and 18. *)
Example truncate_middle_counts_characters :
  let short := "正在处理文件夹正在处理文件夹正在处理文" in
  let long := (short ++ short ++ "正在处理")%string in
  (String.length short = 57 /\ str_len short = 19 /\ truncate_middle short = short)%nat /\
  (String.length long = 126 /\ str_len long = 42)%nat /\
  truncate_middle long
  = "正在处理文件夹正在处理文件夹正在处理...件夹正在处理文件夹正在处理文正在处理".
Proof. vm_compute. repeat split. Qed.

(** ** Patterns *)

(** X2.  [generate_pattern] never pads: what it returns is a prefix of the
    pattern, with [size] bytes when [0 <= size <= len(pattern)], the whole
    pattern when [size] is larger, and, for a negative [size], the pattern
    without its last [-size] bytes. *)
Theorem generate_pattern_is_a_slice (pattern : list byte) (size : Z) :
  generate_pattern pattern size `prefix_of` pattern /\
  (0 <= size ->
     length (generate_pattern pattern size)
     = Nat.min (Z.to_nat size) (length pattern))%Z /\
  (Z.of_nat (length pattern) <= size -> generate_pattern pattern size = pattern)%Z /\
  (size < 0 ->
     length (generate_pattern pattern size)
     = (length pattern - Z.to_nat (- size))%nat)%Z.
Proof.
  unfold generate_pattern. repeat split.
  - destruct (size <? 0)%Z; apply prefix_take.
  - intros Hs. destruct (Z.ltb_spec size 0); [lia|]. apply length_take.
  - intros Hs. destruct (Z.ltb_spec size 0); [lia|]. apply take_ge. lia.
  - intros Hs. destruct (Z.ltb_spec size 0); [|lia]. rewrite length_take. lia.
Qed.

Section MorePasses.
Context {W : Type} `{Platform W}.

(** The bytes of a random pattern are the bytes drawn, in the order drawn. *)
Lemma random_bytes_draws (n : nat) (st : state W) :
  exists bs st',
    random_bytes n st = (Val bs, st') /\
    length bs = n /\
    log st' = rev (map Rand bs) ++ log st.
Proof.
  revert st. induction n as [|n IH]; intros st.
  - exists [], st. repeat split; reflexivity.
  - cbn [random_bytes]. unfold bind at 1. unfold randint_byte at 1.
    destruct (random_randint_byte (world st)) as [b w].
    destruct (IH (record (Rand b) (with_world w st))) as (bs & st' & E & L & Lg).
    rewrite (bind_val _ _ _ _ _ E). exists (b :: bs), st'.
    split; [reflexivity|]. split; [simpl; rewrite L; reflexivity|].
    rewrite Lg. cbn [map rev log record]. rewrite <- List.app_assoc. reflexivity.
Qed.

End MorePasses.

(** X3.  A method name that is none of the four [get_passes] compares with
    (the single-pass name of the window is one) gives one pass of 1024 zero
    bytes; nothing is drawn and the state is left as it is. *)
Theorem get_passes_falls_back_to_one_zero_pass {W : Type} `{Platform W}
        (method : string) (st : state W) :
  method <> METHOD_DOD3 -> method <> METHOD_DOD7 ->
  method <> METHOD_GUTMANN -> method <> METHOD_VSITR ->
  get_passes method st = (Val [replicate 1024 x00], st).
Proof.
  intros H1 H2 H3 H4. unfold get_passes.
  apply String.eqb_neq in H1, H2, H3, H4. rewrite H1, H2, H3, H4. reflexivity.
Qed.

Lemma get_passes_falls_back_to_one_zero_pass_witness :
  (METHOD_SIMPLE <> METHOD_DOD3 /\ METHOD_SIMPLE <> METHOD_DOD7 /\
   METHOD_SIMPLE <> METHOD_GUTMANN /\ METHOD_SIMPLE <> METHOD_VSITR) /\
  get_passes METHOD_SIMPLE (initial machine_one_file)
  = (Val [replicate 1024 x00], initial machine_one_file).
Proof.
  assert (H1 : METHOD_SIMPLE <> METHOD_DOD3) by (apply String.eqb_neq; vm_compute; reflexivity).
  assert (H2 : METHOD_SIMPLE <> METHOD_DOD7) by (apply String.eqb_neq; vm_compute; reflexivity).
  assert (H3 : METHOD_SIMPLE <> METHOD_GUTMANN) by (apply String.eqb_neq; vm_compute; reflexivity).
  assert (H4 : METHOD_SIMPLE <> METHOD_VSITR) by (apply String.eqb_neq; vm_compute; reflexivity).
  split; [auto|].
  exact (get_passes_falls_back_to_one_zero_pass METHOD_SIMPLE
           (initial machine_one_file) H1 H2 H3 H4).
Defined.

(** X4.  The DoD 7-pass ECE method and the VSITR method give the same seven
    passes: zero, 0xFF, random, zero, 0xFF, random, zero.  The two random
    patterns are the first and the second 1024 bytes drawn, and 2048 bytes
    are drawn in all. *)
Theorem seven_pass_methods_agree {W : Type} `{Platform W} (st : state W) :
  get_passes METHOD_VSITR st = get_passes METHOD_DOD7 st /\
  exists r1 r2 st',
    get_passes METHOD_DOD7 st
    = (Val [fixed x00; fixed xff; r1; fixed x00; fixed xff; r2; fixed x00], st') /\
    length r1 = 1024%nat /\ length r2 = 1024%nat /\
    log st' = rev (map Rand (r1 ++ r2)) ++ log st.
Proof.
  split.
  - unfold get_passes.
    replace (String.eqb METHOD_VSITR METHOD_DOD3) with false by (vm_compute; reflexivity).
    replace (String.eqb METHOD_VSITR METHOD_DOD7) with false by (vm_compute; reflexivity).
    replace (String.eqb METHOD_VSITR METHOD_GUTMANN) with false by (vm_compute; reflexivity).
    replace (String.eqb METHOD_VSITR METHOD_VSITR) with true by (vm_compute; reflexivity).
    replace (String.eqb METHOD_DOD7 METHOD_DOD3) with false by (vm_compute; reflexivity).
    replace (String.eqb METHOD_DOD7 METHOD_DOD7) with true by (vm_compute; reflexivity).
    reflexivity.
  - unfold get_passes.
    replace (String.eqb METHOD_DOD7 METHOD_DOD3) with false by (vm_compute; reflexivity).
    replace (String.eqb METHOD_DOD7 METHOD_DOD7) with true by (vm_compute; reflexivity).
    unfold random_pattern.
    destruct (random_bytes_draws 1024 st) as (r1 & st1 & E1 & L1 & G1).
    rewrite (bind_val _ _ _ _ _ E1).
    destruct (random_bytes_draws 1024 st1) as (r2 & st2 & E2 & L2 & G2).
    rewrite (bind_val _ _ _ _ _ E2).
    exists r1, r2, st2. split; [reflexivity|]. split; [exact L1|]. split; [exact L2|].
    rewrite G2, G1, map_app, rev_app_distr, <- List.app_assoc. reflexivity.
Qed.

(** X5.  The DoD 3-pass method gives seven passes: zero and the byte 0x01,
    three times over, then one random pattern, which is the 1024 bytes drawn. *)
Theorem dod3_gives_seven_passes {W : Type} `{Platform W} (st : state W) :
  exists r st',
    get_passes METHOD_DOD3 st
    = (Val [replicate 1024 x00; replicate 1024 x01; replicate 1024 x00;
            replicate 1024 x01; replicate 1024 x00; replicate 1024 x01; r], st') /\
    length r = 1024%nat /\
    log st' = rev (map Rand r) ++ log st.
Proof.
  unfold get_passes.
  replace (String.eqb METHOD_DOD3 METHOD_DOD3) with true by (vm_compute; reflexivity).
  unfold random_pattern.
  destruct (random_bytes_draws 1024 st) as (r & st1 & E1 & L1 & G1).
  rewrite (bind_val _ _ _ _ _ E1).
  exists r, st1. split; [reflexivity|]. split; assumption.
Qed.

(** ** The progress throttle *)

(** X6.  Two readings of the clock that [should_update_progress] both lets
    through, one after the other, are at least half a second apart; a reading
    it refuses leaves [last_progress_update] as it was. *)
Theorem should_update_progress_throttles {W : Type} `{Platform W}
        (t1 t2 : Q) (st st1 st2 : state W) :
  should_update_progress t1 st = (Val true, st1) ->
  should_update_progress t2 st1 = (Val true, st2) ->
  (1 # 2 <= t2 - t1)%Q /\
  forall t st', should_update_progress t st2 = (Val false, st') -> st' = st2.
Proof.
  unfold should_update_progress. intros H1 H2.
  destruct (Qle_bool update_interval (t1 - last_progress_update st)) eqn:E1;
    [|discriminate].
  inversion H1; subst st1; clear H1. cbn [last_progress_update with_last_progress_update] in H2.
  destruct (Qle_bool update_interval (t2 - t1)) eqn:E2; [|discriminate].
  split.
  - apply Qle_bool_iff in E2. exact E2.
  - intros t st' Hf. destruct (Qle_bool update_interval (t - last_progress_update st2));
      [discriminate|]. inversion Hf. reflexivity.
Qed.

Lemma should_update_progress_throttles_witness :
  let st := initial machine_one_file in
  let st1 := with_last_progress_update (1 # 1) st in
  let st2 := with_last_progress_update (2 # 1) st1 in
  (should_update_progress (1 # 1) st = (Val true, st1) /\
   should_update_progress (2 # 1) st1 = (Val true, st2)) /\
  (1 # 2 <= (2 # 1) - (1 # 1))%Q.
Proof.
  cbv zeta.
  assert (H1 : should_update_progress (1 # 1) (initial machine_one_file)
               = (Val true, with_last_progress_update (1 # 1) (initial machine_one_file)))
    by reflexivity.
  assert (H2 : should_update_progress (2 # 1)
                 (with_last_progress_update (1 # 1) (initial machine_one_file))
               = (Val true,
                  with_last_progress_update (2 # 1)
                    (with_last_progress_update (1 # 1) (initial machine_one_file))))
    by reflexivity.
  split; [auto|].
  exact (proj1 (should_update_progress_throttles _ _ _ _ _ H1 H2)).
Defined.

(** ** The byte counter *)

Section Accounting.
Context {W : Type} `{Platform W}.
Variable stop_at : option nat.

Lemma bind_inv {A B} (m : comp (state W) A) (f : A -> comp (state W) B)
      (st st' : state W) (b : B) :
  bind m f st = (Val b, st') ->
  exists a s1, m st = (Val a, s1) /\ f a s1 = (Val b, st').
Proof.
  unfold bind. destruct (m st) as [[a|e|] s1]; intros E; try discriminate.
  exists a, s1. split; [reflexivity|exact E].
Qed.

Lemma finally_inv {A} (m : comp (state W) A) (c : comp (state W) unit)
      (st st' : state W) (a : A) :
  finally m c st = (Val a, st') ->
  exists s1, m st = (Val a, s1) /\ c s1 = (Val tt, st').
Proof.
  unfold finally. destruct (m st) as [o s1].
  destruct (c s1) as [[[]|e|] s2] eqn:Ec; intros E; inversion E; subst.
  exists s1. split; [reflexivity|exact Ec].
Qed.

Lemma chunks_of_step (left : Z) :
  (0 < left)%Z ->
  chunks_of left = S (chunks_of (left - Z.min CHUNK_SIZE left)).
Proof.
  intros Hl. unfold chunks_of, CHUNK_SIZE.
  destruct (Z.le_gt_cases left (64 * 1024)) as [Hs|Hb].
  - rewrite Z.min_r by lia.
    replace ((left + 64 * 1024 - 1) / (64 * 1024))%Z with 1%Z
      by (apply Z.div_unique with (r := (left - 1)%Z); lia).
    replace ((left - left + 64 * 1024 - 1) / (64 * 1024))%Z with 0%Z
      by (apply Z.div_unique with (r := (64 * 1024 - 1)%Z); lia).
    reflexivity.
  - rewrite Z.min_l by lia.
    replace (left + 64 * 1024 - 1)%Z
      with ((left - 64 * 1024 + 64 * 1024 - 1) + 1 * (64 * 1024))%Z by lia.
    rewrite Z.div_add by lia.
    rewrite Z2Nat.inj_add; [|apply Z.div_pos; lia|lia].
    change (Z.to_nat 1) with 1%nat. lia.
Qed.

Lemma chunks_of_none (left : Z) : (left <= 0)%Z -> chunks_of left = 0%nat.
Proof.
  intros Hl. unfold chunks_of, CHUNK_SIZE.
  assert ((left + 64 * 1024 - 1) / (64 * 1024) <= 0)%Z.
  { apply Z.lt_succ_r. apply Z.div_lt_upper_bound; lia. }
  lia.
Qed.

(** A chunk loop that runs to its end has counted every byte that was left
    and has made one write for each chunk. *)
Lemma write_chunks_accounts (fuel : nat) (f : path) (pattern : list byte)
      (file_size written : Z) (st st' : state W) :
  (file_size - written <= Z.of_nat fuel * CHUNK_SIZE)%Z ->
  write_chunks stop_at fuel f pattern file_size written st = (Val tt, st') ->
  processed_size st' = (processed_size st + Z.max 0 (file_size - written))%Z /\
  total_size st' = total_size st /\
  exists new, log st' = new ++ log st /\
              count_writes new = chunks_of (file_size - written).
Proof.
  revert written st. induction fuel as [|fuel IH]; intros written st Hfuel E.
  - cbn [write_chunks] in E. destruct (Z.ltb_spec written file_size).
    + unfold CHUNK_SIZE in Hfuel. lia.
    + inversion E; subst. repeat split; [lia|]. exists [].
      split; [reflexivity|]. rewrite chunks_of_none by lia. reflexivity.
  - cbn [write_chunks] in E. destruct (Z.ltb_spec written file_size) as [Hlt|Hge].
    2:{ inversion E; subst. repeat split; [lia|]. exists [].
        split; [reflexivity|]. rewrite chunks_of_none by lia. reflexivity. }
    apply bind_inv in E. destruct E as (running & s1 & Ep & E).
    unfold poll in Ep. inversion Ep; subst running s1; clear Ep.
    destruct (running_at stop_at (polls st)); [|discriminate]. cbn [negb] in E.
    apply bind_inv in E. destruct E as ([] & s2 & Ew & E).
    unfold sys in Ew. destruct (exec _ _) as [[e|] w2]; [discriminate|].
    inversion Ew; subst s2; clear Ew.
    apply bind_inv in E. destruct E as ([] & s3 & Em & E).
    unfold modify in Em. inversion Em; subst s3; clear Em.
    apply bind_inv in E. destruct E as (t & s4 & Et & E).
    unfold time in Et. destruct (time_time _) as [t' w4].
    inversion Et; subst t s4; clear Et.
    apply bind_inv in E. destruct E as (due & s5 & Ed & E).
    apply bind_inv in E. destruct E as ([] & s6 & Ee & E).
    assert (Hs6 : processed_size s6
                  = (processed_size st + Z.min CHUNK_SIZE (file_size - written))%Z /\
                  total_size s6 = total_size st /\
                  exists mid, log s6 = mid ++ log st /\ count_writes mid = 1%nat).
    { unfold should_update_progress in Ed.
      destruct (Qle_bool _ _); inversion Ed; subst due s5; clear Ed.
      - apply bind_inv in Ee. destruct Ee as (pct & s7 & Epc & Ee).
        unfold total_percent in Epc. destruct (total_size _ =? 0)%Z; [discriminate|].
        inversion Epc; subst pct s7; clear Epc.
        unfold emit, modify in Ee. inversion Ee; subst s6; clear Ee.
        cbn. repeat split. eexists [_; _; _; _]. split; reflexivity.
      - inversion Ee; subst s6; clear Ee.
        cbn. repeat split. eexists [_; _; _]. split; reflexivity. }
    destruct Hs6 as (Hp6 & Ht6 & mid & Hl6 & Hc6).
    apply IH in E; [|unfold CHUNK_SIZE in *; lia].
    destruct E as (Hp & Ht & new & Hl & Hc).
    split; [|split].
    + rewrite Hp, Hp6. unfold CHUNK_SIZE. lia.
    + rewrite Ht, Ht6. reflexivity.
    + exists (new ++ mid). split.
      * rewrite Hl, Hl6. apply List.app_assoc.
      * assert (Happ : forall l1 l2, count_writes (l1 ++ l2)
                                     = (count_writes l1 + count_writes l2)%nat).
        { induction l1 as [|a l1 IHl]; intros l2; [reflexivity|].
          destruct a as [| |c r| | | |]; try (cbn; apply IHl).
          destruct c; cbn; rewrite ?IHl; reflexivity. }
        rewrite Happ, Hc, Hc6.
        rewrite (chunks_of_step (file_size - written)) by lia.
        replace (file_size - (written + Z.min CHUNK_SIZE (file_size - written)))%Z
          with (file_size - written - Z.min CHUNK_SIZE (file_size - written))%Z by lia.
        lia.
Qed.

End Accounting.

(** X7.  When the passes of a file of [file_size] bytes have all been written
    (no cancellation, no error), the counter [processed_size] has grown by
    the size of the file once for every pass, so by more than the file has
    bytes as soon as there are two passes, and each pass has made one write
    per chunk of 64 KiB; [total_size] is as before. *)
Theorem write_passes_counts_every_pass {W : Type} `{Platform W}
        (stop_at : option nat) (f : path) (file_size : Z) (i : nat)
        (passes : list (list byte)) (st st' : state W) :
  write_passes stop_at f file_size i passes st = (Val tt, st') ->
  processed_size st'
  = (processed_size st + Z.of_nat (length passes) * Z.max 0 file_size)%Z /\
  total_size st' = total_size st /\
  exists new, log st' = new ++ log st /\
              count_writes new = (length passes * chunks_of file_size)%nat.
Proof.
  revert i st. induction passes as [|pattern rest IH]; intros i st E.
  - inversion E; subst. repeat split; [cbn; lia|].
    exists []. split; reflexivity.
  - cbn [write_passes] in E.
    apply bind_inv in E. destruct E as (running & s1 & Ep & E).
    unfold poll in Ep. inversion Ep; subst running s1; clear Ep.
    destruct (running_at stop_at (polls st)); [|discriminate]. cbn [negb] in E.
    apply bind_inv in E. destruct E as ([] & s2 & Ew & E).
    unfold with_open in Ew.
    apply bind_inv in Ew. destruct Ew as ([] & s3 & Eo & Ew).
    unfold sys in Eo. destruct (exec _ _) as [[e|] w3]; [discriminate|].
    inversion Eo; subst s3; clear Eo.
    apply finally_inv in Ew. destruct Ew as (s4 & Ec & Ecl).
    apply write_chunks_accounts in Ec; [|apply chunks_fuel_enough].
    destruct Ec as (Hp4 & Ht4 & new4 & Hl4 & Hc4).
    unfold sys in Ecl. destruct (exec _ _) as [[e|] w5]; [discriminate|].
    inversion Ecl; subst s2; clear Ecl.
    apply bind_inv in E. destruct E as (pct & s6 & Epc & E).
    unfold total_percent in Epc. destruct (total_size _ =? 0)%Z; [discriminate|].
    inversion Epc; subst pct s6; clear Epc.
    apply bind_inv in E. destruct E as ([] & s7 & Ee & E).
    unfold emit, modify in Ee. inversion Ee; subst s7; clear Ee.
    apply IH in E. destruct E as (Hp & Ht & new & Hl & Hc).
    cbn in Hp, Ht, Hl, Hp4, Ht4, Hl4.
    split; [|split].
    + rewrite Hp, Hp4. rewrite Z.sub_0_r. cbn [length]. lia.
    + rewrite Ht, Ht4. reflexivity.
    + exists (new ++ Emit (Progress (percent_of (processed_size s4) (total_size s4)))
                  :: Sys (SysClose f) None :: new4
                  ++ [Sys (SysOpen f (if (0 <? i)%nat then ModeRPlusB else ModeWB)) None;
                      Poll true]).
      split.
      * rewrite Hl, Hl4. rewrite <- ?List.app_assoc. cbn [app].
        rewrite <- ?List.app_assoc. reflexivity.
      * assert (Happ : forall l1 l2, count_writes (l1 ++ l2)
                                     = (count_writes l1 + count_writes l2)%nat).
        { induction l1 as [|a l1 IHl]; intros l2; [reflexivity|].
          destruct a as [| |c r| | | |]; try (cbn; apply IHl).
          destruct c; cbn; rewrite ?IHl; reflexivity. }
        rewrite Happ. cbn [count_writes]. rewrite Happ, Hc, Hc4, Z.sub_0_r.
        destruct (0 <? i)%nat; cbn; lia.
Qed.

(** X7 on the file of 2048 bytes, with three passes: 6144 bytes counted. *)
Lemma write_passes_counts_every_pass_witness :
  let st := with_total_size 2048 (initial machine_one_file) in
  let passes := [fixed x00; fixed xff; fixed x00] in
  let st' := snd (write_passes None "f" 2048 0 passes st) in
  write_passes None "f" 2048 0 passes st = (Val tt, st') /\
  processed_size st' = 6144%Z /\ total_size st' = 2048%Z.
Proof.
  cbv zeta.
  assert (E : write_passes None "f" 2048 0 [fixed x00; fixed xff; fixed x00]
                (with_total_size 2048 (initial machine_one_file))
              = (Val tt,
                 snd (write_passes None "f" 2048 0 [fixed x00; fixed xff; fixed x00]
                        (with_total_size 2048 (initial machine_one_file)))))
    by (vm_compute; reflexivity).
  split; [exact E|].
  destruct (write_passes_counts_every_pass None "f" 2048 0 _ _ _ E) as (Hp & Ht & _).
  split; [rewrite Hp; reflexivity|rewrite Ht; reflexivity].
Defined.

(** ** Paths that are not valid *)

Section Validity.
Context {W : Type} `{Platform W}.

Lemma is_valid_file_path_val (file_path : path) (st : state W) :
  is_valid_file_path file_path st = (Val (valid_in (world st) file_path), st).
Proof. reflexivity. Qed.

(** [__init__] keeps the valid paths, in their order, and touches nothing. *)
Lemma valid_paths_filter (file_paths : list path) (st : state W) :
  valid_paths file_paths st = (Val (List.filter (valid_in (world st)) file_paths), st).
Proof.
  induction file_paths as [|f rest IH]; [reflexivity|].
  cbn [valid_paths List.filter].
  rewrite (bind_val _ _ _ _ _ (is_valid_file_path_val f st)).
  rewrite (bind_val _ _ _ _ _ IH).
  destruct (valid_in (world st) f); reflexivity.
Qed.

End Validity.

(** X8.  When none of the paths given is valid, the thread does nothing to
    the world: the list it keeps is empty, the only actions from its
    construction to the end of [run] are the two error signals (one in
    [__init__], one in [run]), the flag is never read and [run] returns
    without [Finished]. *)
Theorem erase_without_valid_paths {W : Type} `{Platform W}
        (method : string) (stop_at : option nat) (file_paths : list path) (w : W) :
  (forall p, In p file_paths -> valid_in w p = false) ->
  erase method stop_at file_paths w
  = (Returned,
     record (Emit (Error "没有有效的文件可以删除"))
       (record (Emit (Error "没有有效的文件可以删除")) (initial w))).
Proof.
  intros Hnone. unfold erase, init.
  assert (Hf : List.filter (valid_in w) file_paths = []).
  { induction file_paths as [|f rest IH]; [reflexivity|]. cbn [List.filter].
    rewrite (Hnone f) by (left; reflexivity).
    apply IH. intros p Hp. apply Hnone. right. exact Hp. }
  pose proof (valid_paths_filter file_paths (initial w)) as Ev.
  cbn [world initial] in Ev. rewrite Hf in Ev.
  unfold bind at 1. unfold bind at 1. rewrite Ev. reflexivity.
Qed.

Lemma erase_without_valid_paths_witness :
  (forall p, In p ["nowhere"] -> valid_in machine_one_file p = false) /\
  history (snd (erase METHOD_DOD3 None ["nowhere"] machine_one_file))
  = [Emit (Error "没有有效的文件可以删除"); Emit (Error "没有有效的文件可以删除")].
Proof.
  assert (Hnone : forall p, In p ["nowhere"] -> valid_in machine_one_file p = false).
  { intros p [<-|[]]. vm_compute. reflexivity. }
  split; [exact Hnone|].
  rewrite (erase_without_valid_paths METHOD_DOD3 None ["nowhere"] machine_one_file Hnone).
  reflexivity.
Defined.

(** ** The processes that hold a file *)

Section Holders.
Context {W : Type} `{Platform W}.

Lemma scan_processes_sound (procs : list process) (f : path) (acc : list process)
      (st : state W) :
  snd (scan_processes procs f acc st) = st /\
  forall found, fst (scan_processes procs f acc st) = Val found ->
    forall p, In p found ->
      In p acc \/
      (In p procs /\
       exists files file,
         proc_open_files p (world st) = inr files /\
         In file files /\ str_lower file = str_lower f).
Proof.
  revert acc. induction procs as [|proc rest IH]; intros acc.
  - cbn. split; [reflexivity|]. intros found E p Hp. inversion E; subst. auto.
  - cbn [scan_processes].
    destruct (proc_open_files proc (world st)) as [e|files] eqn:Ef.
    + destruct (exn_class_of e).
      all: try (cbn; split; [reflexivity|intros found E; discriminate]).
      all: destruct (IH acc) as [Hs Hin]; split; [exact Hs|];
        intros found E p Hp; destruct (Hin found E p Hp) as [Ha|(Hr & Hx)];
        [left; exact Ha|right; split; [right; exact Hr|exact Hx]].
    + destruct (IH (acc ++ matches_of proc files f)) as [Hs Hin].
      split; [exact Hs|]. intros found E p Hp.
      destruct (Hin found E p Hp) as [Ha|(Hr & Hx)].
      * apply in_app_or in Ha. destruct Ha as [Ha|Ha]; [left; exact Ha|].
        right. unfold matches_of in Ha. apply in_flat_map in Ha.
        destruct Ha as (file & Hfile & Hm).
        destruct (String.eqb_spec (str_lower file) (str_lower f)) as [Heq|Hne];
          [|destruct Hm].
        destruct Hm as [<-|[]]. split; [left; reflexivity|].
        exists files, file. auto.
      * right. split; [right; exact Hr|exact Hx].
Qed.

End Holders.

(** X9.  [get_processes_using_file] never raises and changes nothing; every
    process it returns is one that [psutil.process_iter] listed and that has
    an open file whose path is the path asked for, letter case apart; when
    [process_iter] raises, the answer is the empty list. *)
Theorem get_processes_using_file_is_sound {W : Type} `{Platform W}
        (f : path) (st : state W) :
  exists found,
    get_processes_using_file f st = (Val found, st) /\
    (forall e, psutil_process_iter (world st) = inl e -> found = []) /\
    forall p, In p found ->
      exists all files file,
        psutil_process_iter (world st) = inr all /\ In p all /\
        proc_open_files p (world st) = inr files /\
        In file files /\ str_lower file = str_lower f.
Proof.
  unfold get_processes_using_file, try_except, bind, query_exn.
  destruct (psutil_process_iter (world st)) as [e|all] eqn:Ei.
  - exists []. split; [reflexivity|]. split; [reflexivity|]. intros p [].
  - destruct (scan_processes_sound all f [] st) as [Hs Hin].
    destruct (scan_processes all f [] st) as [[found|e|] s1] eqn:Es;
      cbn [fst snd] in *; subst s1.
    + exists found. split; [reflexivity|]. split; [discriminate|].
      intros p Hp. destruct (Hin found eq_refl p Hp) as [[]|(Hall & files & file & Hx)].
      exists all, files, file. auto.
    + exists []. split; [reflexivity|]. split; [discriminate|]. intros p [].
    + exfalso.
      assert (Hn : forall procs acc (s : state W),
                 fst (scan_processes procs f acc s) <> Returned).
      { induction procs as [|proc rest IH]; intros acc s; cbn; [discriminate|].
        destruct (proc_open_files proc (world s)) as [e|files]; [|apply IH].
        destruct (exn_class_of e); try discriminate; apply IH. }
      apply (Hn all [] st). rewrite Es. reflexivity.
Qed.

(** ** Random names *)

Section Names.
Context {W : Type} `{Platform W}.
Hypothesis random_below_lt :
  forall n (w : W), (0 < n)%nat -> (fst (random_below n w) < n)%nat.

Lemma get_in (population : string) (i : nat) (c : ascii) :
  String.get i population = Some c -> In c (list_ascii_of_string population).
Proof.
  revert i. induction population as [|d rest IH]; intros i E; [discriminate|].
  destruct i as [|i]; cbn in *.
  - inversion E. left. reflexivity.
  - right. eapply IH. exact E.
Qed.

Lemma get_below (population : string) (i : nat) :
  (i < String.length population)%nat -> exists c, String.get i population = Some c.
Proof.
  revert i. induction population as [|d rest IH]; intros i Hi; cbn in *; [lia|].
  destruct i as [|i]; [eauto|]. apply IH. lia.
Qed.

(** With a generator whose picks are below the bound asked for, every
    character of the name drawn is one of the population. *)
Lemma random_choices_in_population (population : string) (k : nat) (st : state W) :
  population <> "" ->
  exists name st',
    random_choices population k st = (Val name, st') /\
    String.length name = k /\
    forall c, In c (list_ascii_of_string name) ->
              In c (list_ascii_of_string population).
Proof.
  intros Hne. revert st. induction k as [|k IH]; intros st.
  - exists "", st. repeat split. intros c [].
  - cbn [random_choices]. unfold bind at 1. unfold rand_below at 1.
    pose proof (random_below_lt (String.length population) (world st)) as Hlt.
    destruct (random_below (String.length population) (world st)) as [i w].
    cbn [fst] in Hlt.
    destruct (IH (record (RandIdx (String.length population) i) (with_world w st)))
      as (rest & st' & E & Ln & Hin).
    rewrite (bind_val _ _ _ _ _ E).
    assert (Hpos : (0 < String.length population)%nat).
    { destruct population; [congruence|cbn; lia]. }
    destruct (get_below population i (Hlt Hpos)) as (c & Ec). rewrite Ec.
    exists (String c rest), st'. split; [reflexivity|].
    split; [cbn; rewrite Ln; reflexivity|].
    intros d [<-|Hd]; [eapply get_in; exact Ec|apply Hin; exact Hd].
Qed.

End Names.

(** X10.  With a generator whose picks are below the bound asked for, the
    name drawn for a folder that is to be renamed has eight characters, each
    an ASCII letter or a digit. *)
Theorem folder_name_is_eight_alphanumerics {W : Type} `{Platform W} (st : state W) :
  (forall n (w : W), (0 < n)%nat -> (fst (random_below n w) < n)%nat) ->
  exists name st',
    random_choices ALNUM 8 st = (Val name, st') /\
    String.length name = 8%nat /\
    forall c, In c (list_ascii_of_string name) -> In c (list_ascii_of_string ALNUM).
Proof.
  intros Hlt. apply random_choices_in_population; [exact Hlt|discriminate].
Qed.

Lemma sim_next_index_lt (n : nat) (w : Sim.machine) :
  (0 < n)%nat -> (fst (random_below n w) < n)%nat.
Proof.
  intros Hn. cbn. unfold Sim.next_index. cbn [fst].
  pose proof (Z.mod_pos_bound (Sim.next_seed (Sim.seed w) / 65536) (Z.of_nat n)) as Hb.
  lia.
Qed.

Lemma folder_name_is_eight_alphanumerics_witness :
  (forall n (w : Sim.machine), (0 < n)%nat -> (fst (random_below n w) < n)%nat) /\
  exists name st',
    random_choices ALNUM 8 (initial machine_empty_file) = (Val name, st') /\
    String.length name = 8%nat /\
    forall c, In c (list_ascii_of_string name) -> In c (list_ascii_of_string ALNUM).
Proof.
  split; [exact sim_next_index_lt|].
  exact (folder_name_is_eight_alphanumerics (initial machine_empty_file) sim_next_index_lt).
Defined.

(** X11.  With such a generator, [generate_random_filename] returns a name of
    the length asked for, made of ASCII letters, digits and underscores; the
    fallback name is not used. *)
Theorem generate_random_filename_is_well_formed {W : Type} `{Platform W}
        (length : nat) (st : state W) :
  (forall n (w : W), (0 < n)%nat -> (fst (random_below n w) < n)%nat) ->
  exists name st',
    generate_random_filename length st = (Val name, st') /\
    String.length name = length /\
    forall c, In c (list_ascii_of_string name) ->
              In c (list_ascii_of_string FILENAME_CHARS).
Proof.
  intros Hlt.
  destruct (random_choices_in_population Hlt FILENAME_CHARS length st)
    as (name & st' & E & Ln & Hin); [discriminate|].
  exists name, st'. unfold generate_random_filename, try_except. rewrite E. auto.
Qed.

Lemma generate_random_filename_is_well_formed_witness :
  (forall n (w : Sim.machine), (0 < n)%nat -> (fst (random_below n w) < n)%nat) /\
  exists name st',
    generate_random_filename 32 (initial machine_empty_file) = (Val name, st') /\
    String.length name = 32%nat /\
    forall c, In c (list_ascii_of_string name) ->
              In c (list_ascii_of_string FILENAME_CHARS).
Proof.
  split; [exact sim_next_index_lt|].
  exact (generate_random_filename_is_well_formed 32 (initial machine_empty_file)
           sim_next_index_lt).
Defined.

(** ** The files of a directory *)

Section AllFiles.
Context {W : Type} `{Platform W}.

Lemma collect_files_val (root : path) (filenames : list string) (files : list path)
      (st : state W) :
  collect_files root filenames files st
  = (Val (files ++ List.filter (valid_in (world st)) (map (os_path_join root) filenames)),
     st).
Proof.
  revert files. induction filenames as [|name rest IH]; intros files.
  - cbn. rewrite List.app_nil_r. reflexivity.
  - cbn [collect_files map List.filter].
    rewrite (bind_val _ _ _ _ _ (is_valid_file_path_val _ st)). rewrite IH.
    destruct (valid_in (world st) (os_path_join root name));
      [rewrite <- List.app_assoc|]; reflexivity.
Qed.

Lemma collect_walk_val (triples : list (path * list string * list string))
      (files : list path) (st : state W) :
  collect_walk triples files st
  = (Val (files ++
          flat_map (fun t => List.filter (valid_in (world st))
                               (map (os_path_join (fst (fst t))) (snd t))) triples),
     st).
Proof.
  revert files. induction triples as [|[[root dirs] filenames] rest IH]; intros files.
  - cbn. rewrite List.app_nil_r. reflexivity.
  - cbn [collect_walk flat_map fst snd].
    rewrite (bind_val _ _ _ _ _ (collect_files_val root filenames files st)).
    rewrite IH, <- List.app_assoc. reflexivity.
Qed.

End AllFiles.

(** X12.  [get_all_files] never raises and changes nothing.  It returns, in
    the order of the walk, the paths [os.path.join(root, filename)] of the
    walk of the directory that are valid: every path returned is valid and
    comes from a triple of the walk, and every valid path of the walk is
    returned. *)
Theorem get_all_files_lists_the_valid_files {W : Type} `{Platform W}
        (directory : path) (st : state W) :
  exists files,
    get_all_files directory st = (Val files, st) /\
    files = flat_map (fun t => List.filter (valid_in (world st))
                                 (map (os_path_join (fst (fst t))) (snd t)))
                     (os_walk true directory (world st)) /\
    forall p, In p files <->
      valid_in (world st) p = true /\
      exists root dirs filenames filename,
        In (root, dirs, filenames) (os_walk true directory (world st)) /\
        In filename filenames /\ p = os_path_join root filename.
Proof.
  eexists. split; [|split; [reflexivity|]].
  - unfold get_all_files, try_except, bind, query.
    rewrite collect_walk_val. reflexivity.
  - intros p. rewrite in_flat_map. split.
    + intros ([[root dirs] filenames] & Ht & Hp). cbn [fst snd] in Hp.
      apply filter_In in Hp. destruct Hp as [Hp Hv]. apply in_map_iff in Hp.
      destruct Hp as (filename & <- & Hf). split; [exact Hv|].
      exists root, dirs, filenames, filename. auto.
    + intros (Hv & root & dirs & filenames & filename & Ht & Hf & ->).
      exists (root, dirs, filenames). split; [exact Ht|]. cbn [fst snd].
      apply filter_In. split; [|exact Hv]. apply in_map. exact Hf.
Qed.

(** ** The selection of the window *)

Section Selection.
Context {W : Type} `{Platform W}.
Variable os_path_basename : path -> string.

Lemma existsb_eqb_in (x : path) (l : list path) :
  existsb (String.eqb x) l = true <-> In x l.
Proof.
  rewrite existsb_exists. split.
  - intros (y & Hy & E). apply String.eqb_eq in E. subst. exact Hy.
  - intros Hx. exists x. split; [exact Hx|apply String.eqb_refl].
Qed.

Lemma add_files_loop_spec (files selected : list path) (invalid : list string)
      (added : bool) (st : state W) :
  exists new,
    add_files_loop os_path_basename files selected invalid added st
    = (Val (selected ++ new,
            invalid ++ map os_path_basename
                           (List.filter (fun p => negb (valid_in (world st) p)) files),
            added || match new with [] => false | _ => true end), st) /\
    List.NoDup new /\
    (forall p, In p new <->
               In p files /\ valid_in (world st) p = true /\ ~ In p selected) /\
    new `sublist_of` files.
Proof.
  revert selected invalid added.
  induction files as [|f rest IH]; intros selected invalid added.
  - exists []. cbn. rewrite !List.app_nil_r, orb_false_r.
    split; [reflexivity|]. split; [constructor|]. split; [|constructor].
    intros p. split; [intros []|intros [[] _]].
  - cbn [add_files_loop List.filter].
    rewrite (bind_val _ _ _ _ _ (is_valid_file_path_val f st)).
    destruct (valid_in (world st) f) eqn:Ev; cbn [negb].
    2:{ destruct (IH selected (invalid ++ [os_path_basename f]) added)
          as (new & E & Hn & Hin & Hsub).
        exists new. rewrite E, <- List.app_assoc. cbn [map app].
        split; [reflexivity|]. split; [exact Hn|]. split; [|apply sublist_cons; exact Hsub].
        intros p. rewrite Hin. cbn [In]. split.
        - intros (Hp & Hv & Hs). auto.
        - intros ([<-|Hp] & Hv & Hs); [congruence|auto]. }
    destruct (existsb (String.eqb f) selected) eqn:Ein.
    + destruct (IH selected invalid added) as (new & E & Hn & Hin & Hsub).
      exists new. rewrite E.
      split; [reflexivity|]. split; [exact Hn|]. split; [|apply sublist_cons; exact Hsub].
      intros p. rewrite Hin. cbn [In]. split.
      * intros (Hp & Hv & Hs). auto.
      * intros ([<-|Hp] & Hv & Hs); [|auto].
        exfalso. apply Hs. apply existsb_eqb_in. exact Ein.
    + destruct (IH (selected ++ [f]) invalid true) as (new & E & Hn & Hin & Hsub).
      assert (Hnot : ~ In f selected).
      { intros Hf. apply existsb_eqb_in in Hf. congruence. }
      exists (f :: new). rewrite E, <- List.app_assoc. cbn [app orb].
      rewrite orb_true_r.
      split; [reflexivity|]. split; [|split; [|apply sublist_skip; exact Hsub]].
      * constructor; [|exact Hn]. intros Hf. apply Hin in Hf.
        destruct Hf as (_ & _ & Hf). apply Hf. apply in_or_app. right. left. reflexivity.
      * intros p. cbn [In]. rewrite Hin, in_app_iff. cbn [In]. split.
        -- intros [<-|(Hp & Hv & Hs)]; [auto|]. split; [right; exact Hp|].
           split; [exact Hv|]. intros Hsel. apply Hs. left. exact Hsel.
        -- intros (Hp & Hv & Hs). destruct (String.eqb_spec f p) as [->|Hne]; [left; reflexivity|].
           right. destruct Hp as [Hp|Hp]; [congruence|].
           split; [exact Hp|]. split; [exact Hv|].
           intros [Hsel|[Hf|[]]]; [exact (Hs Hsel)|congruence].
Qed.

End Selection.

(** X13.  [add_files] appends to the selection and never repeats a path.
    The selection it leaves is the one it found followed by the paths added:
    these are the valid files given that were not selected yet, each once, in
    an order in which the files were given; so a selection without
    repetitions stays one.  [added] is set exactly when a path was added,
    and [invalid_files] holds the base names of the files given that are not
    valid, in their order.  Nothing else changes. *)
Theorem add_files_keeps_the_selection_distinct {W : Type} `{Platform W}
        (os_path_basename : path -> string) (files selected : list path)
        (st : state W) :
  exists added_paths invalid_files added,
    add_files os_path_basename files selected st
    = (Val (selected ++ added_paths, invalid_files, added), st) /\
    List.NoDup added_paths /\
    (forall p, In p added_paths <->
               In p files /\ valid_in (world st) p = true /\ ~ In p selected) /\
    added_paths `sublist_of` files /\
    (List.NoDup selected -> List.NoDup (selected ++ added_paths)) /\
    (added = true <-> added_paths <> []) /\
    invalid_files
    = map os_path_basename (List.filter (fun p => negb (valid_in (world st) p)) files).
Proof.
  destruct (add_files_loop_spec os_path_basename files selected [] false st)
    as (new & E & Hn & Hin & Hsub).
  exists new. eexists _, _. unfold add_files. split; [exact E|].
  split; [exact Hn|]. split; [exact Hin|]. split; [exact Hsub|].
  split; [|split; [|reflexivity]].
  - intros Hnd. apply NoDup_ListNoDup, NoDup_app.
    split; [apply NoDup_ListNoDup; exact Hnd|]. split; [|apply NoDup_ListNoDup; exact Hn].
    intros x Hx Hx'. apply list_elem_of_In in Hx. apply list_elem_of_In in Hx'.
    apply Hin in Hx'. destruct Hx' as (_ & _ & Hs). exact (Hs Hx).
  - cbn [orb]. destruct new; split; congruence.
Qed.

(** X14.  [remove_file] takes the first occurrence of a selected path out
    of the selection and leaves the other paths where they are, in their
    order; in a selection without repetitions the path is then gone.  A path
    that is not selected changes nothing, and removing a path that
    [add_files] has just put at the end gives the selection back. *)
Theorem remove_file_takes_the_path_out (file_path : path) (selected : list path) :
  (In file_path selected ->
   exists before after,
     selected = before ++ file_path :: after /\
     ~ In file_path before /\
     remove_file file_path selected = before ++ after) /\
  (List.NoDup selected -> ~ In file_path (remove_file file_path selected)) /\
  (forall p, p <> file_path ->
             (In p (remove_file file_path selected) <-> In p selected)) /\
  (~ In file_path selected -> remove_file file_path selected = selected) /\
  (~ In file_path selected ->
   remove_file file_path (selected ++ [file_path]) = selected).
Proof.
  assert (Hrm_not : forall l, ~ In file_path l -> list_remove file_path l = l).
  { induction l as [|y l IH]; intros Hn; [reflexivity|]. cbn.
    destruct (String.eqb_spec y file_path) as [->|Hne].
    - exfalso. apply Hn. left. reflexivity.
    - rewrite IH; [reflexivity|]. intros Hi. apply Hn. right. exact Hi. }
  assert (Hrm_in : forall l p, p <> file_path ->
                     (In p (list_remove file_path l) <-> In p l)).
  { induction l as [|y l IH]; intros p Hp; [reflexivity|]. cbn.
    destruct (String.eqb_spec y file_path) as [->|Hne].
    - split; [auto|]. intros [Heq|Hi]; [congruence|exact Hi].
    - cbn. rewrite IH by exact Hp. reflexivity. }
  assert (Hrm_split : forall l, In file_path l ->
                        exists before after,
                          l = before ++ file_path :: after /\
                          ~ In file_path before /\
                          list_remove file_path l = before ++ after).
  { induction l as [|y l IH]; intros Hi; [destruct Hi|]. cbn [list_remove].
    destruct (String.eqb_spec y file_path) as [->|Hne].
    - exists [], l. split; [reflexivity|]. split; [intros []|reflexivity].
    - destruct Hi as [Hi|Hi]; [congruence|].
      destruct (IH Hi) as (before & after & El & Hb & Er).
      exists (y :: before), after. split; [rewrite El; reflexivity|].
      split; [intros [Hy|Hy]; [congruence|exact (Hb Hy)]|].
      rewrite Er. reflexivity. }
  split.
  { intros Hi. unfold remove_file.
    replace (existsb (String.eqb file_path) selected) with true
      by (symmetry; apply existsb_eqb_in; exact Hi).
    apply Hrm_split. exact Hi. }
  unfold remove_file. repeat split.
  - intros Hnd. destruct (existsb (String.eqb file_path) selected) eqn:E.
    + clear E. induction Hnd as [|y l Hy Hnd IH]; [intros []|]. cbn.
      destruct (String.eqb_spec y file_path) as [->|Hne]; [exact Hy|].
      intros [Heq|Hi]; [congruence|exact (IH Hi)].
    + intros Hi. apply existsb_eqb_in in Hi. congruence.
  - destruct (existsb (String.eqb file_path) selected); [|auto].
    apply Hrm_in. assumption.
  - destruct (existsb (String.eqb file_path) selected); [|auto].
    intros Hi. apply Hrm_in in Hi; assumption.
  - intros Hn. destruct (existsb (String.eqb file_path) selected) eqn:E; [|reflexivity].
    apply existsb_eqb_in in E. contradiction.
  - intros Hn.
    replace (existsb (String.eqb file_path) (selected ++ [file_path])) with true.
    + induction selected as [|y l IH]; cbn.
      * rewrite String.eqb_refl. reflexivity.
      * destruct (String.eqb_spec y file_path) as [->|Hne].
        -- exfalso. apply Hn. left. reflexivity.
        -- rewrite IH; [reflexivity|]. intros Hi. apply Hn. right. exact Hi.
    + symmetry. apply existsb_eqb_in. apply in_or_app. right. left. reflexivity.
Qed.

(** ** Cancellation *)

Section GuardFacts.
Context {W : Type} `{Platform W}.
Variable stop_at : option nat.

Lemma destructive_not_harmless (a : action) :
  destructive a = true -> k_harmless (kind_of a) = false.
Proof.
  destruct a as [s| |c r| | | |]; try discriminate.
  destruct c as [p m| | | | | | | | | |]; try discriminate; try reflexivity.
  destruct m; try discriminate; reflexivity.
Qed.

Lemma calm_app (new l : list action) :
  (forall b, ~ In (Poll b) new) -> calm l -> calm (new ++ l).
Proof.
  intros Hn Hc b Hb. apply in_app_or in Hb. destruct Hb as [Hb|Hb].
  - exfalso. eapply Hn. exact Hb.
  - apply Hc. exact Hb.
Qed.

Lemma calm_tail (new l : list action) : calm (new ++ l) -> calm l.
Proof. intros Hc b Hb. apply Hc. apply in_or_app. right. exact Hb. Qed.

Lemma no_polls_of_kinds (allowed : kind -> bool) (new : list action) :
  allowed KPoll = false ->
  Forall (fun a => allowed (kind_of a) = true) new ->
  forall b, ~ In (Poll b) new.
Proof.
  intros Hp F b Hb. rewrite Forall_forall in F.
  apply list_elem_of_In in Hb. specialize (F _ Hb). cbn in F. congruence.
Qed.

Lemma safe_app_calm (new l : list action) :
  (forall b, ~ In (Poll b) new) -> calm l -> safe l -> safe (new ++ l).
Proof.
  intros Hn Hc Hs. induction new as [|a new IH]; [exact Hs|].
  cbn [app safe]. split.
  - intros _. apply calm_app; [|exact Hc]. intros b Hb. apply (Hn b). right. exact Hb.
  - apply IH. intros b Hb. apply (Hn b). right. exact Hb.
Qed.

Lemma safe_app_harmless (new l : list action) :
  Forall (fun a => k_harmless (kind_of a) = true) new -> safe l -> safe (new ++ l).
Proof.
  intros F Hs. induction F as [|a new Pa F IH]; [exact Hs|].
  cbn [app safe]. split; [|exact IH].
  intros Hd. apply destructive_not_harmless in Hd. congruence.
Qed.

(** A part that makes neither reads nor destructive actions keeps [ok]. *)
Lemma uses_ok (allowed : kind -> bool) {A} (m : comp (state W) A) :
  uses stop_at allowed m -> sub allowed k_harmless -> keeps_ok stop_at m.
Proof.
  intros Hu Hs st [Hsafe Hj]. destruct (Hu st) as (new & L & F & C & _).
  assert (F' : Forall (fun a => k_harmless (kind_of a) = true) new).
  { eapply Forall_impl; [exact F|]. intros a. apply Hs. }
  assert (Hnp : forall b, ~ In (Poll b) new)
    by (apply (no_polls_of_kinds k_harmless); [reflexivity|exact F']).
  rewrite (count_polls_none k_harmless new eq_refl F') in C.
  split.
  - rewrite L. apply safe_app_harmless; assumption.
  - rewrite L. replace (polls (snd (m st))) with (polls st) by lia.
    intros Hr. apply calm_app; auto.
Qed.

(** A part that makes no read keeps [armed]. *)
Lemma uses_armed (allowed : kind -> bool) {A} (m : comp (state W) A) :
  uses stop_at allowed m -> allowed KPoll = false ->
  forall st, armed stop_at st -> armed stop_at (snd (m st)).
Proof.
  intros Hu Hp st [[Hsafe Hj] Hc]. destruct (Hu st) as (new & L & F & C & _).
  assert (Hnp : forall b, ~ In (Poll b) new)
    by (apply (no_polls_of_kinds allowed); assumption).
  assert (Hcalm : calm (log (snd (m st)))) by (rewrite L; apply calm_app; assumption).
  split; [split|]; auto.
  rewrite L. apply safe_app_calm; assumption.
Qed.

Lemma uses_keeps_armed (allowed : kind -> bool) {A} (m : comp (state W) A) :
  uses stop_at allowed m -> allowed KPoll = false -> keeps_armed stop_at m.
Proof.
  intros Hu Hp st Ha. destruct (uses_armed allowed m Hu Hp st Ha) as [Hok Hc].
  split; [exact Hok|]. intros _ _. exact Hc.
Qed.

(** A read of the flag keeps [ok]; one that finds the flag unset arms. *)
Lemma poll_ok (st : state W) :
  ok stop_at st ->
  ok stop_at (record (Poll (running_at stop_at (polls st))) (bump_polls st)) /\
  (running_at stop_at (polls st) = true ->
   armed stop_at (record (Poll (running_at stop_at (polls st))) (bump_polls st))).
Proof.
  intros [Hsafe Hj].
  assert (Hok : ok stop_at (record (Poll (running_at stop_at (polls st)))
                                   (bump_polls st))).
  { split; cbn.
    - split; [discriminate|exact Hsafe].
    - intros Hr.
      assert (Hr' : running_at stop_at (polls st) = true)
        by (apply (running_at_earlier stop_at (polls st) (S (polls st))); [lia|exact Hr]).
      intros b [Hb|Hb]; [inversion Hb; subst b; exact Hr'|apply Hj; assumption]. }
  split; [exact Hok|]. intros Hr. split; [exact Hok|].
  cbn. intros b [Hb|Hb]; [inversion Hb; subst b; exact Hr|apply Hj; assumption].
Qed.

Lemma keeps_ok_bind {A B} (m : comp (state W) A) (f : A -> comp (state W) B) :
  keeps_ok stop_at m -> (forall a, keeps_ok stop_at (f a)) ->
  keeps_ok stop_at (bind m f).
Proof.
  intros Hm Hf st Hok. unfold bind. specialize (Hm st Hok).
  destruct (m st) as [[a|e|] s1]; cbn in *; auto. apply Hf. exact Hm.
Qed.

Lemma keeps_ok_try {A} (m : comp (state W) A) (h : exn -> comp (state W) A) :
  keeps_ok stop_at m -> (forall e, keeps_ok stop_at (h e)) ->
  keeps_ok stop_at (try_except m h).
Proof.
  intros Hm Hh st Hok. unfold try_except. specialize (Hm st Hok).
  destruct (m st) as [[a|e|] s1]; cbn in *; auto. apply Hh. exact Hm.
Qed.

Lemma keeps_armed_bind {A B} (m : comp (state W) A) (f : A -> comp (state W) B) :
  keeps_armed stop_at m -> (forall a, keeps_armed stop_at (f a)) ->
  keeps_armed stop_at (bind m f).
Proof.
  intros Hm Hf st Ha. unfold bind. destruct (Hm st Ha) as [Hok Hc].
  destruct (m st) as [[a|e|] s1]; cbn in *.
  - apply Hf. split; [exact Hok|]. apply (Hc a). reflexivity.
  - split; [exact Hok|discriminate].
  - split; [exact Hok|discriminate].
Qed.

(** From an armed state to an [ok] one: a first part that keeps [armed],
    then a part that gets from armed to [ok]. *)
Lemma armed_then {A B} (m : comp (state W) A) (f : A -> comp (state W) B) :
  keeps_armed stop_at m ->
  (forall a st, armed stop_at st -> ok stop_at (snd (f a st))) ->
  forall st, armed stop_at st -> ok stop_at (snd (bind m f st)).
Proof.
  intros Hm Hf st Ha. unfold bind. destruct (Hm st Ha) as [Hok Hc].
  destruct (m st) as [[a|e|] s1]; cbn in *; auto.
  apply Hf. split; [exact Hok|]. apply (Hc a). reflexivity.
Qed.

Lemma keeps_armed_finally {A} (m : comp (state W) A) (c : comp (state W) unit) :
  keeps_armed stop_at m -> keeps_ok stop_at c ->
  (forall st, armed stop_at st -> armed stop_at (snd (c st))) ->
  keeps_armed stop_at (finally m c).
Proof.
  intros Hm Hc Hca st Ha. unfold finally. destruct (Hm st Ha) as [Hok Hcalm].
  destruct (m st) as [o s1]. cbn [fst snd] in *.
  specialize (Hc s1 Hok).
  destruct (c s1) as [[[]|e|] s2] eqn:Ec; cbn [fst snd] in *;
    (split; [exact Hc|]); try discriminate.
  intros a ->. 
  assert (Harm : armed stop_at s1) by (split; [exact Hok|apply (Hcalm a); reflexivity]).
  specialize (Hca s1 Harm). rewrite Ec in Hca. apply Hca.
Qed.

(** A part guarded by a read of the flag: if the flag is set, [stop] runs,
    which keeps [ok] and ends with no value; else [body] runs, armed. *)
Lemma guarded_by_poll_armed {A} (stop body : comp (state W) A) :
  keeps_ok stop_at stop -> (forall st a, fst (stop st) <> Val a) ->
  keeps_armed stop_at body ->
  forall st, ok stop_at st ->
    let r := bind (poll stop_at) (fun running => if negb running then stop else body) st in
    ok stop_at (snd r) /\ (forall a, fst r = Val a -> calm (log (snd r))).
Proof.
  intros Hstop Hnv Hbody st Hok. cbv zeta. unfold bind, poll.
  destruct (poll_ok st Hok) as [Hok1 Harm1].
  destruct (running_at stop_at (polls st)); cbn [negb].
  - apply Hbody. apply Harm1. reflexivity.
  - split; [apply Hstop; exact Hok1|]. intros a Ha. exfalso. eapply Hnv. exact Ha.
Qed.

Lemma guarded_by_poll_ok {A} (stop body : comp (state W) A) :
  keeps_ok stop_at stop ->
  (forall st, armed stop_at st -> ok stop_at (snd (body st))) ->
  keeps_ok stop_at
    (bind (poll stop_at) (fun running => if negb running then stop else body)).
Proof.
  intros Hstop Hbody st Hok. unfold bind, poll.
  destruct (poll_ok st Hok) as [Hok1 Harm1].
  destruct (running_at stop_at (polls st)); cbn [negb].
  - apply Hbody. apply Harm1. reflexivity.
  - apply Hstop. exact Hok1.
Qed.

End GuardFacts.

(** A part without reads keeps [armed], a part without reads and without
    destructive actions keeps [ok]. *)
Ltac kinds_ok :=
  first [reflexivity
        | cbn;
          repeat match goal with
                 | |- context [match ?b with _ => _ end] => destruct b
                 end;
          reflexivity].

Ltac poll_free :=
  solve [apply (uses_keeps_armed _ k_no_poll);
         [unfold uses, is_valid_file_path; keep; kinds_ok|reflexivity]].

Ltac harmless :=
  solve [apply (uses_ok _ k_harmless);
         [unfold uses, is_valid_file_path; keep; kinds_ok|intros ? Hk; exact Hk]].

Ltac sub_kinds :=
  let k := fresh "k" in
  let Hk := fresh "Hk" in
  intros k Hk; destruct k; first [reflexivity | discriminate Hk].

Section GuardedEngine.
Context {W : Type} `{Platform W}.
Variable method : string.
Variable stop_at : option nat.

Lemma write_chunks_keeps_armed (fuel : nat) (f : path) (pattern : list byte)
      (file_size written : Z) :
  keeps_armed stop_at (write_chunks stop_at fuel f pattern file_size written).
Proof.
  revert written. induction fuel as [|fuel IH]; intros written; cbn [write_chunks];
    destruct (written <? file_size)%Z; try poll_free.
  intros st Harm.
  apply (guarded_by_poll_armed stop_at return_);
    [harmless|intros ? ?; cbn; discriminate| |apply Harm].
  cbv zeta. repeat (apply keeps_armed_bind; [poll_free|intros ?]).
  apply IH.
Qed.

Lemma with_open_keeps_armed {A} (p : path) (m : open_mode) (body : comp (state W) A) :
  keeps_armed stop_at body -> keeps_armed stop_at (with_open p m body).
Proof.
  intros Hb. unfold with_open. apply keeps_armed_bind; [poll_free|intros _].
  apply keeps_armed_finally; [exact Hb|harmless|].
  apply (uses_armed stop_at k_no_poll); [unfold uses; keep; kinds_ok|reflexivity].
Qed.

(** The passes of one file: each starts with a read of the flag, so a pass
    list that is not empty leaves no read that found the flag set when it
    ends with a value. *)
Lemma write_passes_guard (f : path) (file_size : Z) (i : nat)
      (passes : list (list byte)) (st : state W) :
  ok stop_at st ->
  let r := write_passes stop_at f file_size i passes st in
  ok stop_at (snd r) /\
  (forall a, fst r = Val a -> passes <> [] \/ calm (log st) -> calm (log (snd r))).
Proof.
  revert i st. induction passes as [|pattern rest IH]; intros i st Hok; cbv zeta;
    cbn [write_passes].
  - split; [exact Hok|]. intros a _ [Hne|Hc]; [congruence|exact Hc].
  - lazymatch goal with
    | |- ok _ (snd ?r) /\ _ =>
        cut (ok stop_at (snd r) /\ (forall a, fst r = Val a -> calm (log (snd r))))
    end.
    { intros [G1 G2]. split; [exact G1|]. intros x Hx _. exact (G2 x Hx). }
    apply (guarded_by_poll_armed stop_at return_);
      [harmless|intros ? ?; cbn; discriminate| |exact Hok].
    apply keeps_armed_bind;
      [apply with_open_keeps_armed, write_chunks_keeps_armed|intros _].
    repeat (apply keeps_armed_bind; [poll_free|intros ?]).
    intros s [Hs Hc]. destruct (IH (Datatypes.S i) s Hs) as [G1 G2].
    split; [exact G1|]. intros x Hx. apply (G2 x Hx). right. exact Hc.
Qed.

(** Whatever the method, the pass list has a pass. *)
Lemma get_passes_nonempty (st : state W) :
  exists passes st', get_passes method st = (Val passes, st') /\ passes <> [].
Proof.
  unfold get_passes.
  destruct (String.eqb method METHOD_DOD3).
  { unfold random_pattern.
    destruct (random_bytes_val 1024 st) as (r & st1 & E1 & L1).
    rewrite (bind_val _ _ _ _ _ E1). eexists _, _. split; [reflexivity|discriminate]. }
  destruct (String.eqb method METHOD_DOD7).
  { unfold random_pattern.
    destruct (random_bytes_val 1024 st) as (r1 & st1 & E1 & L1).
    rewrite (bind_val _ _ _ _ _ E1).
    destruct (random_bytes_val 1024 st1) as (r2 & st2 & E2 & L2).
    rewrite (bind_val _ _ _ _ _ E2). eexists _, _. split; [reflexivity|discriminate]. }
  destruct (String.eqb method METHOD_GUTMANN).
  { cbv zeta.
    destruct (times_random_pattern_val 4 st) as (rs & st1 & E1 & L1 & F1).
    rewrite (bind_val _ _ _ _ _ E1).
    destruct (times_random_pattern_val 6 st1) as (rs' & st2 & E2 & L2 & F2).
    rewrite (bind_val _ _ _ _ _ E2). eexists _, _. split; [reflexivity|].
    cbn [replicate app]. discriminate. }
  destruct (String.eqb method METHOD_VSITR).
  { unfold random_pattern.
    destruct (random_bytes_val 1024 st) as (r1 & st1 & E1 & L1).
    rewrite (bind_val _ _ _ _ _ E1).
    destruct (random_bytes_val 1024 st1) as (r2 & st2 & E2 & L2).
    rewrite (bind_val _ _ _ _ _ E2). eexists _, _. split; [reflexivity|discriminate]. }
  eexists _, _. split; [reflexivity|discriminate].
Qed.

Lemma shred_file_keeps_ok (f : path) : keeps_ok stop_at (shred_file method stop_at f).
Proof.
  unfold shred_file. apply keeps_ok_try; [|intros e; harmless].
  apply keeps_ok_bind; [harmless|intros file_size].
  intros st Hok.
  assert (Hg : keeps_ok stop_at (get_passes (W:=W) method)).
  { apply (uses_ok _ k_harmless); [|intros ? Hk; exact Hk].
    apply get_passes_uses. sub_kinds. }
  destruct (get_passes_nonempty st) as (passes & st1 & E & Hne).
  specialize (Hg st Hok). rewrite E in Hg. cbn [snd] in Hg.
  rewrite (bind_val _ _ _ _ _ E). unfold bind.
  destruct (write_passes_guard f file_size 0 passes st1 Hg) as [H1 H2].
  destruct (write_passes stop_at f file_size 0 passes st1) as [[[]|e|] s2];
    cbn [fst snd] in *; try exact H1.
  assert (Harm : armed stop_at s2).
  { split; [exact H1|]. apply (H2 tt eq_refl). left. exact Hne. }
  apply (uses_armed stop_at k_no_poll); [unfold uses; keep; kinds_ok|reflexivity|exact Harm].
Qed.

Lemma shred_files_in_keeps_ok (root : path) (files : list string) :
  keeps_ok stop_at (shred_files_in method stop_at root files).
Proof.
  induction files as [|file rest IH]; cbn [shred_files_in]; [harmless|]. cbv zeta.
  apply keeps_ok_bind; [harmless|intros valid].
  apply keeps_ok_bind; [|intros _; exact IH].
  destruct valid; [|harmless].
  apply keeps_ok_bind; [harmless|intros _]. apply shred_file_keeps_ok.
Qed.

Lemma shred_walk_keeps_ok (triples : list (path * list string * list string))
      (folders : gset path) :
  keeps_ok stop_at (shred_walk method stop_at triples folders).
Proof.
  revert folders.
  induction triples as [|[[root dirs] files] rest IH]; intros folders;
    cbn [shred_walk]; [harmless|].
  apply keeps_ok_bind; [apply shred_files_in_keeps_ok|intros _].
  apply keeps_ok_bind; [|intros ?; apply IH].
  apply (uses_ok _ k_harmless); [apply record_subfolders_uses|intros ? Hk; exact Hk].
Qed.

Lemma resolve_locks_keeps_armed (file_path : path) :
  keeps_armed stop_at (resolve_locks (W:=W) file_path).
Proof.
  apply (uses_keeps_armed _ k_no_poll); [|reflexivity].
  apply resolve_locks_uses. sub_kinds.
Qed.

Lemma process_paths_keeps_ok (idx : nat) (file_paths : list path) (folders : gset path) :
  keeps_ok stop_at (process_paths method stop_at idx file_paths folders).
Proof.
  revert idx folders.
  induction file_paths as [|file_path rest IH]; intros idx folders;
    cbn [process_paths]; [harmless|].
  apply guarded_by_poll_ok; [harmless|].
  apply armed_then; [poll_free|intros _; cbv beta].
  apply armed_then; [poll_free|intros valid; cbv beta].
  destruct valid; cbn [negb].
  2:{ intros st Harm. apply IH. apply Harm. }
  apply armed_then; [poll_free|intros is_dir; cbv beta].
  destruct is_dir.
  - cbv zeta. apply armed_then; [poll_free|intros triples; cbv beta].
    intros st Harm.
    apply keeps_ok_bind; [apply shred_walk_keeps_ok|intros ?; apply IH|apply Harm].
  - apply armed_then; [poll_free|intros _; cbv beta].
    apply armed_then; [apply resolve_locks_keeps_armed|intros _; cbv beta].
    intros st Harm.
    apply keeps_ok_bind; [apply shred_file_keeps_ok|intros ?; apply IH|apply Harm].
Qed.

Lemma poll_keeps_ok : keeps_ok stop_at (poll (W:=W) stop_at).
Proof. intros st Hok. exact (proj1 (poll_ok stop_at st Hok)). Qed.

Lemma run_keeps_ok (file_paths : list path) :
  keeps_ok stop_at (run method stop_at file_paths).
Proof.
  unfold run. apply keeps_ok_try; [|intros e; harmless]. cbv zeta.
  destruct (length file_paths =? 0)%nat; [harmless|].
  apply keeps_ok_bind; [|intros _].
  { apply (uses_ok _ k_harmless); [apply sizing_uses|intros ? Hk; exact Hk]. }
  apply keeps_ok_bind; [apply process_paths_keeps_ok|intros folders].
  apply keeps_ok_bind; [|intros _].
  { apply (uses_ok _ k_harmless); [|intros ? Hk; exact Hk].
    apply remove_folders_uses. sub_kinds. }
  apply keeps_ok_bind; [apply poll_keeps_ok|intros running].
  destruct running; harmless.
Qed.

Lemma erase_is_safe (file_paths : list path) (w : W) :
  safe (log (snd (erase method stop_at file_paths w))).
Proof.
  assert (H0 : ok stop_at (initial w)).
  { split; [exact I|]. intros _ b []. }
  assert (Hk : keeps_ok stop_at
                 (bind (init (W:=W) file_paths) (run method stop_at))).
  { apply keeps_ok_bind; [|intros fps; apply run_keeps_ok].
    apply (uses_ok _ k_harmless); [apply init_uses; reflexivity|intros ? Hk; exact Hk]. }
  apply (Hk (initial w) H0).
Qed.

End GuardedEngine.

Lemma safe_at (l1 l2 : list action) (a : action) :
  safe (l1 ++ a :: l2) -> destructive a = true -> calm l2.
Proof.
  induction l1 as [|x l1 IH]; cbn [app safe]; intros [H1 H2] Hd; auto.
Qed.

(** X15.  Cancellation stops the destruction of files.  In the history of the
    thread, from its construction to the end of [run], whatever the method,
    the paths, the platform and the moment at which [stop()] sets the flag:
    before every action that opens a file for overwriting ([wb] or [r+b]),
    writes to it, removes it, or terminates or kills a process, every read
    of [self._is_running] found it [True].  So once a read has found the flag
    set, no file is overwritten or removed and no process is ended.  (The
    removal of the folders is not among these actions: [run] has no read of
    the flag in its second loop.) *)
Theorem no_file_is_destroyed_after_a_cancelled_read {W : Type} `{Platform W}
        (method : string) (stop_at : option nat) (file_paths : list path) (w : W)
        (pre post : list action) (a : action) :
  history (snd (erase method stop_at file_paths w)) = pre ++ a :: post ->
  destructive a = true ->
  Forall (fun x => x <> Poll false) pre.
Proof.
  intros Hh Hd.
  pose proof (erase_is_safe method stop_at file_paths w) as Hs.
  unfold history in Hh. apply (f_equal (@rev action)) in Hh.
  rewrite rev_involutive, rev_app_distr in Hh. cbn [rev] in Hh.
  rewrite <- List.app_assoc in Hh. cbn [app] in Hh.
  rewrite Hh in Hs. pose proof (safe_at _ _ _ Hs Hd) as Hc.
  apply Forall_forall. intros x Hx ->.
  specialize (Hc false). apply list_elem_of_In in Hx.
  assert (Hf : false = true) by (apply Hc, in_rev; rewrite rev_involutive; exact Hx).
  discriminate Hf.
Qed.

(** X15 on the file of two chunks with a [stop()] that the read before the
    second chunk finds: the write of the first chunk comes after three reads
    that found the flag unset, and nothing destructive follows the fourth. *)
Lemma no_file_is_destroyed_after_a_cancelled_read_witness :
  let h := history (snd (erase METHOD_SIMPLE (Some 3%nat) ["f"] machine_two_chunks)) in
  let a := Sys (SysWrite "f" (generate_pattern (fixed x00) CHUNK_SIZE)) None in
  (h = firstn 7 h ++ a :: skipn 8 h /\ destructive a = true) /\
  Forall (fun x => x <> Poll false) (firstn 7 h).
Proof.
  cbv zeta.
  assert (H1 : history (snd (erase METHOD_SIMPLE (Some 3%nat) ["f"] machine_two_chunks))
               = firstn 7 (history (snd (erase METHOD_SIMPLE (Some 3%nat) ["f"]
                                               machine_two_chunks)))
                 ++ Sys (SysWrite "f" (generate_pattern (fixed x00) CHUNK_SIZE)) None
                 :: skipn 8 (history (snd (erase METHOD_SIMPLE (Some 3%nat) ["f"]
                                                 machine_two_chunks))))
    by (vm_compute; reflexivity).
  assert (H2 : destructive (Sys (SysWrite "f" (generate_pattern (fixed x00) CHUNK_SIZE))
                                None) = true) by reflexivity.
  split; [split; [exact H1|exact H2]|].
  exact (no_file_is_destroyed_after_a_cancelled_read
           METHOD_SIMPLE (Some 3%nat) ["f"] machine_two_chunks _ _ _ H1 H2).
Defined.

(** ** The end of a run *)

Lemma split_at_last {A} (x : A) (l pre post : list A) :
  Forall (fun y => y <> x) l -> l ++ [x] = pre ++ x :: post -> post = [] /\ pre = l.
Proof.
  revert pre. induction l as [|a l IH]; intros pre F E.
  - destruct pre as [|y pre]; cbn in E.
    + inversion E. split; reflexivity.
    + inversion E as [[Hy E']]. destruct pre; discriminate E'.
  - apply Forall_cons in F. destruct F as [Ha F].
    destruct pre as [|y pre]; cbn in E.
    + inversion E. congruence.
    + inversion E as [[Hy E']]. destruct (IH pre F E') as [Hp Hl].
      split; [exact Hp|]. rewrite Hl. reflexivity.
Qed.

(** X16.  [finished] ends the run.  If the thread emits [finished] then it
    is the last action of the thread, it is emitted once, and the action
    just before it is the read of [self._is_running] of line 375, which found
    the flag unset: no progress, error or status signal and no system call
    comes after [finished]. *)
Theorem finished_is_the_last_action {W : Type} `{Platform W}
        (method : string) (stop_at : option nat) (file_paths : list path) (w : W)
        (pre post : list action) :
  history (snd (erase method stop_at file_paths w)) = pre ++ Emit Finished :: post ->
  post = [] /\
  Forall (fun x => x <> Emit Finished) pre /\
  exists pre', pre = pre' ++ [Poll true].
Proof.
  unfold erase, history. intros Hh.
  assert (Hnot : forall st : state W,
            step stop_at (fun a => k_not_finished (kind_of a) = true) (initial w) st ->
            Forall (fun x => x <> Emit Finished) (rev (log st))).
  { intros st (new & L & F & _). rewrite L. cbn. rewrite List.app_nil_r.
    apply Forall_forall. intros x Hx ->. rewrite Forall_forall in F.
    apply list_elem_of_In, in_rev, list_elem_of_In in Hx.
    specialize (F _ Hx). discriminate F. }
  assert (Hfin : forall l : list action,
            Forall (fun x => x <> Emit Finished) l -> l <> pre ++ Emit Finished :: post).
  { intros l F E. rewrite E in F. apply Forall_app in F. destruct F as [_ F].
    apply Forall_cons in F. destruct F as [F _]. congruence. }
  pose proof (init_uses stop_at k_not_finished file_paths eq_refl (initial w)) as S0.
  unfold bind in *.
  destruct (init file_paths (initial w)) as [[fps|e|] s0]; cbn [snd] in *;
    try (exfalso; eapply Hfin; [apply Hnot; exact S0|exact Hh]).
  destruct (run_finishes_or_not method stop_at fps s0) as [(s2 & S2 & Er & E)|S2];
    cbv zeta in *.
  2:{ exfalso. eapply Hfin; [apply Hnot; eapply step_trans; eassumption|exact Hh]. }
  rewrite E in Hh. cbn in Hh.
  assert (S : step stop_at (fun a => k_not_finished (kind_of a) = true) (initial w) s2)
    by (eapply step_trans; eauto).
  apply Hnot in S.
  assert (F : Forall (fun x => x <> Emit Finished) (rev (log s2) ++ [Poll true])).
  { apply Forall_app. split; [exact S|]. constructor; [discriminate|constructor]. }
  destruct (split_at_last _ _ _ _ F Hh) as [Hp Hl].
  split; [exact Hp|]. split; [rewrite Hl; exact F|].
  exists (rev (log s2)). exact Hl.
Qed.

(** X16 on the machine with one file, never cancelled. *)
Lemma finished_is_the_last_action_witness :
  let h := history (snd (erase METHOD_SIMPLE None ["f"] machine_one_file)) in
  h = removelast h ++ Emit Finished :: [] /\
  ([] : list action) = [] /\
  Forall (fun x => x <> Emit Finished) (removelast h) /\
  exists pre', removelast h = pre' ++ [Poll true].
Proof.
  cbv zeta.
  assert (Hh : history (snd (erase METHOD_SIMPLE None ["f"] machine_one_file))
               = removelast (history (snd (erase METHOD_SIMPLE None ["f"]
                                                 machine_one_file)))
                 ++ Emit Finished :: []) by (vm_compute; reflexivity).
  split; [exact Hh|].
  exact (finished_is_the_last_action METHOD_SIMPLE None ["f"] machine_one_file _ _ Hh).
Defined.

(** ** The start of a run *)

(** The sizing of the batch only asks the platform: it performs no action. *)
Lemma sizing_is_silent {W : Type} `{Platform W} (file_paths : list path) (st : state W) :
  log (snd (sizing file_paths st)) = log st /\ polls (snd (sizing file_paths st)) = polls st.
Proof.
  destruct (sizing_uses None k_none file_paths st) as (new & L & F & C & _).
  destruct new as [|a new]; [|apply Forall_cons in F; destruct F as [F _]; discriminate F].
  cbn [app count_polls] in L, C. rewrite Nat.add_0_r in C. split; [exact L|exact C].
Qed.

(** X17.  A failure while the sizes of the batch are added up is fatal and
    harmless.  If [os.path.getsize] raises [e] in lines 161-171 then [run]
    emits the error signal with the text of [e] behind the fixed prefix and
    ends: this signal is its only action, so no file is opened, written or
    removed, no folder is touched and [finished] is not emitted. *)
Theorem a_failure_while_sizing_is_fatal {W : Type} `{Platform W}
        (method : string) (stop_at : option nat) (file_paths : list path)
        (st : state W) (e : exn) :
  file_paths <> [] ->
  fst (sizing file_paths st) = Exc e ->
  fst (run method stop_at file_paths st) = Val tt /\
  history (snd (run method stop_at file_paths st))
  = history st ++ [Emit (Error ("粉碎过程中发生错误: " ++ exn_str e))].
Proof.
  intros Hne He. rewrite run_cases by exact Hne. cbv zeta.
  destruct (sizing_is_silent file_paths st) as [Hl _].
  destruct (sizing file_paths st) as [[[]|e'|] s0]; cbn [fst snd] in *; try discriminate He.
  inversion He; subst e'. unfold history. cbn. rewrite Hl. split; reflexivity.
Qed.

(** X17 on the platform whose file sizes cannot be read. *)
Lemma a_failure_while_sizing_is_fatal_witness :
  let st := initial machine_one_file in
  let e := Exn OSError "Permission denied" in
  (["f"] <> ([] : list path) /\
   fst (@sizing _ platform_unreadable ["f"] st) = Exc e) /\
  fst (@run _ platform_unreadable METHOD_SIMPLE None ["f"] st) = Val tt /\
  history (snd (@run _ platform_unreadable METHOD_SIMPLE None ["f"] st))
  = history st ++ [Emit (Error ("粉碎过程中发生错误: " ++ exn_str e))].
Proof.
  cbv zeta.
  assert (H1 : ["f"] <> ([] : list path)) by discriminate.
  assert (H2 : fst (@sizing _ platform_unreadable ["f"] (initial machine_one_file))
               = Exc (Exn OSError "Permission denied")) by reflexivity.
  split; [split; [exact H1|exact H2]|].
  exact (@a_failure_while_sizing_is_fatal _ platform_unreadable METHOD_SIMPLE None ["f"]
           (initial machine_one_file) _ H1 H2).
Defined.

(** X18.  A thread that is stopped before [run] reads the flag does nothing.
    If [stop()] has set the flag by the first read of [self._is_running] (the
    one of line 181, for the first path) then [run], once the sizes are added
    up, makes that read, emits the error signal of the cancellation and
    returns: these are its only two actions, so no path is touched, no
    folder is removed and [finished] is not emitted. *)
Theorem stopped_before_the_first_read {W : Type} `{Platform W}
        (method : string) (stop_at : option nat) (file_paths : list path)
        (st : state W) :
  file_paths <> [] ->
  fst (sizing file_paths st) = Val tt ->
  running_at stop_at (polls st) = false ->
  fst (run method stop_at file_paths st) = Returned /\
  history (snd (run method stop_at file_paths st))
  = history st ++ [Poll false; Emit (Error "操作已取消")].
Proof.
  intros Hne Hs Hr. rewrite run_cases by exact Hne. cbv zeta.
  destruct (sizing_is_silent file_paths st) as [Hl Hp].
  destruct (sizing file_paths st) as [[[]|e'|] s0]; cbn [fst snd] in *; try discriminate Hs.
  destruct file_paths as [|p rest]; [congruence|].
  assert (E : process_paths method stop_at 0 (p :: rest) ∅ s0
              = (Returned,
                 record (Emit (Error "操作已取消")) (record (Poll false) (bump_polls s0)))).
  { cbn [process_paths]. unfold bind at 1. unfold poll at 1. rewrite Hp, Hr. reflexivity. }
  rewrite E. unfold history. cbn. rewrite Hl. rewrite <- List.app_assoc.
  split; reflexivity.
Qed.

(** X18 on the machine with one file, stopped at once. *)
Lemma stopped_before_the_first_read_witness :
  let st := initial machine_one_file in
  (["f"] <> ([] : list path) /\
   fst (sizing ["f"] st) = Val tt /\
   running_at (Some 0%nat) (polls st) = false) /\
  fst (run METHOD_SIMPLE (Some 0%nat) ["f"] st) = Returned /\
  history (snd (run METHOD_SIMPLE (Some 0%nat) ["f"] st))
  = history st ++ [Poll false; Emit (Error "操作已取消")].
Proof.
  cbv zeta.
  assert (H1 : ["f"] <> ([] : list path)) by discriminate.
  assert (H2 : fst (sizing ["f"] (initial machine_one_file)) = Val tt) by reflexivity.
  assert (H3 : running_at (Some 0%nat) (polls (initial machine_one_file)) = false)
    by reflexivity.
  split; [split; [exact H1|split; [exact H2|exact H3]]|].
  exact (stopped_before_the_first_read METHOD_SIMPLE (Some 0%nat) ["f"]
           (initial machine_one_file) H1 H2 H3).
Defined.

(** ** A run that is never cancelled *)

Section NeverCancelled.
Context {W : Type} `{Platform W}.

Lemma no_return_modify (f : state W -> state W) : no_return (modify f).
Proof. intros st. discriminate. Qed.

Lemma no_return_query_exn {A} (f : W -> exn + A) : no_return (query_exn (W:=W) f).
Proof. intros st. unfold query_exn. destruct (f (world st)); discriminate. Qed.

Lemma no_return_time : no_return (time (W:=W)).
Proof. intros st. unfold time. destruct (time_time (world st)). discriminate. Qed.

Lemma no_return_randint_byte : no_return (randint_byte (W:=W)).
Proof.
  intros st. unfold randint_byte. destruct (random_randint_byte (world st)). discriminate.
Qed.

Lemma no_return_should_update_progress (t : Q) :
  no_return (should_update_progress (W:=W) t).
Proof. intros st. unfold should_update_progress. destruct (Qle_bool _ _); discriminate. Qed.

Lemma no_return_total_percent : no_return (total_percent (W:=W)).
Proof. intros st. unfold total_percent. destruct (_ =? _)%Z; discriminate. Qed.

Lemma no_return_finally {A} (m : comp (state W) A) (c : comp (state W) unit) :
  no_return m -> no_return c -> no_return (finally m c).
Proof.
  intros Hm Hc st. unfold finally. specialize (Hm st).
  destruct (m st) as [o s1]. specialize (Hc s1).
  destruct (c s1) as [[[]|e|] s2]; cbn in *; congruence.
Qed.

(** With a flag that is never set, the [return] behind a read of it is dead. *)
Lemma no_return_guard {A} (stop body : comp (state W) A) :
  no_return body ->
  no_return (bind (poll None) (fun running => if negb running then stop else body)).
Proof. intros Hb st. unfold bind, poll. cbn. apply Hb. Qed.

End NeverCancelled.

Ltac nr_step :=
  lazymatch goal with
  | |- no_return (bind (poll None) _) => apply no_return_guard
  | |- no_return (modify _) => apply no_return_modify
  | |- no_return (query_exn _) => apply no_return_query_exn
  | |- no_return time => apply no_return_time
  | |- no_return randint_byte => apply no_return_randint_byte
  | |- no_return (should_update_progress _) => apply no_return_should_update_progress
  | |- no_return total_percent => apply no_return_total_percent
  | |- no_return (finally _ _) => apply no_return_finally
  | |- _ => no_return_step
  end.

Ltac nr := repeat nr_step.

Section NeverCancelledEngine.
Context {W : Type} `{Platform W}.
Variable method : string.

Lemma no_return_random_bytes (n : nat) : no_return (random_bytes (W:=W) n).
Proof. induction n as [|n IH]; cbn [random_bytes]; nr. exact IH. Qed.

Lemma no_return_times {A} (n : nat) (m : comp (state W) A) :
  no_return m -> no_return (times n m).
Proof. intros Hm. induction n as [|n IH]; cbn [times]; nr; assumption. Qed.

Lemma no_return_get_passes : no_return (get_passes (W:=W) method).
Proof.
  unfold get_passes, random_pattern.
  repeat match goal with
         | |- context [String.eqb ?a ?b] => destruct (String.eqb a b)
         end;
    nr; try apply no_return_times; apply no_return_random_bytes.
Qed.

Lemma no_return_write_chunks (fuel : nat) (f : path) (pattern : list byte)
      (file_size written : Z) :
  no_return (write_chunks None fuel f pattern file_size written).
Proof.
  revert written. induction fuel as [|fuel IH]; intros written; cbn [write_chunks];
    destruct (written <? file_size)%Z; nr. apply IH.
Qed.

Lemma no_return_write_passes (f : path) (file_size : Z) (i : nat)
      (passes : list (list byte)) :
  no_return (write_passes None f file_size i passes).
Proof.
  revert i. induction passes as [|pattern rest IH]; intros i; cbn [write_passes]; nr.
  - unfold with_open. nr. apply no_return_write_chunks.
  - apply IH.
Qed.

Lemma no_return_shred_file (f : path) : no_return (shred_file method None f).
Proof.
  unfold shred_file. nr; [apply no_return_get_passes|apply no_return_write_passes].
Qed.

Lemma no_return_scan_processes (procs : list process) (f : path) (acc : list process) :
  no_return (scan_processes (W:=W) procs f acc).
Proof.
  revert acc. induction procs as [|proc rest IH]; intros acc; cbn [scan_processes]; [nr|].
  intros st. destruct (proc_open_files proc (world st)) as [e|files]; [|apply IH].
  destruct (exn_class_of e); try apply IH; discriminate.
Qed.

Lemma no_return_terminate_all (processes : list process) :
  no_return (terminate_all (W:=W) processes).
Proof.
  induction processes as [|proc rest IH]; cbn [terminate_all]; nr; [|exact IH].
  unfold terminate_process. nr.
Qed.

Lemma no_return_resolve_locks (file_path : path) :
  no_return (resolve_locks (W:=W) file_path).
Proof.
  unfold resolve_locks, is_file_in_use, get_processes_using_file. nr;
    first [apply no_return_scan_processes|apply no_return_terminate_all].
Qed.

Lemma no_return_shred_files_in (root : path) (files : list string) :
  no_return (shred_files_in method None root files).
Proof.
  induction files as [|file rest IH]; cbn [shred_files_in]; unfold is_valid_file_path;
    nr; first [apply no_return_shred_file|exact IH].
Qed.

Lemma no_return_record_subfolders (root : path) (dirs : list string)
      (folders : gset path) :
  no_return (record_subfolders (W:=W) root dirs folders).
Proof.
  revert folders. induction dirs as [|d rest IH]; intros folders;
    cbn [record_subfolders]; nr. apply IH.
Qed.

Lemma no_return_shred_walk (triples : list (path * list string * list string))
      (folders : gset path) :
  no_return (shred_walk method None triples folders).
Proof.
  revert folders.
  induction triples as [|[[root dirs] files] rest IH]; intros folders;
    cbn [shred_walk]; nr;
    first [apply no_return_shred_files_in|apply no_return_record_subfolders|apply IH].
Qed.

Lemma no_return_process_paths (idx : nat) (file_paths : list path)
      (folders : gset path) :
  no_return (process_paths method None idx file_paths folders).
Proof.
  revert idx folders.
  induction file_paths as [|file_path rest IH]; intros idx folders;
    cbn [process_paths]; unfold is_valid_file_path; nr;
    first [apply IH|apply no_return_shred_walk|apply no_return_resolve_locks
          |apply no_return_shred_file].
Qed.

Lemma no_return_size_files (dirpath : path) (filenames : list string) :
  no_return (size_files (W:=W) dirpath filenames).
Proof.
  induction filenames as [|f rest IH]; cbn [size_files]; unfold add_total_size; nr.
  exact IH.
Qed.

Lemma no_return_size_walk (triples : list (path * list string * list string)) :
  no_return (size_walk (W:=W) triples).
Proof.
  induction triples as [|[[dirpath dirs] filenames] rest IH]; cbn [size_walk]; nr;
    [apply no_return_size_files|exact IH].
Qed.

Lemma no_return_sizing (file_paths : list path) : no_return (sizing (W:=W) file_paths).
Proof.
  unfold sizing. nr.
  induction file_paths as [|p rest IH]; cbn [size_paths]; unfold add_total_size; nr;
    first [apply no_return_size_walk|exact IH].
Qed.

End NeverCancelledEngine.

(** X19.  A run that is never cancelled tells the window how it ended.  When
    at least one of the paths given is valid and [stop()] is never called,
    the last action of the thread is a signal: [finished], or the error
    signal of the outer handler of [run] with the text of the exception
    that ended the run.  Such a run never ends without a word. *)
Theorem a_run_never_cancelled_ends_with_a_signal {W : Type} `{Platform W}
        (method : string) (file_paths : list path) (w : W) :
  List.filter (valid_in w) file_paths <> [] ->
  let h := history (snd (erase method None file_paths w)) in
  (exists pre, h = pre ++ [Emit Finished]) \/
  (exists pre e, h = pre ++ [Emit (Error ("粉碎过程中发生错误: " ++ exn_str e))]).
Proof.
  intros Hne. cbv zeta.
  pose proof (valid_paths_filter file_paths (initial w)) as Ev.
  cbn [world initial] in Ev.
  destruct (List.filter (valid_in w) file_paths) as [|p vps] eqn:Ef; [congruence|].
  assert (Hrun : erase method None file_paths w = run method None (p :: vps) (initial w)).
  { unfold erase, init. unfold bind at 1. unfold bind at 1. rewrite Ev. reflexivity. }
  rewrite Hrun. unfold history. rewrite run_cases by discriminate. cbv zeta.
  pose proof (no_return_sizing (p :: vps) (initial w)) as Hs.
  destruct (sizing (p :: vps) (initial w)) as [[[]|e|] s0]; cbn [fst] in Hs;
    [|right; exists (rev (log s0)), e; reflexivity|congruence].
  pose proof (no_return_process_paths method 0 (p :: vps) ∅ s0) as Hp.
  destruct (process_paths method None 0 (p :: vps) ∅ s0) as [[folders|e|] s1];
    cbn [fst] in Hp; [|right; exists (rev (log s1)), e; reflexivity|congruence].
  rewrite remove_folders_fold. cbn.
  left. eexists. reflexivity.
Qed.

(** X19 on the machine with one file. *)
Lemma a_run_never_cancelled_ends_with_a_signal_witness :
  let h := history (snd (erase METHOD_SIMPLE None ["f"] machine_one_file)) in
  List.filter (valid_in machine_one_file) ["f"] <> [] /\
  ((exists pre, h = pre ++ [Emit Finished]) \/
   (exists pre e, h = pre ++ [Emit (Error ("粉碎过程中发生错误: " ++ exn_str e))])).
Proof.
  cbv zeta.
  assert (H1 : List.filter (valid_in machine_one_file) ["f"] <> []) by discriminate.
  split; [exact H1|].
  exact (a_run_never_cancelled_ends_with_a_signal METHOD_SIMPLE ["f"] machine_one_file H1).
Defined.

(** ** The files a run acts on *)

Section FilesTouched.
Context {W : Type} `{Platform W}.
Variable stop_at : option nat.

Lemma no_file_kind (a : action) : k_no_file (kind_of a) = true -> file_of a = None.
Proof.
  destruct a as [s| |c r| | | |]; try reflexivity.
  destruct c as [p m| | | | | | | | | |]; try reflexivity; try discriminate.
  destruct m; discriminate.
Qed.

Lemma uses_only_files (S : path -> Prop) (allowed : kind -> bool) {A}
      (m : comp (state W) A) :
  uses stop_at allowed m -> sub allowed k_no_file -> keeps stop_at (only_files S) m.
Proof.
  intros Hu Hs st. eapply step_mono; [|apply Hu]. intros a Ha p Hp.
  rewrite (no_file_kind a) in Hp; [discriminate Hp|apply Hs; exact Ha].
Qed.

(** What follows a question to the platform is run on its answer. *)
Lemma keeps_bind_query (P : action -> Prop) {A B} (q : W -> A)
      (k : A -> comp (state W) B) :
  (forall w, keeps stop_at P (k (q w))) -> keeps stop_at P (bind (query q) k).
Proof. intros Hk st. unfold bind, query. apply Hk. Qed.

End FilesTouched.

(** Closes a goal [only_files S a]: [a] is on no file, or on the file of [Hf]. *)
Ltac only_this Hf :=
  let p := fresh "p" in
  let Hp := fresh "Hp" in
  intros p Hp; cbn in Hp;
  first [discriminate Hp | injection Hp as <-; exact Hf].

Section FilesTouchedEngine.
Context {W : Type} `{Platform W}.
Variable method : string.
Variable stop_at : option nat.
Variable S : path -> Prop.

Lemma write_chunks_only (fuel : nat) (f : path) (pattern : list byte)
      (file_size written : Z) :
  S f -> keeps stop_at (only_files S) (write_chunks stop_at fuel f pattern file_size written).
Proof.
  intros Hf. revert written.
  induction fuel as [|fuel IH]; intros written; cbn [write_chunks];
    destruct (written <? file_size)%Z; keep; try apply IH; try only_this Hf.
Qed.

Lemma write_passes_only (f : path) (file_size : Z) (i : nat) (passes : list (list byte)) :
  S f -> keeps stop_at (only_files S) (write_passes stop_at f file_size i passes).
Proof.
  intros Hf. revert i.
  induction passes as [|pattern rest IH]; intros i; cbn [write_passes]; [keep|].
  unfold with_open. keep; try apply IH;
    try (apply write_chunks_only; exact Hf); try only_this Hf.
Qed.

Lemma shred_file_only (f : path) :
  S f -> keeps stop_at (only_files S) (shred_file method stop_at f).
Proof.
  intros Hf. unfold shred_file. keep;
    try (apply (uses_only_files stop_at S k_random);
         [apply get_passes_uses; intros ? Hk; exact Hk|sub_kinds]);
    try (apply write_passes_only; exact Hf);
    try only_this Hf.
Qed.

Lemma terminate_all_only (processes : list process) :
  keeps stop_at (only_files S) (terminate_all (W:=W) processes).
Proof.
  induction processes as [|proc rest IH]; cbn [terminate_all]; [keep|].
  unfold terminate_process. keep; try exact IH; try only_this I.
Qed.

Lemma resolve_locks_only (file_path : path) :
  S file_path -> keeps stop_at (only_files S) (resolve_locks (W:=W) file_path).
Proof.
  intros Hf. unfold resolve_locks, is_file_in_use. keep;
    try apply terminate_all_only;
    try (apply (uses_only_files stop_at S k_none);
         [apply get_processes_using_file_uses|intros ? Hk; discriminate Hk]);
    try only_this Hf.
Qed.

Lemma shred_files_in_only (root : path) (files : list string) :
  (forall file, In file files -> S (os_path_join root file)) ->
  keeps stop_at (only_files S) (shred_files_in method stop_at root files).
Proof.
  induction files as [|file rest IH]; intros Hin; cbn [shred_files_in]; [keep|].
  unfold is_valid_file_path. keep;
    try (apply IH; intros ? ?; apply Hin; right; assumption);
    try (apply shred_file_only; apply Hin; left; reflexivity);
    try only_this I.
Qed.

Lemma shred_walk_only (triples : list (path * list string * list string))
      (folders : gset path) :
  (forall root dirs files file,
     In (root, dirs, files) triples -> In file files -> S (os_path_join root file)) ->
  keeps stop_at (only_files S) (shred_walk method stop_at triples folders).
Proof.
  revert folders.
  induction triples as [|[[root dirs] files] rest IH]; intros folders Hin;
    cbn [shred_walk]; [keep|].
  keep.
  - apply shred_files_in_only. intros file Hf.
    apply (Hin root dirs files file); [left; reflexivity|exact Hf].
  - apply (uses_only_files stop_at S k_none);
      [apply record_subfolders_uses|intros ? Hk; discriminate Hk].
  - apply IH. intros r d fs file Ht Hf. apply (Hin r d fs file); [right; exact Ht|exact Hf].
Qed.

End FilesTouchedEngine.

Section FilesTouchedRun.
Context {W : Type} `{Platform W}.
Variable method : string.
Variable stop_at : option nat.
Variable selected : list path.

Lemma process_paths_only (idx : nat) (file_paths : list path) (folders : gset path) :
  (forall p, In p file_paths -> In p selected) ->
  keeps stop_at (only_files (file_in_selection selected))
        (process_paths method stop_at idx file_paths folders).
Proof.
  revert idx folders.
  induction file_paths as [|file_path rest IH]; intros idx folders Hin;
    cbn [process_paths]; [keep|].
  assert (Hrest : forall p, In p rest -> In p selected)
    by (intros p Hp; apply Hin; right; exact Hp).
  assert (Hsel : file_in_selection selected file_path)
    by (left; apply Hin; left; reflexivity).
  apply keeps_bind; [keep; only_this I|intros running].
  destruct (negb running); [keep; only_this I|].
  apply keeps_bind; [keep|intros _].
  apply keeps_bind; [unfold is_valid_file_path; keep|intros valid].
  destruct (negb valid); [apply IH; exact Hrest|].
  apply keeps_bind; [keep|intros is_dir].
  destruct is_dir.
  - cbv zeta. apply keeps_bind_query. intros w.
    apply keeps_bind; [|intros ?; apply IH; exact Hrest].
    apply shred_walk_only. intros root dirs files file Ht Hf.
    right. exists file_path, w, root, dirs, files, file.
    split; [apply Hin; left; reflexivity|]. split; [exact Ht|]. split; [exact Hf|reflexivity].
  - apply keeps_bind; [keep; only_this I|intros _].
    apply keeps_bind; [apply resolve_locks_only; exact Hsel|intros _].
    apply keeps_bind; [apply shred_file_only; exact Hsel|intros _].
    apply IH. exact Hrest.
Qed.

Lemma run_only (file_paths : list path) :
  (forall p, In p file_paths -> In p selected) ->
  keeps stop_at (only_files (file_in_selection selected)) (run method stop_at file_paths).
Proof.
  intros Hin. unfold run. keep;
    try (apply (uses_only_files stop_at _ k_none);
         [apply sizing_uses|intros ? Hk; discriminate Hk]);
    try (apply process_paths_only; exact Hin);
    try (apply (uses_only_files stop_at _ k_folders);
         [apply remove_folders_uses; intros ? Hk; exact Hk|sub_kinds]);
    try only_this I.
Qed.

End FilesTouchedRun.

(** X20.  A run only acts on files of the selection.  Whatever the method,
    the platform and the moment of a cancellation, every file that the
    thread opens (for appending, [wb] or [r+b]), writes to, closes or removes
    is one of the paths it was given, or [os.path.join(root, file)] for a
    triple [(root, dirs, files)] that the bottom-up [os.walk] of one of the
    paths given lists. *)
Theorem only_files_of_the_selection_are_touched {W : Type} `{Platform W}
        (method : string) (stop_at : option nat) (file_paths : list path) (w : W)
        (a : action) (p : path) :
  In a (history (snd (erase method stop_at file_paths w))) ->
  file_of a = Some p ->
  file_in_selection file_paths p.
Proof.
  intros Ha Hp. unfold history in Ha. apply in_rev in Ha. unfold erase in Ha.
  pose proof (valid_paths_filter file_paths (initial w)) as Ev.
  cbn [world initial] in Ev.
  set (vps := List.filter (valid_in w) file_paths) in *.
  assert (Hin : forall x, In x vps -> In x file_paths)
    by (intros x Hx; apply List.filter_In in Hx; apply Hx).
  assert (Hi : exists s0, init file_paths (initial w) = (Val vps, s0) /\
                          forall x, In x (log s0) -> file_of x = None).
  { unfold init. rewrite (bind_val _ _ _ _ _ Ev).
    destruct (length vps =? 0)%nat; cbn; eexists; (split; [reflexivity|]); cbn.
    - intros x [<-|[]]. reflexivity.
    - intros x []. }
  destruct Hi as (s0 & Ei & H0).
  rewrite (bind_val _ _ _ _ _ Ei) in Ha.
  destruct (run_only method stop_at file_paths vps Hin s0) as (new & L & F & _).
  rewrite L in Ha. apply in_app_or in Ha. destruct Ha as [Ha|Ha].
  - rewrite Forall_forall in F. apply list_elem_of_In in Ha. exact (F a Ha p Hp).
  - rewrite (H0 a Ha) in Hp. discriminate Hp.
Qed.

(** X20 on the directory that holds one empty file: the file opened for
    overwriting is the one that the walk of the directory lists. *)
Lemma only_files_of_the_selection_are_touched_witness :
  let a := Sys (SysOpen "d/e" ModeWB) None in
  (In a (history (snd (erase METHOD_SIMPLE None ["d"] machine_empty_file))) /\
   file_of a = Some "d/e") /\
  file_in_selection ["d"] "d/e".
Proof.
  cbv zeta.
  assert (H1 : In (Sys (SysOpen "d/e" ModeWB) None)
                  (history (snd (erase METHOD_SIMPLE None ["d"] machine_empty_file)))).
  { vm_compute. repeat first [left; reflexivity | right]. }
  assert (H2 : file_of (Sys (SysOpen "d/e" ModeWB) None) = Some "d/e") by reflexivity.
  split; [split; [exact H1|exact H2]|].
  exact (only_files_of_the_selection_are_touched
           METHOD_SIMPLE None ["d"] machine_empty_file _ _ H1 H2).
Defined.

(** ** The folders a run acts on *)

Section FoldersTouched.
Context {W : Type} `{Platform W}.
Variable stop_at : option nat.
Variable S : path -> Prop.

Lemma folder_act_older (older more : list action) (a : action) :
  folder_act S older a -> folder_act S (older ++ more) a.
Proof.
  destruct a as [s| |c r|cmd r| | |]; try exact (fun x => x).
  - destruct c as [p m| | | |d|src dst|src dst|t| | |]; try exact (fun x => x).
    intros (d & Hd & Hin). exists d. split; [exact Hd|].
    rewrite !in_app_iff. tauto.
  - intros (d & t & Hc & Hd & Hin). exists d, t. split; [exact Hc|]. split; [exact Hd|].
    rewrite !in_app_iff. tauto.
Qed.

Lemma folder_acts_app (l1 l2 : list action) :
  folder_acts S l1 -> folder_acts S l2 -> folder_acts S (l1 ++ l2).
Proof.
  intros H1 H2. induction l1 as [|a l1 IH]; [exact H2|].
  cbn [app folder_acts] in *. destruct H1 as [Ha H1].
  split; [apply folder_act_older; exact Ha|exact (IH H1)].
Qed.

Lemma folder_acts_of_kind (l : list action) :
  Forall (fun a => k_no_folder (kind_of a) = true) l -> folder_acts S l.
Proof.
  induction 1 as [|a l Ha F IH]; [exact I|]. cbn [folder_acts]. split; [|exact IH].
  destruct a as [s| |c r| | | |]; try exact I; try discriminate Ha.
  destruct c as [p m| | | | | | | | | |]; try exact I; discriminate Ha.
Qed.

Lemma folder_acts_picks (n : nat) (idxs : list nat) :
  folder_acts S (rev (map (RandIdx n) idxs)).
Proof.
  apply folder_acts_of_kind. apply Forall_forall. intros a Ha.
  apply list_elem_of_In, in_rev in Ha.
  apply in_map_iff in Ha. destruct Ha as (i & <- & _). reflexivity.
Qed.

Lemma acts_on_folders_uses (allowed : kind -> bool) {A} (m : comp (state W) A) :
  uses stop_at allowed m -> sub allowed k_no_folder -> acts_on_folders S m.
Proof.
  intros Hu Hs st. destruct (Hu st) as (new & L & F & _).
  exists new. split; [exact L|]. apply folder_acts_of_kind.
  eapply Forall_impl; [exact F|]. intros a. apply Hs.
Qed.

(** What follows a part is run on a value that the part can end with. *)
Lemma acts_on_folders_bind {A B} (Q : A -> Prop) (m : comp (state W) A)
      (k : A -> comp (state W) B) :
  acts_on_folders S m -> (forall st a, fst (m st) = Val a -> Q a) ->
  (forall a, Q a -> acts_on_folders S (k a)) -> acts_on_folders S (bind m k).
Proof.
  intros Hm Hq Hk st. unfold bind. destruct (Hm st) as (new1 & L1 & F1).
  specialize (Hq st).
  destruct (m st) as [[a|e|] s1]; cbn [fst snd] in *; [|exists new1; auto..].
  destruct (Hk a (Hq a eq_refl) s1) as (new2 & L2 & F2).
  exists (new2 ++ new1). split; [rewrite L2, L1, List.app_assoc; reflexivity|].
  apply folder_acts_app; assumption.
Qed.

Lemma acts_on_folders_try {A} (m : comp (state W) A) (h : exn -> comp (state W) A) :
  acts_on_folders S m -> (forall e, acts_on_folders S (h e)) ->
  acts_on_folders S (try_except m h).
Proof.
  intros Hm Hh st. unfold try_except. destruct (Hm st) as (new1 & L1 & F1).
  destruct (m st) as [[a|e|] s1]; cbn [fst snd] in *; [exists new1; auto| |exists new1; auto].
  destruct (Hh e s1) as (new2 & L2 & F2).
  exists (new2 ++ new1). split; [rewrite L2, L1, List.app_assoc; reflexivity|].
  apply folder_acts_app; assumption.
Qed.

(** The character of a pick is a letter or a digit. *)
Lemma pick_alnum (i : nat) : In (pick ALNUM i) (list_ascii_of_string ALNUM).
Proof.
  unfold pick. destruct (String.get i ALNUM) as [c|] eqn:E.
  - revert E. generalize ALNUM as population. intros population. revert i.
    induction population as [|c0 rest IH]; intros i E; [discriminate E|].
    destruct i as [|i]; cbn in E |- *; [inversion E; left; reflexivity|].
    right. exact (IH i E).
  - vm_compute. repeat first [left; reflexivity | right].
Qed.

Lemma name_of_picks_is_folder_name (idxs : list nat) :
  length idxs = 8%nat -> is_folder_name (name_of_picks ALNUM idxs).
Proof.
  intros Ln. split; [rewrite name_of_picks_length; exact Ln|].
  intros c Hc. unfold name_of_picks in Hc.
  rewrite list_ascii_of_string_of_list_ascii in Hc.
  apply in_map_iff in Hc. destruct Hc as (i & <- & _). apply pick_alnum.
Qed.

End FoldersTouched.

(** The part of a log that was added on top of [base]. *)
Ltac added l base :=
  lazymatch l with
  | base => constr:(@nil action)
  | ?a :: ?r => let p := added r base in constr:(a :: p)
  | ?x ++ ?r => let p := added r base in constr:(x ++ p)
  end.

Ltac give_added st :=
  lazymatch goal with
  | |- exists new, ?l = new ++ log st /\ _ =>
      let p := added l (log st) in
      exists p; split; [cbn; rewrite <- ?List.app_assoc; reflexivity|]
  end.

Ltac find_in :=
  cbn; rewrite ?in_app_iff; cbn; repeat first [left; reflexivity | right].

Section OneFolderTouched.
Context {W : Type} `{Platform W}.
Variable S : path -> Prop.

Lemma remove_folder_acts (folder : path) :
  S folder -> acts_on_folders S (remove_folder (W:=W) folder).
Proof.
  intros Hs st.
  unfold remove_folder, try_except, bind, query, emit, modify, ret, raise, sys, shell.
  destruct (os_path_exists folder (world st)) eqn:Ex; cbn -[random_choices].
  2:{ exists []. split; [reflexivity|exact I]. }
  destruct (exec (SysRmdir folder) (world st)) as [[e1|] w1] eqn:E1; cbn -[random_choices].
  2:{ give_added st. cbn. auto. }
  match goal with
  | |- context [random_choices ALNUM 8 ?s] =>
      destruct (random_choices_picks ALNUM 8 s) as (idxs & sr & Er & Ln & Lr)
  end.
  rewrite Er. cbn in Lr. cbn -[random_choices name_of_picks].
  pose proof (name_of_picks_is_folder_name idxs Ln) as Hname.
  set (temp := os_path_join (os_path_dirname folder) (name_of_picks ALNUM idxs)) in *.
  assert (Hbase : folder_acts S
                    (rev (map (RandIdx 62) idxs) ++
                     [Sys (SysRmdir folder) (Some e1);
                      Emit (FileStatus ("正在处理文件夹: " ++ truncate_middle folder))])).
  { apply folder_acts_app; [apply folder_acts_picks|cbn; auto]. }
  assert (Hren : S folder /\
                 exists name, is_folder_name name /\
                              temp = os_path_join (os_path_dirname folder) name)
    by (split; [exact Hs|eexists; split; [exact Hname|reflexivity]]).
  repeat next_call.
  all: rewrite ?Lr; give_added st.
  all: cbn [folder_acts folder_act].
  all: repeat match goal with
              | |- True => exact I
              | |- folder_acts _ _ => exact Hbase
              | |- _ /\ (exists name, _ /\ _ = os_path_join _ name) => exact Hren
              | |- exists d t, _ = rm_command t /\ _ =>
                  exists folder, temp; split; [reflexivity|split; [exact Hs|]]
              | |- exists d, _ /\ (In _ _ \/ In _ _) => exists folder; split; [exact Hs|]
              | |- In _ _ \/ In _ _ =>
                  first [left; solve [cbn [In]; repeat first [left; reflexivity | right]]
                        |right; solve [cbn [In]; repeat first [left; reflexivity | right]]]
              | |- _ /\ _ => split
              end.
Qed.

Lemma remove_folders_acts (folders : list path) :
  (forall d, In d folders -> S d) ->
  acts_on_folders S (remove_folders (W:=W) folders).
Proof.
  induction folders as [|folder rest IH]; intros Hin; cbn [remove_folders].
  - intros st. exists []. split; [reflexivity|exact I].
  - apply (acts_on_folders_bind S (fun _ => True)).
    + apply remove_folder_acts. apply Hin. left. reflexivity.
    + intros; exact I.
    + intros _ _. apply IH. intros d Hd. apply Hin. right. exact Hd.
Qed.

End OneFolderTouched.

Section FoldersRecorded.
Context {W : Type} `{Platform W}.
Variable method : string.
Variable stop_at : option nat.
Variable S : path -> Prop.

(** Every folder of the set satisfies [S]. *)
Local Abbreviation recorded := (fun r : gset path => forall d, d ∈ r -> S d).

(** The values a sequence can end with are those its last part can end with. *)
Lemma bind_yields {A B} (Q : B -> Prop) (m : comp (state W) A)
      (k : A -> comp (state W) B) :
  (forall a st r, fst (k a st) = Val r -> Q r) ->
  forall st r, fst (bind m k st) = Val r -> Q r.
Proof.
  intros Hk st r. unfold bind. destruct (m st) as [[a|e|] s1]; cbn; try discriminate.
  apply Hk.
Qed.

Lemma bind_yields_val {A B} (R : A -> Prop) (Q : B -> Prop) (m : comp (state W) A)
      (k : A -> comp (state W) B) :
  (forall st a, fst (m st) = Val a -> R a) ->
  (forall a, R a -> forall st r, fst (k a st) = Val r -> Q r) ->
  forall st r, fst (bind m k st) = Val r -> Q r.
Proof.
  intros Hm Hk st r. unfold bind. specialize (Hm st).
  destruct (m st) as [[a|e|] s1]; cbn in *; try discriminate.
  apply Hk. apply Hm. reflexivity.
Qed.

Lemma bind_query_yields {A B} (Q : B -> Prop) (q : W -> A) (k : A -> comp (state W) B) :
  (forall w st r, fst (k (q w) st) = Val r -> Q r) ->
  forall st r, fst (bind (query q) k st) = Val r -> Q r.
Proof. intros Hk st r. unfold bind, query. apply Hk. Qed.

Lemma record_subfolders_yields (root : path) (dirs : list string) (acc : gset path) :
  (forall d, d ∈ acc -> S d) ->
  (forall dir_name, In dir_name dirs -> S (os_path_join root dir_name)) ->
  forall st r, fst (record_subfolders root dirs acc st) = Val r ->
               forall d, d ∈ r -> S d.
Proof.
  revert acc. induction dirs as [|dir_name rest IH]; intros acc Ha Hd;
    cbn [record_subfolders].
  - intros st r E. inversion E; subst r. exact Ha.
  - cbv zeta. apply (bind_yields recorded). intros there. apply IH.
    + destruct there; [|exact Ha]. intros d Hin.
      apply elem_of_union in Hin. destruct Hin as [Hin|Hin]; [|apply Ha; exact Hin].
      apply elem_of_singleton in Hin. subst d. apply Hd. left. reflexivity.
    + intros dn Hdn. apply Hd. right. exact Hdn.
Qed.

Lemma shred_walk_yields (triples : list (path * list string * list string))
      (acc : gset path) :
  (forall d, d ∈ acc -> S d) ->
  (forall root dirs files dir_name,
     In (root, dirs, files) triples -> In dir_name dirs ->
     S (os_path_join root dir_name)) ->
  forall st r, fst (shred_walk method stop_at triples acc st) = Val r ->
               forall d, d ∈ r -> S d.
Proof.
  revert acc. induction triples as [|[[root dirs] files] rest IH]; intros acc Ha Hd;
    cbn [shred_walk].
  - intros st r E. inversion E; subst r. exact Ha.
  - apply (bind_yields recorded). intros _.
    apply (bind_yields_val recorded recorded).
    + apply record_subfolders_yields; [exact Ha|].
      intros dn Hdn. apply (Hd root dirs files dn); [left; reflexivity|exact Hdn].
    + intros folders Hf. apply IH; [exact Hf|].
      intros r ds fs dn Ht Hdn. apply (Hd r ds fs dn); [right; exact Ht|exact Hdn].
Qed.

Lemma process_paths_yields (idx : nat) (file_paths : list path) (acc : gset path) :
  (forall d, d ∈ acc -> S d) ->
  (forall p, In p file_paths -> S p) ->
  (forall p w root dirs files dir_name,
     In p file_paths -> In (root, dirs, files) (os_walk false p w) ->
     In dir_name dirs -> S (os_path_join root dir_name)) ->
  forall st r, fst (process_paths method stop_at idx file_paths acc st) = Val r ->
               forall d, d ∈ r -> S d.
Proof.
  revert idx acc. induction file_paths as [|file_path rest IH]; intros idx acc Ha Hp Hw;
    cbn [process_paths].
  - intros st r E. inversion E; subst r. exact Ha.
  - assert (IH' : forall idx' acc', (forall d, d ∈ acc' -> S d) ->
                    forall st r,
                      fst (process_paths method stop_at idx' rest acc' st) = Val r ->
                      forall d, d ∈ r -> S d).
    { intros idx' acc' Ha'. apply IH; [exact Ha'| |].
      - intros p Hin. apply Hp. right. exact Hin.
      - intros p w root dirs files dn Hin. apply Hw. right. exact Hin. }
    apply (bind_yields recorded). intros running. destruct (negb running).
    { apply (bind_yields recorded). intros _ st r E. discriminate E. }
    apply (bind_yields recorded). intros _.
    apply (bind_yields recorded). intros valid.
    destruct (negb valid); [apply IH'; exact Ha|].
    apply (bind_yields recorded). intros is_dir. destruct is_dir.
    + cbv zeta. apply (bind_query_yields recorded). intros w.
      apply (bind_yields_val recorded recorded).
      * apply shred_walk_yields.
        -- intros d Hin. apply elem_of_union in Hin.
           destruct Hin as [Hin|Hin]; [|apply Ha; exact Hin].
           apply elem_of_singleton in Hin. subst d. apply Hp. left. reflexivity.
        -- intros root dirs files dn Ht Hdn.
           apply (Hw file_path w root dirs files dn); [left; reflexivity|exact Ht|exact Hdn].
      * intros folders Hf. apply IH'. exact Hf.
    + do 3 (apply (bind_yields recorded); intros _). apply IH'. exact Ha.
Qed.

End FoldersRecorded.

Section FoldersTouchedRun.
Context {W : Type} `{Platform W}.
Variable method : string.
Variable stop_at : option nat.
Variable selected : list path.

Lemma run_acts (file_paths : list path) :
  (forall p, In p file_paths -> In p selected) ->
  acts_on_folders (folder_in_selection selected) (run method stop_at file_paths).
Proof.
  intros Hin. unfold run.
  apply acts_on_folders_try.
  2:{ intros e. apply (acts_on_folders_uses stop_at _ k_no_folder);
        [unfold uses; keep; reflexivity|intros ? Hk; exact Hk]. }
  cbv zeta. destruct (length file_paths =? 0)%nat.
  { apply (acts_on_folders_uses stop_at _ k_no_folder);
      [unfold uses; keep; reflexivity|intros ? Hk; exact Hk]. }
  apply (acts_on_folders_bind _ (fun _ => True)); [|intros; exact I|intros _ _].
  { apply (acts_on_folders_uses stop_at _ k_none);
      [apply sizing_uses|intros ? Hk; discriminate Hk]. }
  apply (acts_on_folders_bind _
           (fun folders : gset path =>
              forall d, d ∈ folders -> folder_in_selection selected d)).
  - apply (acts_on_folders_uses stop_at _ k_files);
      [apply process_paths_uses; intros ? Hk; exact Hk|sub_kinds].
  - apply process_paths_yields.
    + intros d Hd. apply elem_of_empty in Hd. destruct Hd.
    + intros p Hp. left. apply Hin. exact Hp.
    + intros p w root dirs files dn Hp Ht Hdn. right.
      exists p, w, root, dirs, files, dn.
      split; [apply Hin; exact Hp|]. split; [exact Ht|]. split; [exact Hdn|reflexivity].
  - intros folders Hf.
    apply (acts_on_folders_bind _ (fun _ => True)); [|intros; exact I|intros _ _].
    + apply remove_folders_acts. intros d Hd. apply Hf.
      apply elem_of_elements, list_elem_of_In. exact Hd.
    + apply (acts_on_folders_uses stop_at _ k_no_folder);
        [unfold uses; keep; reflexivity|intros ? Hk; exact Hk].
Qed.

Lemma erase_acts :
  acts_on_folders (folder_in_selection selected)
                  (bind (init (W:=W) selected) (run method stop_at)).
Proof.
  apply (acts_on_folders_bind _ (fun vps => forall p, In p vps -> In p selected)).
  - apply (acts_on_folders_uses stop_at _ k_no_folder);
      [apply init_uses; reflexivity|intros ? Hk; exact Hk].
  - intros st vps. unfold init.
    rewrite (bind_val _ _ _ _ _ (valid_paths_filter selected st)).
    destruct (length _ =? 0)%nat; cbn; intros E; inversion E; subst vps;
      intros p Hp; apply List.filter_In in Hp; apply Hp.
  - intros vps Hv. apply run_acts. exact Hv.
Qed.

End FoldersTouchedRun.

Lemma folder_acts_at {W : Type} `{Platform W} (S : path -> Prop)
      (newer older : list action) (a : action) :
  folder_acts S (newer ++ a :: older) -> folder_act S older a.
Proof.
  induction newer as [|x newer IH]; cbn [app folder_acts]; intros [Ha Hrest];
    [exact Ha|exact (IH Hrest)].
Qed.

Lemma folder_act_same {W : Type} `{Platform W} (S : path -> Prop)
      (l l' : list action) (a : action) :
  (forall x, In x l -> In x l') -> folder_act S l a -> folder_act S l' a.
Proof.
  intros Hl. destruct a as [s| |c r|cmd r| | |]; try exact (fun x => x).
  - destruct c as [p m| | | |d|src dst|src dst|t| | |]; try exact (fun x => x).
    intros (d & Hd & [Hin|Hin]); exists d; (split; [exact Hd|]); auto.
  - intros (d & t & Hc & Hd & [Hin|Hin]); exists d, t;
      (split; [exact Hc|]); (split; [exact Hd|]); auto.
Qed.

(** X21.  A run only removes folders of the selection.  Whatever the method,
    the platform and the moment of a cancellation, for every action [a] of
    the thread and the actions [pre] before it: a folder that [a] removes
    with [os.rmdir], renames or moves is one of the paths given or
    [os.path.join(root, dir_name)] for a triple [(root, dirs, files)] that
    the bottom-up [os.walk] of one of the paths given lists; the path it is
    renamed or moved to is a name of eight ASCII letters and digits joined
    to the folder's own directory; and what [shutil.rmtree] or the shell
    command removes is a path that such a folder has been renamed or moved
    to, with success, by an action of [pre]. *)
Theorem only_folders_of_the_selection_are_removed {W : Type} `{Platform W}
        (method : string) (stop_at : option nat) (file_paths : list path) (w : W)
        (pre post : list action) (a : action) :
  history (snd (erase method stop_at file_paths w)) = pre ++ a :: post ->
  folder_act (folder_in_selection file_paths) pre a.
Proof.
  intros Hh. unfold history in Hh.
  destruct (erase_acts method stop_at file_paths (initial w)) as (new & L & F).
  assert (L' : log (snd (erase method stop_at file_paths w)) = new ++ []) by exact L.
  rewrite L', List.app_nil_r in Hh.
  apply (f_equal (@rev action)) in Hh.
  rewrite rev_involutive, rev_app_distr in Hh. cbn [rev] in Hh.
  rewrite <- List.app_assoc in Hh. cbn [app] in Hh. rewrite Hh in F.
  apply folder_acts_at in F.
  apply (folder_act_same _ (rev pre)); [|exact F].
  intros x Hx. apply in_rev. exact Hx.
Qed.

(** X21 on the directory that holds one empty file: [shutil.rmtree] removes
    the path that the directory has been renamed to just before. *)
Lemma only_folders_of_the_selection_are_removed_witness :
  let h := history (snd (erase METHOD_SIMPLE None ["d"] machine_empty_file)) in
  let a := Sys (SysRmtree "VTrPENLA") None in
  h = firstn 17 h ++ a :: skipn 18 h /\
  folder_act (folder_in_selection ["d"]) (firstn 17 h) a.
Proof.
  cbv zeta.
  assert (H1 : history (snd (erase METHOD_SIMPLE None ["d"] machine_empty_file))
               = firstn 17 (history (snd (erase METHOD_SIMPLE None ["d"]
                                                machine_empty_file)))
                 ++ Sys (SysRmtree "VTrPENLA") None
                 :: skipn 18 (history (snd (erase METHOD_SIMPLE None ["d"]
                                                  machine_empty_file))))
    by (vm_compute; reflexivity).
  split; [exact H1|].
  exact (only_folders_of_the_selection_are_removed
           METHOD_SIMPLE None ["d"] machine_empty_file _ _ _ H1).
Defined.
